(** * requests4go: request construction pipeline

    A shallow embedding of [request.go] (package [requests4go]) together with
    the parts of Go's standard library the file calls ([strings], [net/url],
    [encoding/base64], [net/textproto], [net/http], [mime/multipart]), and the
    properties of the construction pipeline stated over that embedding.

    Conventions.
    - A Go [string] is a Rocq [string] (a sequence of bytes).
    - A Go [map[string]T] is a [gmap string T]; a map or slice that may be
      [nil] is an [option].
    - A Go function returning [(v, error)] returns a pair whose second
      component is an [option error]; a run-time panic is the [Panic]
      constructor of [outcome]. *)

From Stdlib Require Import ZArith NArith Ascii String List Bool Lia.
From stdpp Require Import base option list gmap strings sorting.

(* ===================================================================== *)
(** * Errors and outcomes *)
(* ===================================================================== *)

(** Go [error] values that the pipeline can produce.  [Errorf ctx e] is
    [fmt.Errorf(ctx + ": %w", e)]; [ErrURL op u e] is [*url.Error]. *)
Inductive error : Type :=
| ErrInvalidControl
| ErrMissingScheme
| ErrFirstSegmentColon
| ErrInvalidHost (s : string)
| ErrInvalidPort (s : string)
| ErrMissingBracket
| ErrInvalidUserinfo
| ErrEscape (s : string)
| ErrSemicolon
| ErrInvalidMethod (m : string)
| ErrMarshal (msg : string)
| ErrNotStruct
| ErrIO (msg : string)
| ErrURL (op u : string) (e : error)
| Errorf (ctx : string) (e : error).

Inductive panic : Type :=
| NilDereference
| IndexOutOfRange (index len : nat)
| NilMapAssignment.

Inductive outcome (A : Type) : Type :=
| Ret (a : A)
| Panic (p : panic).
Arguments Ret {A} a.
Arguments Panic {A} p.

Global Instance outcome_bind : MBind outcome := fun A B f m =>
  match m with
  | Ret a => f a
  | Panic p => Panic p
  end.
Global Instance outcome_ret : MRet outcome := fun A a => Ret a.

(* ===================================================================== *)
(** * Package [strings] *)
(* ===================================================================== *)

Module Strings.

(** [strings.Cut(s, sep)] for a one-byte separator. *)
Fixpoint Cut (sep : ascii) (s : string) : string * string * bool :=
  match s with
  | EmptyString => (EmptyString, EmptyString, false)
  | String a s' =>
      if Ascii.eqb a sep then (EmptyString, s', true)
      else let '(b, r, f) := Cut sep s' in (String a b, r, f)
  end.

(** [strings.Count(s, sep)] for a one-byte separator. *)
Fixpoint Count (sep : ascii) (s : string) : nat :=
  match s with
  | EmptyString => 0
  | String a s' => (if Ascii.eqb a sep then 1 else 0) + Count sep s'
  end.

Definition ContainsByte (sep : ascii) (s : string) : bool :=
  negb (Nat.eqb (Count sep s) 0).

(** [strings.HasSuffix(s, sep)] for a one-byte suffix. *)
Fixpoint HasSuffixByte (sep : ascii) (s : string) : bool :=
  match s with
  | EmptyString => false
  | String a EmptyString => Ascii.eqb a sep
  | String _ s' => HasSuffixByte sep s'
  end.

(** [s[:len(s)-1]]. *)
Fixpoint dropLast (s : string) : string :=
  match s with
  | EmptyString => EmptyString
  | String _ EmptyString => EmptyString
  | String a s' => String a (dropLast s')
  end.

(** [strings.Replace(s, old, new, -1)] for a non-empty [old]: every
    non-overlapping occurrence, scanning from the left.  [skip] counts the
    bytes of the occurrence just replaced that are still to be dropped. *)
Fixpoint ReplaceAll_go (old new : string) (skip : nat) (s : string) : string :=
  match s with
  | EmptyString => EmptyString
  | String a s' =>
      match skip with
      | S k => ReplaceAll_go old new k s'
      | O =>
          if String.prefix old s
          then new +:+ ReplaceAll_go old new (String.length old - 1) s'
          else String a (ReplaceAll_go old new 0 s')
      end
  end.

Definition ReplaceAll (s old new : string) : string :=
  ReplaceAll_go old new 0 s.

(** The pieces of [s] between occurrences of [sep]. *)
Fixpoint Split (sep : ascii) (s : string) : list string :=
  match s with
  | EmptyString => [EmptyString]
  | String a s' =>
      if Ascii.eqb a sep then EmptyString :: Split sep s'
      else match Split sep s' with
           | [] => [String a EmptyString]
           | p :: ps => String a p :: ps
           end
  end.

Fixpoint all (f : ascii -> bool) (s : string) : bool :=
  match s with
  | EmptyString => true
  | String a s' => f a && all f s'
  end.

(** The split of [s] at the last occurrence of [sep], as code that calls
    [strings.LastIndex(s, sep)] takes it: the text before, the text after,
    and whether [sep] occurs. *)
Fixpoint CutLast (sep : ascii) (s : string) : string * string * bool :=
  match s with
  | EmptyString => (EmptyString, EmptyString, false)
  | String a s' =>
      match CutLast sep s' with
      | (b, r, true) => (String a b, r, true)
      | (_, _, false) =>
          if Ascii.eqb a sep then (EmptyString, s', true)
          else (String a s', EmptyString, false)
      end
  end.

(** The split of [s] at the first occurrence of the text [sub], as code
    that calls [strings.Index(s, sub)] takes it: [s[:i]] and [s[i:]]. *)
Fixpoint SplitAt (sub : string) (s : string) {struct s} : option (string * string) :=
  if String.prefix sub s then Some (EmptyString, s)
  else match s with
       | EmptyString => None
       | String a s' =>
           match SplitAt sub s' with
           | Some (b, r) => Some (String a b, r)
           | None => None
           end
       end.

(** [strings.LastIndex(s, sep)] for a one-byte separator; [-1] when [sep]
    does not occur.  [i] is the index of the first byte of [s]. *)
Fixpoint lastIndexFrom (sep : ascii) (i : Z) (s : string) (found : Z) : Z :=
  match s with
  | EmptyString => found
  | String a s' => lastIndexFrom sep (i + 1) s' (if Ascii.eqb a sep then i else found)
  end.

Definition LastIndex (sep : ascii) (s : string) : Z := lastIndexFrom sep 0 s (-1).

(** [strings.TrimSuffix(s, sep)] for a one-byte suffix. *)
Definition TrimSuffix (sep : ascii) (s : string) : string :=
  if HasSuffixByte sep s then dropLast s else s.

Definition lowerByte (c : ascii) : ascii :=
  if (65 <=? nat_of_ascii c) && (nat_of_ascii c <=? 90)
  then ascii_of_nat (nat_of_ascii c + 32) else c.

(** [strings.ToLower] on a text of ASCII bytes. *)
Fixpoint ToLower (s : string) : string :=
  match s with
  | EmptyString => EmptyString
  | String a s' => String (lowerByte a) (ToLower s')
  end.

End Strings.

(* ===================================================================== *)
(** * Package [net/url] *)
(* ===================================================================== *)

Module Url.

(** The encoding modes of [escape] and [unescape]. *)
Inductive encoding :=
| encodePath
| encodePathSegment
| encodeHost
| encodeZone
| encodeUserPassword
| encodeQueryComponent
| encodeFragment.

Definition between (lo hi : nat) (c : ascii) : bool :=
  (lo <=? nat_of_ascii c) && (nat_of_ascii c <=? hi).

Definition isLetter (c : ascii) : bool := between 97 122 c || between 65 90 c.

Definition isDigit (c : ascii) : bool := between 48 57 c.

Definition isAlnum (c : ascii) : bool :=
  between 97 122 c || between 65 90 c || between 48 57 c.

(** The bytes a host may hold besides the unreserved ones. *)
Definition isHostSubDelim (c : ascii) : bool :=
  match c with
  | "!" | "$" | "&" | "'" | "(" | ")" | "*" | "+" | "," | ";" | "=" | ":"
  | "[" | "]" | "<" | ">" | "034" => true
  | _ => false
  end%char.

Definition isHostMode (mode : encoding) : bool :=
  match mode with
  | encodeHost | encodeZone => true
  | _ => false
  end.

Definition isQueryMode (mode : encoding) : bool :=
  match mode with
  | encodeQueryComponent => true
  | _ => false
  end.

(** [shouldEscape(c, mode)] *)
Definition shouldEscape (c : ascii) (mode : encoding) : bool :=
  if isAlnum c then false
  else if isHostMode mode && isHostSubDelim c then false
  else match c with
       | "-" | "_" | "." | "~" => false
       | "$" | "&" | "+" | "," | "/" | ":" | ";" | "=" | "?" | "@" =>
           match mode with
           | encodePath => Ascii.eqb c "?"
           | encodePathSegment =>
               Ascii.eqb c "/" || Ascii.eqb c ";" || Ascii.eqb c "," || Ascii.eqb c "?"
           | encodeUserPassword =>
               Ascii.eqb c "@" || Ascii.eqb c "/" || Ascii.eqb c "?" || Ascii.eqb c ":"
           | encodeQueryComponent => true
           | encodeFragment => false
           | encodeHost | encodeZone => true
           end
       | "!" | "(" | ")" | "*" =>
           match mode with
           | encodeFragment => false
           | _ => true
           end
       | _ => true
       end%char.

Definition upperhex (n : nat) : ascii :=
  ascii_of_nat (if n <? 10 then 48 + n else 55 + n).

Definition ishex (c : ascii) : bool :=
  between 48 57 c || between 97 102 c || between 65 70 c.

Definition unhex (c : ascii) : nat :=
  if between 48 57 c then nat_of_ascii c - 48
  else if between 97 102 c then nat_of_ascii c - 97 + 10
  else if between 65 70 c then nat_of_ascii c - 65 + 10
  else 0.

Fixpoint escape (s : string) (mode : encoding) : string :=
  match s with
  | EmptyString => EmptyString
  | String c s' =>
      if Ascii.eqb c " " && isQueryMode mode
      then String "+" (escape s' mode)
      else if shouldEscape c mode
      then String "%" (String (upperhex (nat_of_ascii c / 16))
                         (String (upperhex (nat_of_ascii c mod 16)) (escape s' mode)))
      else String c (escape s' mode)
  end.

(** Whether the escape [%hl] may stand where [mode] is decoded.  In a host
    only bytes from [0x80] on and ["%25"] may be written as escapes; in a
    zone an escape may stand for ["%"], for a space, and for a byte a host
    may hold as it is. *)
Definition escapeAllowed (h l : ascii) (mode : encoding) : bool :=
  let is25 := Ascii.eqb h "2" && Ascii.eqb l "5" in
  match mode with
  | encodeHost => negb (unhex h <? 8) || is25
  | encodeZone =>
      is25 || (unhex h * 16 + unhex l =? 32)
      || negb (shouldEscape (ascii_of_nat (unhex h * 16 + unhex l)) encodeHost)
  | _ => true
  end.

(** [unescape(s, mode)]: a ["%"] must be followed by two hex digits; the
    first offence from the left is the error. *)
Fixpoint unescape (s : string) (mode : encoding) : string * option error :=
  match s with
  | EmptyString => (EmptyString, None)
  | String "%" (String h (String l s')) =>
      if ishex h && ishex l then
        if escapeAllowed h l mode then
          match unescape s' mode with
          | (t, None) => (String (ascii_of_nat (unhex h * 16 + unhex l)) t, None)
          | (_, Some e) => (EmptyString, Some e)
          end
        else (EmptyString, Some (ErrEscape (String "%" (String h (String l EmptyString)))))
      else (EmptyString, Some (ErrEscape (String "%" (String h (String l EmptyString)))))
  | String "%" rest => (EmptyString, Some (ErrEscape (String "%" rest)))
  | String c s' =>
      if isHostMode mode && (nat_of_ascii c <? 128) && shouldEscape c encodeHost
      then (EmptyString, Some (ErrInvalidHost (String c EmptyString)))
      else
        match unescape s' mode with
        | (t, None) =>
            (String (if Ascii.eqb c "+" && isQueryMode mode then " "%char else c) t, None)
        | (_, Some e) => (EmptyString, Some e)
        end
  end.

Definition QueryEscape (s : string) : string := escape s encodeQueryComponent.
Definition QueryUnescape (s : string) : string * option error :=
  unescape s encodeQueryComponent.

(** ** [url.Values] *)

Abbreviation Values := (gmap string (list string)).

Definition Set_ (v : Values) (key value : string) : Values :=
  <[key := [value]]> v.

Definition Add (v : Values) (key value : string) : Values :=
  <[key := default [] (v !! key) ++ [value]]> v.

(** Keys in the order [slices.Sort] leaves them (bytewise). *)
Definition sortedKeys (v : Values) : list string :=
  merge_sort String.le (fst <$> map_to_list v).

Definition encodePair (k : string) (x : string) : string :=
  QueryEscape k +:+ String "=" (QueryEscape x).

Fixpoint joinAmp (l : list string) : string :=
  match l with
  | [] => EmptyString
  | [x] => x
  | x :: l' => x +:+ String "&" (joinAmp l')
  end.

Definition Encode (v : Values) : string :=
  joinAmp (k ← sortedKeys v; encodePair k <$> default [] (v !! k)).

(** One round of the loop of [parseQuery]: [seg] is the text up to the next
    ["&"].  A segment that holds [";"] is an error (Go 1.17 and later). *)
Definition parseSegment (acc : Values * option error) (seg : string)
  : Values * option error :=
  let '(m, err) := acc in
  if Strings.ContainsByte ";" seg then (m, Some ErrSemicolon)
  else if String.eqb seg EmptyString then (m, err)
  else
    let '(key, value, _) := Strings.Cut "=" seg in
    match QueryUnescape key with
    | (_, Some e1) => (m, Some (default e1 err))
    | (key', None) =>
        match QueryUnescape value with
        | (_, Some e1) => (m, Some (default e1 err))
        | (value', None) => (Add m key' value', err)
        end
    end.

Definition ParseQuery (query : string) : Values * option error :=
  foldl parseSegment (∅, None) (Strings.Split "&" query).

(** ** [url.URL] *)

(** [url.Userinfo] *)
Record Userinfo : Type := mkUserinfo {
  username : string;
  password : string;
  passwordSet : bool
}.

Record URL : Type := mkURL {
  Scheme : string;
  Opaque : string;
  User : option Userinfo;
  Host : string;
  Path : string;
  RawPath : string;
  OmitHost : bool;
  ForceQuery : bool;
  RawQuery : string;
  Fragment : string;
  RawFragment : string
}.

Definition isCTL (c : ascii) : bool :=
  (nat_of_ascii c <? 32) || (nat_of_ascii c =? 127).

Definition stringContainsCTLByte (s : string) : bool :=
  negb (Strings.all (fun c => negb (isCTL c)) s).

(** What the scan of [getScheme] finds: a scheme and the text after its
    colon, no scheme, or a colon at the very start. *)
Inductive schemeScan : Type :=
| SchemeFound (scheme rest : string)
| NoScheme
| MissingScheme.

Definition isSchemeMark (c : ascii) : bool :=
  isDigit c || Ascii.eqb c "+" || Ascii.eqb c "-" || Ascii.eqb c ".".

(** The loop of [getScheme]; [first] says that the byte at hand is the
    first byte of the text. *)
Fixpoint scanScheme (first : bool) (s : string) : schemeScan :=
  match s with
  | EmptyString => NoScheme
  | String c s' =>
      if isLetter c then
        match scanScheme false s' with
        | SchemeFound sc r => SchemeFound (String c sc) r
        | other => other
        end
      else if isSchemeMark c then
        if first then NoScheme
        else match scanScheme false s' with
             | SchemeFound sc r => SchemeFound (String c sc) r
             | other => other
             end
      else if Ascii.eqb c ":" then
        if first then MissingScheme else SchemeFound EmptyString s'
      else NoScheme
  end.

(** [getScheme(rawURL)] *)
Definition getScheme (rawURL : string) : string * string * option error :=
  match scanScheme true rawURL with
  | SchemeFound sc r => (sc, r, None)
  | NoScheme => (EmptyString, rawURL, None)
  | MissingScheme => (EmptyString, EmptyString, Some ErrMissingScheme)
  end.

(** [validOptionalPort(port)]: empty, or a colon followed by digits. *)
Definition validOptionalPort (port : string) : bool :=
  match port with
  | EmptyString => true
  | String c p => Ascii.eqb c ":" && Strings.all isDigit p
  end.

(** [validUserinfo(s)] *)
Definition validUserinfo (s : string) : bool :=
  Strings.all
    (fun c => isAlnum c
              || match c with
                 | "-" | "." | "_" | ":" | "~" | "!" | "$" | "&" | "'" | "(" | ")"
                 | "*" | "+" | "," | ";" | "=" | "%" | "@" => true
                 | _ => false
                 end%char) s.

(** [parseHost(host)].  Releases of [net/url] differ on an IP literal in
    brackets and on a second colon in a host without brackets; this is the
    most permissive of them, see [portable]. *)
Definition parseHost (host : string) : string * option error :=
  let whole := unescape host encodeHost in
  if String.prefix "[" host then
    match Strings.CutLast "]" host with
    | (_, _, false) => (EmptyString, Some ErrMissingBracket)
    | (literal, colonPort, true) =>
        if negb (validOptionalPort colonPort)
        then (EmptyString, Some (ErrInvalidPort colonPort))
        else
          match Strings.SplitAt "%25" literal with
          | None => whole
          | Some (beforeZone, zone) =>
              match unescape beforeZone encodeHost with
              | (_, Some e) => (EmptyString, Some e)
              | (host1, None) =>
                  match unescape zone encodeZone with
                  | (_, Some e) => (EmptyString, Some e)
                  | (host2, None) =>
                      match unescape (String "]" colonPort) encodeHost with
                      | (_, Some e) => (EmptyString, Some e)
                      | (host3, None) => (host1 +:+ host2 +:+ host3, None)
                      end
                  end
              end
          end
    end
  else
    match Strings.CutLast ":" host with
    | (_, port, true) =>
        if negb (validOptionalPort (String ":" port))
        then (EmptyString, Some (ErrInvalidPort (String ":" port)))
        else whole
    | (_, _, false) => whole
    end.

(** [parseAuthority(authority)] *)
Definition parseAuthority (authority : string)
  : option Userinfo * string * option error :=
  match Strings.CutLast "@" authority with
  | (_, _, false) =>
      match parseHost authority with
      | (_, Some e) => (None, EmptyString, Some e)
      | (host, None) => (None, host, None)
      end
  | (userinfo, hostport, true) =>
      match parseHost hostport with
      | (_, Some e) => (None, EmptyString, Some e)
      | (host, None) =>
          if negb (validUserinfo userinfo) then (None, EmptyString, Some ErrInvalidUserinfo)
          else if negb (Strings.ContainsByte ":" userinfo) then
            match unescape userinfo encodeUserPassword with
            | (_, Some e) => (None, EmptyString, Some e)
            | (name, None) => (Some (mkUserinfo name EmptyString false), host, None)
            end
          else
            let '(name, pass, _) := Strings.Cut ":" userinfo in
            match unescape name encodeUserPassword with
            | (_, Some e) => (None, EmptyString, Some e)
            | (name, None) =>
                match unescape pass encodeUserPassword with
                | (_, Some e) => (None, EmptyString, Some e)
                | (pass, None) => (Some (mkUserinfo name pass true), host, None)
                end
            end
      end
  end.

(** [URL.setPath(p)]: the decoded path, and the written path when the
    default escaping of the decoded one differs from it. *)
Definition setPath (p : string) : string * string * option error :=
  match unescape p encodePath with
  | (_, Some e) => (EmptyString, EmptyString, Some e)
  | (path, None) =>
      if String.eqb p (escape path encodePath) then (path, EmptyString, None)
      else (path, p, None)
  end.

(** [URL.setFragment(f)] *)
Definition setFragment (f : string) : string * string * option error :=
  match unescape f encodeFragment with
  | (_, Some e) => (EmptyString, EmptyString, Some e)
  | (frag, None) =>
      if String.eqb f (escape frag encodeFragment) then (frag, EmptyString, None)
      else (frag, f, None)
  end.

(** The query is split off the text that follows the scheme: a lone ["?"]
    at the end sets [ForceQuery]. *)
Definition splitQuery (rest : string) : string * bool * string :=
  if Strings.HasSuffixByte "?" rest && (Strings.Count "?" rest =? 1)
  then (Strings.dropLast rest, true, EmptyString)
  else let '(rest, q, _) := Strings.Cut "?" rest in (rest, false, q).

(** A text that starts with ["//"] is split into the authority and the
    rest, which is empty or starts with ["/"]. *)
Definition splitAuthority (rest : string) : string * string :=
  let authority := String.substring 2 (String.length rest - 2) rest in
  match Strings.Cut "/" authority with
  | (a, r, true) => (a, String "/" r)
  | (_, _, false) => (authority, EmptyString)
  end.

(** The part of [parse] that follows the split of scheme and query. *)
Definition parseRest (scheme rest : string) (force : bool) (rawq : string)
  : option URL * option error :=
  let rootless := negb (String.prefix "/" rest) in
  let hasScheme := negb (String.eqb scheme EmptyString) in
  if rootless && hasScheme
  then (Some (mkURL scheme rest None EmptyString EmptyString EmptyString false
                force rawq EmptyString EmptyString), None)
  else if rootless && Strings.ContainsByte ":" (Strings.Cut "/" rest).1.1
  then (None, Some ErrFirstSegmentColon)
  else
    let authority :=
      if (hasScheme || negb (String.prefix "///" rest)) && String.prefix "//" rest
      then
        let '(authority, rest') := splitAuthority rest in
        match parseAuthority authority with
        | (_, _, Some e) => inr e
        | (user, host, None) => inl (user, host, false, rest')
        end
      else inl (None, EmptyString, hasScheme && String.prefix "/" rest, rest) in
    match authority with
    | inr e => (None, Some e)
    | inl (user, host, omit, rest') =>
        match setPath rest' with
        | (_, _, Some e) => (None, Some e)
        | (path, rawpath, None) =>
            (Some (mkURL scheme EmptyString user host path rawpath omit
                     force rawq EmptyString EmptyString), None)
        end
    end.

(** [parse(rawURL, false)] on the text before the fragment. *)
Definition parse (rawURL : string) : option URL * option error :=
  if stringContainsCTLByte rawURL then (None, Some ErrInvalidControl)
  else if String.eqb rawURL "*"
  then (Some (mkURL EmptyString EmptyString None EmptyString "*" EmptyString false
                false EmptyString EmptyString EmptyString), None)
  else
    match getScheme rawURL with
    | (_, _, Some e) => (None, Some e)
    | (scheme, rest, None) =>
        let '(rest, force, rawq) := splitQuery rest in
        parseRest (Strings.ToLower scheme) rest force rawq
    end.

(** [url.Parse(rawURL)] *)
Definition Parse (rawURL : string) : option URL * option error :=
  let '(u, frag, _) := Strings.Cut "#" rawURL in
  match parse u with
  | (Some url, None) =>
      if String.eqb frag EmptyString then (Some url, None)
      else match setFragment frag with
           | (_, _, Some e) => (None, Some (ErrURL "parse" rawURL e))
           | (fragment, rawfragment, None) =>
               (Some (mkURL (Scheme url) (Opaque url) (User url) (Host url) (Path url)
                        (RawPath url) (OmitHost url) (ForceQuery url) (RawQuery url)
                        fragment rawfragment), None)
           end
  | (_, Some e) => (None, Some (ErrURL "parse" u e))
  | (None, None) => (None, None)
  end.

(** [validEncoded(s, mode)] *)
Definition validEncoded (s : string) (mode : encoding) : bool :=
  Strings.all
    (fun c => match c with
              | "!" | "$" | "&" | "'" | "(" | ")" | "*" | "+" | "," | ";" | "=" | ":"
              | "@" | "[" | "]" | "%" => true
              | _ => negb (shouldEscape c mode)
              end%char) s.

(** The written form [raw] is kept when it is not empty, is a valid
    encoding, and decodes to [decoded]. *)
Definition keepsRaw (raw decoded : string) (mode : encoding) : bool :=
  negb (String.eqb raw EmptyString) && validEncoded raw mode
  && match unescape raw mode with
     | (t, None) => String.eqb t decoded
     | (_, Some _) => false
     end.

(** [URL.EscapedPath()] *)
Definition EscapedPath (u : URL) : string :=
  if keepsRaw (RawPath u) (Path u) encodePath then RawPath u
  else if String.eqb (Path u) "*" then "*"
  else escape (Path u) encodePath.

(** [URL.EscapedFragment()] *)
Definition EscapedFragment (u : URL) : string :=
  if keepsRaw (RawFragment u) (Fragment u) encodeFragment then RawFragment u
  else escape (Fragment u) encodeFragment.

(** [Userinfo.String()] *)
Definition userinfoString (ui : Userinfo) : string :=
  escape (username ui) encodeUserPassword
  +:+ (if passwordSet ui then String ":" (escape (password ui) encodeUserPassword)
       else EmptyString).

(** What [URL.String()] writes for scheme and authority when [Opaque] is
    empty. *)
Definition authorityText (u : URL) : string :=
  let noUser := match User u with None => true | Some _ => false end in
  if negb (String.eqb (Scheme u) EmptyString) || negb (String.eqb (Host u) EmptyString)
     || negb noUser
  then
    if OmitHost u && String.eqb (Host u) EmptyString && noUser then EmptyString
    else
      (if negb (String.eqb (Host u) EmptyString) || negb (String.eqb (Path u) EmptyString)
          || negb noUser
       then "//" else EmptyString)
      +:+ match User u with
          | Some ui => userinfoString ui +:+ "@"
          | None => EmptyString
          end
      +:+ escape (Host u) encodeHost
  else EmptyString.

(** What [URL.String()] writes before the query: scheme, then the opaque
    text or authority and path. *)
Definition stringHead (u : URL) : string :=
  let scheme :=
    if negb (String.eqb (Scheme u) EmptyString) then Scheme u +:+ ":" else EmptyString in
  if negb (String.eqb (Opaque u) EmptyString) then scheme +:+ Opaque u
  else
    let path := EscapedPath u in
    let buf := scheme +:+ authorityText u in
    let buf :=
      if negb (String.prefix "/" path) && negb (String.eqb path EmptyString)
         && negb (String.eqb (Host u) EmptyString)
      then buf +:+ "/" else buf in
    let buf :=
      if String.eqb buf EmptyString && Strings.ContainsByte ":" (Strings.Cut "/" path).1.1
      then "./" else buf in
    buf +:+ path.

(** [URL.String()] *)
Definition String_ (u : URL) : string :=
  stringHead u
  +:+ (if ForceQuery u || negb (String.eqb (RawQuery u) EmptyString)
       then String "?" (RawQuery u) else EmptyString)
  +:+ (if negb (String.eqb (Fragment u) EmptyString)
       then String "#" (EscapedFragment u) else EmptyString).

(** Releases of [net/url] differ on two kinds of host: an IP literal in
    brackets, whose content the later ones check, and a host without
    brackets that holds a second colon, which the later ones refuse.  A
    host is plain when it is of neither kind; on a text whose host is plain
    the releases agree. *)
Definition plainHost (h : string) : bool :=
  negb (Strings.ContainsByte "[" h) && negb (Strings.ContainsByte "]" h)
  && (Strings.Count ":" h <=? 1).

Definition portable (rawURL : string) : bool :=
  match Parse rawURL with
  | (Some u, _) => plainHost (Host u)
  | (None, _) => true
  end.

End Url.

(* ===================================================================== *)
(** * Package [encoding/base64]: [StdEncoding] *)
(* ===================================================================== *)

Module Base64.

Definition encodeStd : string :=
  "ABCDEFGHIJKLMNOPQRSTUVWXYZabcdefghijklmnopqrstuvwxyz0123456789+/".

Definition padChar : ascii := "="%char.

Definition byteZ (c : ascii) : Z := Z.of_nat (nat_of_ascii c).

(** The conversion [byte(v)] of an unsigned integer. *)
Definition zbyte (v : Z) : ascii := ascii_of_nat (Z.to_nat (Z.land v 255)).

(** [enc.encode[i]]. *)
Definition encodeIdx (i : Z) : ascii :=
  default padChar (String.get (Z.to_nat i) encodeStd).

Fixpoint indexOf (c : ascii) (s : string) (i : Z) : Z :=
  match s with
  | EmptyString => 255
  | String a s' => if Ascii.eqb a c then i else indexOf c s' (i + 1)
  end.

(** [enc.decodeMap[c]]: [255] marks a byte outside the alphabet. *)
Definition decodeMap (c : ascii) : Z := indexOf c encodeStd 0.

Definition sextet (val : Z) (shift : Z) : ascii :=
  encodeIdx (Z.land (Z.shiftr val shift) 63).

Fixpoint EncodeToString (src : string) : string :=
  match src with
  | EmptyString => EmptyString
  | String a EmptyString =>
      let val := Z.shiftl (byteZ a) 16 in
      String (sextet val 18) (String (sextet val 12)
        (String padChar (String padChar EmptyString)))
  | String a (String b EmptyString) =>
      let val := Z.lor (Z.shiftl (byteZ a) 16) (Z.shiftl (byteZ b) 8) in
      String (sextet val 18) (String (sextet val 12)
        (String (sextet val 6) (String padChar EmptyString)))
  | String a (String b (String c rest)) =>
      let val := Z.lor (Z.lor (Z.shiftl (byteZ a) 16) (Z.shiftl (byteZ b) 8)) (byteZ c) in
      String (sextet val 18) (String (sextet val 12)
        (String (sextet val 6) (String (sextet val 0) (EncodeToString rest))))
  end.

Definition quantum (d0 d1 d2 d3 : Z) : Z :=
  Z.lor (Z.lor (Z.lor (Z.shiftl d0 18) (Z.shiftl d1 12)) (Z.shiftl d2 6)) d3.

(** [DecodeString]: four input bytes give three output bytes; padding is
    accepted only as the end of the last group.  (Go also skips carriage
    returns and line feeds in the input; that is left out here.) *)
Fixpoint DecodeString (s : string) : option string :=
  match s with
  | EmptyString => Some EmptyString
  | String c0 (String c1 (String c2 (String c3 rest))) =>
      let d0 := decodeMap c0 in
      let d1 := decodeMap c1 in
      if (d0 =? 255)%Z || (d1 =? 255)%Z then None
      else if Ascii.eqb c2 padChar then
        if Ascii.eqb c3 padChar && String.eqb rest EmptyString
        then Some (String (zbyte (Z.shiftr (quantum d0 d1 0 0) 16)) EmptyString)
        else None
      else
        let d2 := decodeMap c2 in
        if (d2 =? 255)%Z then None
        else if Ascii.eqb c3 padChar then
          if String.eqb rest EmptyString
          then let val := quantum d0 d1 d2 0 in
               Some (String (zbyte (Z.shiftr val 16))
                       (String (zbyte (Z.shiftr val 8)) EmptyString))
          else None
        else
          let d3 := decodeMap c3 in
          if (d3 =? 255)%Z then None
          else
            let val := quantum d0 d1 d2 d3 in
            match DecodeString rest with
            | Some t =>
                Some (String (zbyte (Z.shiftr val 16))
                        (String (zbyte (Z.shiftr val 8))
                           (String (zbyte (Z.shiftr val 0)) t)))
            | None => None
            end
  | _ => None
  end.

End Base64.

(* ===================================================================== *)
(** * Packages [net/textproto] and [net/http] *)
(* ===================================================================== *)

(** An [io.Reader] handed to or produced by the pipeline. *)
Inductive Reader : Type :=
| StringsReader (s : string)
| BytesReader (b : string)
| BufferReader (b : string)
| StreamReader (id : nat).

Module Http.

Definition isLower (c : ascii) : bool := Url.between 97 122 c.
Definition isUpper (c : ascii) : bool := Url.between 65 90 c.
Definition toUpper (c : ascii) : ascii :=
  if isLower c then ascii_of_nat (nat_of_ascii c - 32) else c.
Definition toLower (c : ascii) : ascii :=
  if isUpper c then ascii_of_nat (nat_of_ascii c + 32) else c.

(** [httpguts.IsTokenRune], also [validHeaderFieldByte]. *)
Definition isToken (c : ascii) : bool :=
  Url.isAlnum c ||
  match c with
  | "!" | "#" | "$" | "%" | "&" | "'" | "*" | "+" | "-" | "." | "^" | "_"
  | "`" | "|" | "~" => true
  | _ => false
  end%char.

Fixpoint canonical (upper : bool) (s : string) : string :=
  match s with
  | EmptyString => EmptyString
  | String c s' =>
      let c' := if upper then toUpper c else toLower c in
      String c' (canonical (Ascii.eqb c' "-") s')
  end.

(** [textproto.CanonicalMIMEHeaderKey]: a key holding a byte that is not a
    token byte is returned unchanged. *)
Definition CanonicalMIMEHeaderKey (s : string) : string :=
  if Strings.all isToken s then canonical true s else s.

Abbreviation Header := (gmap string (list string)).

Definition Header_Set (h : Header) (key value : string) : Header :=
  <[CanonicalMIMEHeaderKey key := [value]]> h.

Definition Header_Get (h : Header) (key : string) : string :=
  match h !! CanonicalMIMEHeaderKey key with
  | Some (v :: _) => v
  | _ => EmptyString
  end.

Record Cookie : Type := mkCookie { Name : string; Value : string }.

Record Request : Type := mkRequest {
  Method : string;
  URL : Url.URL;
  Header_ : Header;
  Body_ : option Reader
}.

Definition validMethod (method : string) : bool :=
  negb (String.eqb method EmptyString) && Strings.all isToken method.

(** [hasPort(host)]: a colon after the last bracket. *)
Definition hasPort (host : string) : bool :=
  (Strings.LastIndex "]" host <? Strings.LastIndex ":" host)%Z.

(** [removeEmptyPort(host)] *)
Definition removeEmptyPort (host : string) : string :=
  if hasPort host then Strings.TrimSuffix ":" host else host.

(** The assignment [u.Host = removeEmptyPort(u.Host)]. *)
Definition normalizeHost (u : Url.URL) : Url.URL :=
  Url.mkURL (Url.Scheme u) (Url.Opaque u) (Url.User u) (removeEmptyPort (Url.Host u))
    (Url.Path u) (Url.RawPath u) (Url.OmitHost u) (Url.ForceQuery u) (Url.RawQuery u)
    (Url.Fragment u) (Url.RawFragment u).

(** [http.NewRequest(method, url, body)]. *)
Definition NewRequest (method url : string) (body : option Reader)
  : option Request * option error :=
  let method := if String.eqb method EmptyString then "GET" else method in
  if negb (validMethod method) then (None, Some (ErrInvalidMethod method))
  else match Url.Parse url with
       | (Some u, None) => (Some (mkRequest method (normalizeHost u) ∅ body), None)
       | (_, Some e) => (None, Some e)
       | (None, None) => (None, None)
       end.

Definition basicAuth (username password : string) : string :=
  Base64.EncodeToString (username +:+ String ":" password).

(** [Request.SetBasicAuth]. *)
Definition SetBasicAuth (r : Request) (username password : string) : Request :=
  mkRequest (Method r) (URL r)
    (Header_Set (Header_ r) "Authorization" ("Basic " +:+ basicAuth username password))
    (Body_ r).

Definition lower (s : string) : string :=
  String.string_of_list_ascii (toLower <$> String.list_ascii_of_string s).

(** [ascii.EqualFold]. *)
Definition EqualFold (s t : string) : bool := String.eqb (lower s) (lower t).

Definition parseBasicAuth (auth : string) : string * string * bool :=
  let prefix := "Basic " in
  if (String.length auth <? String.length prefix)
     || negb (EqualFold (String.substring 0 (String.length prefix) auth) prefix)
  then (EmptyString, EmptyString, false)
  else match Base64.DecodeString
               (String.substring (String.length prefix)
                  (String.length auth - String.length prefix) auth) with
       | None => (EmptyString, EmptyString, false)
       | Some cs =>
           let '(username, password, ok) := Strings.Cut ":" cs in
           if ok then (username, password, true)
           else (EmptyString, EmptyString, false)
       end.

(** [Request.BasicAuth]. *)
Definition BasicAuth (r : Request) : string * string * bool :=
  let auth := Header_Get (Header_ r) "Authorization" in
  if String.eqb auth EmptyString then (EmptyString, EmptyString, false)
  else parseBasicAuth auth.

End Http.

(* ===================================================================== *)
(** * Package [mime/multipart]: the writer over a [bytes.Buffer] *)
(* ===================================================================== *)

Module Multipart.

(** [lastpart] records whether a part has been opened; [boundary] is the
    random boundary [NewWriter] draws. *)
Record Writer : Type := mkWriter {
  buf : string;
  boundary : string;
  lastpart : bool
}.

Definition NewWriter (boundary : string) : Writer :=
  mkWriter EmptyString boundary false.

Definition CRLF : string := String "013" (String "010" EmptyString).
Definition dquote : string := String "034" EmptyString.

(** [escapeQuotes(s)]: a backslash before a backslash and before a double
    quote; a line feed becomes ["%0A"] and a carriage return ["%0D"]. *)
Fixpoint escapeQuotes (s : string) : string :=
  match s with
  | EmptyString => EmptyString
  | String c s' =>
      if Ascii.eqb c "\" || Ascii.eqb c "034"
      then String "\" (String c (escapeQuotes s'))
      else if Ascii.eqb c "010" then "%0A" +:+ escapeQuotes s'
      else if Ascii.eqb c "013" then "%0D" +:+ escapeQuotes s'
      else String c (escapeQuotes s')
  end.

(** [CreatePart] with the header lines already rendered.  Writes go to a
    [bytes.Buffer], which reports no error. *)
Definition CreatePart (w : Writer) (headerLines : string) : Writer * option error :=
  let b := (if lastpart w then CRLF else EmptyString)
           +:+ "--" +:+ boundary w +:+ CRLF +:+ headerLines +:+ CRLF in
  (mkWriter (buf w +:+ b) (boundary w) true, None).

Definition CreateFormFile (w : Writer) (fieldname filename : string)
  : Writer * option error :=
  CreatePart w
    ("Content-Disposition: form-data; name=" +:+ dquote +:+ escapeQuotes fieldname
       +:+ dquote +:+ "; filename=" +:+ dquote +:+ escapeQuotes filename +:+ dquote
       +:+ CRLF +:+ "Content-Type: application/octet-stream" +:+ CRLF).

Definition CreateFormField (w : Writer) (fieldname : string) : Writer * option error :=
  CreatePart w
    ("Content-Disposition: form-data; name=" +:+ dquote +:+ escapeQuotes fieldname
       +:+ dquote +:+ CRLF).

(** A write to the current part. *)
Definition Write (w : Writer) (p : string) : Writer * option error :=
  (mkWriter (buf w +:+ p) (boundary w) (lastpart w), None).

Definition WriteField (w : Writer) (fieldname value : string) : Writer * option error :=
  match CreateFormField w fieldname with
  | (w', Some err) => (w', Some err)
  | (w', None) => Write w' value
  end.

Definition Close (w : Writer) : Writer * option error :=
  (mkWriter (buf w +:+ CRLF +:+ "--" +:+ boundary w +:+ "--" +:+ CRLF)
     (boundary w) false, None).

Definition isTSpecial (c : ascii) : bool :=
  match c with
  | "(" | ")" | "<" | ">" | "@" | "," | ";" | ":" | "\" | "034" | "/" | "["
  | "]" | "?" | "=" | " " => true
  | _ => false
  end%char.

Definition FormDataContentType (w : Writer) : string :=
  let b := boundary w in
  let b := if Strings.all (fun c => negb (isTSpecial c)) b then b
           else dquote +:+ b +:+ dquote in
  "multipart/form-data; boundary=" +:+ b.

End Multipart.

(* ===================================================================== *)
(** * Package [github.com/google/go-querystring/query] *)
(* ===================================================================== *)

Module Query.

(** A value passed as [interface{}] to [query.Values].  The encoder walks a
    struct's fields in declaration order and calls [Add] once per encoded
    value; [fields] lists those calls.  Anything that is not a struct is
    refused. *)
Inductive Object : Type :=
| Struct (fields : list (string * string))
| NotStruct.

Definition Values (v : Object) : Url.Values * option error :=
  match v with
  | Struct fields => (foldl (fun m kv => Url.Add m kv.1 kv.2) ∅ fields, None)
  | NotStruct => (∅, Some ErrNotStruct)
  end.

End Query.

(* ===================================================================== *)
(** * Package [requests4go]: [request.go] *)
(* ===================================================================== *)

(** An [io.ReadCloser] supplied by the caller: [rc_data] is what reading
    yields before end of file or before the read error [rc_readErr];
    [rc_closeErr] is what [Close] returns.  [rc_id] names the stream. *)
Record ReadCloser : Type := mkReadCloser {
  rc_id : nat;
  rc_data : string;
  rc_readErr : option error;
  rc_closeErr : option error
}.

Record FileField : Type := mkFileField {
  FileName : string;
  FieldName : string;
  FileContent : option ReadCloser
}.

(** A value of the [Json] field: a [string], a [[]byte], or anything else,
    for which [marshal] is what [json.Marshal] returns. *)
Inductive JsonValue : Type :=
| JsonString (s : string)
| JsonBytes (b : string)
| JsonOther (marshal : string * option error).

Record RequestArguments : Type := mkRequestArguments {
  Client : option nat;
  Headers : option (gmap string string);
  Body : option Reader;
  Params : option (gmap string string);
  ObjectParam : option Query.Object;
  Auth : option (list string);
  Cookies : option (gmap string string);
  CookieJar : option nat;
  Json : option JsonValue;
  Data : option (gmap string string);
  Files : option (list FileField);
  RedirectLimit : Z;
  Timeout : Z
}.

(** The [http.CookieJar] interface. *)
Class CookieJarOps (J : Type) : Type := {
  jar_Cookies : J -> Url.URL -> list Http.Cookie;
  jar_SetCookies : J -> Url.URL -> list Http.Cookie -> J
}.

(** An [http.Client]: [Jar] refers to a jar in the store. *)
Record HttpClient : Type := mkHttpClient {
  Jar : option nat;
  ClientTimeout : Z
}.

(** The objects the pipeline reaches through pointers: clients and jars by
    address, and the log of [Close] calls on file streams (stream names, in
    call order). *)
Record World (J : Type) : Type := mkWorld {
  clients : gmap nat HttpClient;
  jars : gmap nat J;
  closed : list nat
}.
Arguments mkWorld {J} _ _ _.
Arguments clients {J} _.
Arguments jars {J} _.
Arguments closed {J} _.

(** Modelled from the spec: the constant [defaultJsonType] is declared outside
    [request.go]; section 4.2 gives the Content-Type forced for a JSON body. *)
Definition defaultJsonType : string := "application/json".

(** Modelled from the spec: the constant [defaultContentType] is declared
    outside [request.go]; section 4.2 gives the Content-Type set for a
    URL-encoded form. *)
Definition defaultContentType : string := "application/x-www-form-urlencoded".

Section Pipeline.

(** The order in which a [range] loop visits a map.  Go leaves it
    unspecified; every property below holds for each such order. *)
Variable order : forall V : Type, gmap string V -> list (string * V).

(** The boundary drawn by [multipart.NewWriter]. *)
Variable boundary : string.

Context {J : Type} `{CookieJarOps J}.

Definition rangeOf {V : Type} (m : option (gmap string V)) : list (string * V) :=
  match m with
  | Some m => order V m
  | None => []
  end.

(** [len(m)] of a possibly nil map. *)
Definition lenMap {V : Type} (m : option (gmap string V)) : nat :=
  match m with
  | Some m => size m
  | None => 0
  end.

(** [m[k] = v] on a possibly nil map. *)
Definition assign (m : option (gmap string string)) (k v : string)
  : outcome (option (gmap string string)) :=
  match m with
  | Some m => Ret (Some (<[k := v]> m))
  | None => Panic NilMapAssignment
  end.

(** Modelled from the spec: [cookiesFromMap] is defined outside
    [request.go]; section 4.5 says the supplied cookies are converted to
    the underlying cookie representation. *)
Definition cookiesFromMap (m : gmap string string) : list Http.Cookie :=
  (fun kv => Http.mkCookie kv.1 kv.2) <$> order string m.

(** [mergeParams] *)
Definition mergeParams (parsedUrl : Url.URL) (rawQuery : Url.Values) : string :=
  let newUrl := Strings.ReplaceAll (Url.String_ parsedUrl)
                  (String "?" (Url.RawQuery parsedUrl)) EmptyString in
  newUrl +:+ String "?" (Url.Encode rawQuery).

(** [prepareURL] *)
Definition prepareURL (originUrl : string) (params : option (gmap string string))
  : string * option error :=
  if lenMap params =? 0 then (originUrl, None)
  else match Url.Parse originUrl with
       | (Some parsedUrl, None) =>
           match Url.ParseQuery (Url.RawQuery parsedUrl) with
           | (rawQuery, None) =>
               let rawQuery :=
                 foldl (fun q kv => Url.Set_ q kv.1 kv.2) rawQuery (rangeOf params) in
               (mergeParams parsedUrl rawQuery, None)
           | (_, Some err) => (EmptyString, Some (Errorf "prepareJsonBody error" err))
           end
       | (_, Some err) => (EmptyString, Some (Errorf "prepareURL error" err))
       | (None, None) => (EmptyString, None)
       end.

(** [prepareURLWithStruct] *)
Definition prepareURLWithStruct (originUrl : string) (paramStruct : Query.Object)
  : string * option error :=
  match Url.Parse originUrl with
  | (Some parsedUrl, None) =>
      match Url.ParseQuery (Url.RawQuery parsedUrl) with
      | (rawQuery, None) =>
          match Query.Values paramStruct with
          | (params, None) =>
              let rawQuery :=
                foldl (fun q kvs => foldl (fun q v => Url.Add q kvs.1 v) q kvs.2)
                  rawQuery (order (list string) params) in
              (mergeParams parsedUrl rawQuery, None)
          | (_, Some err) =>
              (EmptyString, Some (Errorf "prepareURLWithStruct error" err))
          end
      | (_, Some err) => (EmptyString, Some (Errorf "prepareURLWithStruct error" err))
      end
  | (_, Some err) => (EmptyString, Some (Errorf "prepareURLWithStruct error" err))
  | (None, None) => (EmptyString, None)
  end.

(** [prepareJsonBody] *)
Definition prepareJsonBody (JSON : JsonValue) : option Reader * option error :=
  match JSON with
  | JsonString s => (Some (StringsReader s), None)
  | JsonBytes b => (Some (BytesReader b), None)
  | JsonOther (byteS, None) => (Some (BytesReader byteS), None)
  | JsonOther (_, Some err) => (None, Some (Errorf "prepareJsonBody error" err))
  end.

(** [encodeParams] *)
Definition encodeParams (data : option (gmap string string)) : string :=
  Url.Encode (foldl (fun vs kv => Url.Set_ vs kv.1 kv.2) ∅ (rangeOf data)).

(** [prepareDataBody] *)
Definition prepareDataBody (data : option (gmap string string))
  : option Reader * option error :=
  (Some (StringsReader (encodeParams data)), None).

(** [io.Copy(fileWriter, src)]: what was read before an error is written. *)
Definition io_Copy (w : Multipart.Writer) (src : ReadCloser)
  : Multipart.Writer * option error :=
  match Multipart.Write w (rc_data src) with
  | (w', Some err) => (w', Some err)
  | (w', None) => (w', rc_readErr src)
  end.

(** [file.FileContent.Close()], recorded in the log. *)
Definition rc_Close (rc : ReadCloser) (log : list nat) : list nat * option error :=
  (log ++ [rc_id rc], rc_closeErr rc).

(** The first loop of [prepareFilesBody].  The result is the writer when
    the loop runs to its end, or the error the function returns from inside
    the loop. *)
Fixpoint filesLoop (files : list FileField) (writer : Multipart.Writer)
  (log : list nat) : outcome (list nat * (Multipart.Writer + error)) :=
  match files with
  | [] => Ret (log, inl writer)
  | file :: files' =>
      match Multipart.CreateFormFile writer (FieldName file) (FileName file) with
      | (_, Some err) => Ret (log, inr (Errorf "prepareFilesBody error" err))
      | (fileWriter, None) =>
          match FileContent file with
          | None => Panic NilDereference
          | Some content =>
              match io_Copy fileWriter content with
              | (_, Some err) => Ret (log, inr err)
              | (fileWriter, None) =>
                  match rc_Close content log with
                  | (log, Some err) => Ret (log, inr err)
                  | (log, None) => filesLoop files' fileWriter log
                  end
              end
          end
      end
  end.

(** The second loop of [prepareFilesBody]. *)
Fixpoint dataLoop (data : list (string * string)) (writer : Multipart.Writer)
  : Multipart.Writer + error :=
  match data with
  | [] => inl writer
  | (key, value) :: data' =>
      match Multipart.WriteField writer key value with
      | (_, Some err) => inr (Errorf "prepareFilesBody error" err)
      | (writer, None) => dataLoop data' writer
      end
  end.

(** [prepareFilesBody] *)
Definition prepareFilesBody (files : list FileField)
  (data : option (gmap string string)) (log : list nat)
  : outcome (list nat * (option Reader * string * option error)) :=
  let writer := Multipart.NewWriter boundary in
  r ← filesLoop files writer log;
  match r with
  | (log, inr err) => Ret (log, (None, EmptyString, Some err))
  | (log, inl writer) =>
      match dataLoop (rangeOf data) writer with
      | inr err => Ret (log, (None, EmptyString, Some err))
      | inl writer =>
          match Multipart.Close writer with
          | (_, Some err) =>
              Ret (log, (None, EmptyString, Some (Errorf "prepareFilesBody error" err)))
          | (writer, None) =>
              let contentType := Multipart.FormDataContentType writer in
              Ret (log, (Some (BufferReader (Multipart.buf writer)), contentType, None))
          end
      end
  end.

(** What [prepareBody] leaves behind and returns: the header map of the
    argument bag, the close log, the body and the error. *)
Record BodyResult : Type := mkBodyResult {
  br_headers : option (gmap string string);
  br_log : list nat;
  br_body : option Reader;
  br_err : option error
}.

(** [prepareBody] *)
Definition prepareBody (args : RequestArguments) (log : list nat)
  : outcome BodyResult :=
  match Body args with
  | Some body => Ret (mkBodyResult (Headers args) log (Some body) None)
  | None =>
      match Json args with
      | Some json =>
          headers ← assign (Headers args) "Content-Type" defaultJsonType;
          let '(body, err) := prepareJsonBody json in
          Ret (mkBodyResult headers log body err)
      | None =>
          match Files args with
          | Some files =>
              r ← prepareFilesBody files (Data args) log;
              let '(log, (body, contentType, err)) := r in
              headers ← assign (Headers args) "Content-type" contentType;
              Ret (mkBodyResult headers log body err)
          | None =>
              match Data args with
              | Some data =>
                  headers ← assign (Headers args) "Content-Type" defaultContentType;
                  let '(body, err) := prepareDataBody (Some data) in
                  Ret (mkBodyResult headers log body err)
              | None => Ret (mkBodyResult (Headers args) log None None)
              end
          end
      end
  end.

(** [prepareCookies].  The client is reached through the pointer
    [args.Client]; a nil pointer, a nil jar and a nil request panic where
    the code dereferences them. *)
Definition prepareCookies (args : RequestArguments) (req : option Http.Request)
  (w : World J) : outcome (World J) :=
  match CookieJar args with
  | Some jar =>
      match Client args with
      | None => Panic NilDereference
      | Some c =>
          match clients w !! c with
          | None => Panic NilDereference
          | Some client =>
              Ret (mkWorld (<[c := mkHttpClient (Some jar) (ClientTimeout client)]> (clients w))
                     (jars w) (closed w))
          end
      end
  | None =>
      match Cookies args with
      | Some cookieMap =>
          match Client args with
          | None => Panic NilDereference
          | Some c =>
              match clients w !! c, req with
              | Some client, Some req =>
                  match Jar client with
                  | None => Panic NilDereference
                  | Some j =>
                      match jars w !! j with
                      | None => Panic NilDereference
                      | Some jar =>
                          let cookies := jar_Cookies jar (Http.URL req) in
                          let cusCookie := cookiesFromMap cookieMap in
                          let cookies := cookies ++ cusCookie in
                          Ret (mkWorld (clients w)
                                 (<[j := jar_SetCookies jar (Http.URL req) cookies]> (jars w))
                                 (closed w))
                      end
                  end
              | _, _ => Panic NilDereference
              end
          end
      | None => Ret w
      end
  end.

(** The [switch] at the head of [prepareRequest]. *)
Definition resolveURL (reqUrl : string) (args : RequestArguments)
  : string * option error :=
  if negb (lenMap (Params args) =? 0) then prepareURL reqUrl (Params args)
  else match ObjectParam args with
       | Some obj => prepareURLWithStruct reqUrl obj
       | None => (reqUrl, None)
       end.

(** [args.Auth[i]] *)
Definition index (l : list string) (i : nat) : outcome string :=
  match l !! i with
  | Some x => Ret x
  | None => Panic (IndexOutOfRange i (length l))
  end.

(** The auth step of [prepareRequest]. *)
Definition applyAuth (auth : option (list string)) (req : option Http.Request)
  : outcome (option Http.Request) :=
  match auth with
  | None => Ret req
  | Some a =>
      username ← index a 0;
      password ← index a 1;
      match req with
      | None => Panic NilDereference
      | Some r => Ret (Some (Http.SetBasicAuth r username password))
      end
  end.

(** The header loop of [prepareRequest]. *)
Fixpoint applyHeaders (entries : list (string * string)) (req : option Http.Request)
  : outcome (option Http.Request) :=
  match entries with
  | [] => Ret req
  | (k, v) :: entries' =>
      match req with
      | None => Panic NilDereference
      | Some r =>
          applyHeaders entries'
            (Some (Http.mkRequest (Http.Method r) (Http.URL r)
                     (Http.Header_Set (Http.Header_ r) k v) (Http.Body_ r)))
      end
  end.

(** What [prepareRequest] leaves behind and returns. *)
Record Prepared : Type := mkPrepared {
  p_world : World J;
  p_headers : option (gmap string string);
  p_req : option Http.Request;
  p_err : option error
}.

(** [prepareRequest] *)
Definition prepareRequest (method reqUrl : string) (args : RequestArguments)
  (w : World J) : outcome Prepared :=
  match resolveURL reqUrl args with
  | (_, Some err) => Ret (mkPrepared w (Headers args) None (Some err))
  | (reqUrl, None) =>
      b ← prepareBody args (closed w);
      let w := mkWorld (clients w) (jars w) (br_log b) in
      match br_err b with
      | Some err =>
          Ret (mkPrepared w (br_headers b) None (Some (Errorf "prepareRequest error" err)))
      | None =>
          let '(req, err) := Http.NewRequest method reqUrl (br_body b) in
          req ← applyAuth (Auth args) req;
          req ← applyHeaders (rangeOf (br_headers b)) req;
          w ← prepareCookies args req w;
          Ret (mkPrepared w (br_headers b) req err)
      end
  end.

End Pipeline.

(** A cookie jar that keeps, per URL text, the cookies last stored for it. *)
Definition MapJar : Type := gmap string (list Http.Cookie).

Global Instance MapJar_ops : CookieJarOps MapJar := {|
  jar_Cookies j u := default [] (j !! Url.String_ u);
  jar_SetCookies j u cs := <[Url.String_ u := cs]> j
|}.

(** The iteration order that follows the map's own enumeration. *)
Definition enumOrder : forall V : Type, gmap string V -> list (string * V) :=
  fun V m => map_to_list m.

Definition withObjectParam (o : option Query.Object) (a : RequestArguments)
  : RequestArguments :=
  mkRequestArguments (Client a) (Headers a) (Body a) (Params a) o (Auth a)
    (Cookies a) (CookieJar a) (Json a) (Data a) (Files a) (RedirectLimit a) (Timeout a).

(** Some key of the map has canonical form [K]. *)
Definition hasCanonicalKey (h : option (gmap string string)) (K : string) : bool :=
  match h with
  | Some h =>
      existsb (fun kv => String.eqb (Http.CanonicalMIMEHeaderKey kv.1) K) (map_to_list h)
  | None => false
  end.

(** The header map after the header loop of [prepareRequest] has visited
    [entries]. *)
Definition setAll (h : Http.Header) (entries : list (string * string)) : Http.Header :=
  foldl (fun h kv => Http.Header_Set h kv.1 kv.2) h entries.

(** The Content-Type the Body Encoder infers for an argument bag, given the
    boundary the multipart writer draws. *)
Definition inferredContentType (boundary : string) (args : RequestArguments)
  : option (list string) :=
  match Body args, Json args, Files args, Data args with
  | Some _, _, _, _ => None
  | None, Some _, _, _ => Some [defaultJsonType]
  | None, None, Some _, _ =>
      Some [Multipart.FormDataContentType (Multipart.NewWriter boundary)]
  | None, None, None, Some _ => Some [defaultContentType]
  | None, None, None, None => None
  end.

(** The number of header-loop rounds that write the request's Content-Type. *)
Definition contentTypeWrites (entries : list (string * string)) : nat :=
  length (filter (fun kv => Http.CanonicalMIMEHeaderKey kv.1 = "Content-Type") entries).

(** The json strategy or the data strategy is the active one. *)
Definition jsonOrDataActive (args : RequestArguments) : bool :=
  match Body args, Json args, Files args, Data args with
  | None, Some _, _, _ => true
  | None, None, None, Some _ => true
  | _, _, _, _ => false
  end.

(** The bytes [QueryEscape] can write. *)
Definition isQuerySafe (c : ascii) : bool :=
  Url.isAlnum c
  || match c with
     | "-" | "_" | "." | "~" | "%" | "+" => true
     | _ => false
     end%char.

(** The bytes [Encode] can write: the escaped bytes and the two separators. *)
Definition isEncoded (c : ascii) : bool :=
  isQuerySafe c || Ascii.eqb c "=" || Ascii.eqb c "&".

(** [Add] applied to each pair in turn. *)
Definition addAll (m : Url.Values) (kvs : list (string * string)) : Url.Values :=
  foldl (fun m kv => Url.Add m kv.1 kv.2) m kvs.

(** [Set] applied to each pair in turn. *)
Definition setEach (m : Url.Values) (kvs : list (string * string)) : Url.Values :=
  foldl (fun m kv => Url.Set_ m kv.1 kv.2) m kvs.

(** The pairs under the given keys, key by key. *)
Definition pairsUnder (v : Url.Values) (keys : list string) : list (string * string) :=
  k ← keys; (fun x => (k, x)) <$> default [] (v !! k).

(** The key-value pairs [Encode] writes, in its order. *)
Definition pairsOf (v : Url.Values) : list (string * string) :=
  pairsUnder v (Url.sortedKeys v).

(** No key is bound to an empty list of values. *)
Definition wfValues (v : Url.Values) : Prop :=
  forall k l, v !! k = Some l -> l <> [].

(** The names of the streams of a file list, in order. *)
Definition streamIds (files : list FileField) : list nat :=
  omap (fun f => rc_id <$> FileContent f) files.

(** A file whose stream is copied and closed without error. *)
Definition healthy (f : FileField) : Prop :=
  exists c, FileContent f = Some c /\ rc_readErr c = None /\ rc_closeErr c = None.

(** The values a list of fields gives for one key, in declaration order. *)
Definition valuesOf (k : string) (fields : list (string * string)) : list string :=
  (filter (fun kv => kv.1 = k) fields).*2.

(** The outer loop of [prepareURLWithStruct]: every value of every visited
    key is added. *)
Definition addGroups (q : Url.Values) (entries : list (string * list string)) : Url.Values :=
  foldl (fun q kvs => foldl (fun q v => Url.Add q kvs.1 v) q kvs.2) q entries.

(* ===================================================================== *)
(** * Inputs of the concrete runs *)
(* ===================================================================== *)

Definition world0 : World MapJar :=
  mkWorld (<[7 := mkHttpClient (Some 1) 0]> ∅) (<[1 := ∅]> (<[2 := ∅]> ∅)) [].

Definition acceptAny : gmap string string := <["Accept" := "*/*"]> ∅.

Definition argsShortAuth : RequestArguments :=
  mkRequestArguments (Some 7) (Some acceptAny) None (Some (<["a" := "1"]> ∅)) None
    (Some []) None None None None None 0 0.

Definition argsBadMethod : RequestArguments :=
  mkRequestArguments (Some 7) (Some acceptAny) None None None None None None None
    None None 0 0.

Definition brokenStream : ReadCloser :=
  mkReadCloser 1 "partial" (Some (ErrIO "read failed")) None.

Definition goodStream : ReadCloser := mkReadCloser 2 "content" None None.

Definition twoFiles : list FileField :=
  [mkFileField "a.txt" "first" (Some brokenStream);
   mkFileField "b.txt" "second" (Some goodStream)].

Definition argsExplicitJar : RequestArguments :=
  mkRequestArguments (Some 7) None None None None None None (Some 2) None None None 0 0.

Definition explicitPlain : gmap string string := <["Content-Type" := "text/plain"]> ∅.

Definition argsJsonExplicit : RequestArguments :=
  mkRequestArguments (Some 7) (Some explicitPlain) None None None None None None
    (Some (JsonString "{}")) None None 0 0.

Definition argsColonUser : RequestArguments :=
  mkRequestArguments (Some 7) (Some acceptAny) None None None (Some ["a:b"; "c"])
    None None None None None 0 0.

Definition argsAladdin : RequestArguments :=
  mkRequestArguments (Some 7) (Some acceptAny) None None None
    (Some ["Aladdin"; "open:sesame"]) None None None None None 0 0.

Definition paramsAC : gmap string string := <["a" := "c"]> ∅.

Definition paramsTest : gmap string string := <["b" := "b"]> (<["a" := "c"]> ∅).

Definition structA2 : Query.Object := Query.Struct [("a", "2"); ("a", "3")].

Definition argsBodyAndJson : RequestArguments :=
  mkRequestArguments (Some 7) (Some acceptAny) (Some (StringsReader "raw")) None None
    None None None (Some (JsonString "{}")) (Some paramsAC) None 0 0.

(** A URL with a line feed at its end. *)
Definition urlWithLineFeed : string := "http://example.com/" +:+ String "010" EmptyString.

Definition bareRequest : Http.Request :=
  Http.mkRequest "GET"
    (Url.mkURL "http" "" None "example.com" "/" "" false false "" "" "") ∅ None.

Definition sessionCookie : gmap string string := <["sessioncookie" := "123456789"]> ∅.

Definition argsCookieMap : RequestArguments :=
  mkRequestArguments (Some 7) None None None None None (Some sessionCookie) None None
    None None 0 0.

(* ===================================================================== *)
(** * Closed forms used by the further properties *)
(* ===================================================================== *)

(** A form as [url.Values]: every key of the data map with its one value. *)
Definition formValues (data : gmap string string) : Url.Values :=
  (fun v => [v]) <$> data.

(** The keys of a map in ascending byte order. *)
Definition keysAscending (data : gmap string string) : list string :=
  merge_sort String.le (map_to_list data).*1.

(** The text of a URL-encoded form: the escaped pairs, by ascending key,
    joined with ["&"]. *)
Definition formText (data : gmap string string) : string :=
  Url.joinAmp ((fun k => Url.encodePair k (default EmptyString (data !! k)))
                 <$> keysAscending data).

(** The header lines of a file part. *)
Definition fileHeaderLines (f : FileField) : string :=
  "Content-Disposition: form-data; name=" +:+ Multipart.dquote
    +:+ Multipart.escapeQuotes (FieldName f)
    +:+ Multipart.dquote +:+ "; filename=" +:+ Multipart.dquote
    +:+ Multipart.escapeQuotes (FileName f) +:+ Multipart.dquote
    +:+ Multipart.CRLF +:+ "Content-Type: application/octet-stream" +:+ Multipart.CRLF.

(** The header lines of an ordinary form field. *)
Definition fieldHeaderLines (key : string) : string :=
  "Content-Disposition: form-data; name=" +:+ Multipart.dquote
    +:+ Multipart.escapeQuotes key +:+ Multipart.dquote +:+ Multipart.CRLF.

(** The text of a sequence of parts, each given by its header lines and its
    content; [started] tells whether a part precedes them. *)
Fixpoint partsText (boundary : string) (started : bool) (parts : list (string * string))
  : string :=
  match parts with
  | [] => EmptyString
  | (headerLines, content) :: parts' =>
      (if started then Multipart.CRLF else EmptyString)
      +:+ "--" +:+ boundary +:+ Multipart.CRLF +:+ headerLines +:+ Multipart.CRLF
      +:+ content +:+ partsText boundary true parts'
  end.

(** The closing delimiter of a multipart body. *)
Definition closingText (boundary : string) : string :=
  Multipart.CRLF +:+ "--" +:+ boundary +:+ "--" +:+ Multipart.CRLF.

(** The parts of the files of a list: header lines and stream content. *)
Definition fileParts (files : list FileField) : list (string * string) :=
  omap (fun f => (fun c => (fileHeaderLines f, rc_data c)) <$> FileContent f) files.

(** The parts of the fields of a form. *)
Definition fieldParts (fields : list (string * string)) : list (string * string) :=
  (fun kv => (fieldHeaderLines kv.1, kv.2)) <$> fields.

(** The bytes a json value is sent as, when it can be sent. *)
Definition jsonBody (j : JsonValue) : option Reader :=
  match j with
  | JsonString s => Some (StringsReader s)
  | JsonBytes b => Some (BytesReader b)
  | JsonOther (b, None) => Some (BytesReader b)
  | JsonOther (_, Some _) => None
  end.

(** Some body strategy that writes a Content-Type is the active one. *)
Definition inferringStrategyActive (args : RequestArguments) : bool :=
  match Body args, Json args, Files args, Data args with
  | Some _, _, _, _ => false
  | None, None, None, None => false
  | _, _, _, _ => true
  end.

(** The files strategy is the active one. *)
Definition filesActive (args : RequestArguments) : bool :=
  match Body args, Json args, Files args with
  | None, None, Some _ => true
  | _, _, _ => false
  end.

(** No two keys of the header map, the key [Content-Type] counted among
    them, have the same canonical form. *)
Definition clashFree (h : option (gmap string string)) : bool :=
  match h with
  | Some hm =>
      let keys := (map_to_list (<["Content-Type" := EmptyString]> hm)).*1 in
      forallb (fun k1 =>
        forallb (fun k2 =>
          implb (String.eqb (Http.CanonicalMIMEHeaderKey k1) (Http.CanonicalMIMEHeaderKey k2))
                (String.eqb k1 k2)) keys) keys
  | None => true
  end.

(** The method [http.NewRequest] works with: ["GET"] for the empty string. *)
Definition effectiveMethod (method : string) : string :=
  if String.eqb method EmptyString then "GET" else method.

(* ===================================================================== *)
(** * Further inputs of the concrete runs *)
(* ===================================================================== *)

Definition dataTest : gmap string string := <["a" := "2"]> (<["b" := "2"]> ∅).

Definition paramsB : gmap string string := <["b" := "z"]> ∅.

(** The order of visit opposite to the map's own enumeration. *)
Definition reverseOrder : forall V : Type, gmap string V -> list (string * V) :=
  fun V m => reverse (map_to_list m).

Definition oneGoodFile : list FileField :=
  [mkFileField "b.txt" "second" (Some goodStream)].

Definition bearer : gmap string string :=
  <["Authorization" := "Bearer token"]> (<["Accept" := "*/*"]> ∅).

Definition argsBearer : RequestArguments :=
  mkRequestArguments (Some 7) (Some bearer) None None None (Some ["Aladdin"; "open sesame"])
    None None None None None 0 0.

Definition argsNilHeaders : RequestArguments :=
  mkRequestArguments (Some 7) None None None None None None None
    (Some (JsonString "{}")) None None 0 0.

Definition argsParams : RequestArguments :=
  mkRequestArguments (Some 7) (Some acceptAny) None (Some paramsTest) None None None None
    None None None 0 0.

Definition argsData : RequestArguments :=
  mkRequestArguments (Some 7) (Some acceptAny) None None None None None None
    None (Some dataTest) None 0 0.

Definition argsUnmarshallable : RequestArguments :=
  mkRequestArguments (Some 7) (Some acceptAny) None None None None None None
    (Some (JsonOther (EmptyString, Some (ErrMarshal "json: unsupported type: chan int"))))
    None None 0 0.


(** What [url.Parse] returns for the URLs of the concrete runs. *)
Definition simplePathURL : Url.URL :=
  Url.mkURL "http" "" None "simple.org" "/path/" "" false false "b=a" "" "".

Definition simpleA1URL : Url.URL :=
  Url.mkURL "http" "" None "simple.org" "/path" "" false false "a=1" "" "".

Definition exampleRootURL : Url.URL :=
  Url.mkURL "http" "" None "example.com" "/" "" false false "" "" "".

(** A URL written with an upper-case scheme and a space in its path. *)
Definition shoutedURL : Url.URL :=
  Url.mkURL "http" "" None "example.com" "/a b" "/a b" false false "x=1" "" "".

Definition argsParamsAC : RequestArguments :=
  mkRequestArguments (Some 7) (Some acceptAny) None (Some paramsAC) None None None None
    None None None 0 0.

Definition argsParamsAndStruct : RequestArguments :=
  mkRequestArguments (Some 7) (Some acceptAny) None (Some paramsTest) (Some structA2)
    None None None None None None 0 0.

Definition argsOneAuth : RequestArguments :=
  mkRequestArguments (Some 7) (Some acceptAny) None None None (Some ["user"]) None None
    None None None 0 0.
(* ===================================================================== *)
(** * Classes of bytes used by the properties of URLs *)
(* ===================================================================== *)

(** The bytes of a scheme. *)
Definition isSchemeByte (c : ascii) : bool := Url.isLetter c || Url.isSchemeMark c.

(** The two bytes that end the head of a URL text. *)
Definition isMark (c : ascii) : bool := Ascii.eqb c "?" || Ascii.eqb c "#".

(** The bytes [escape] can write in a mode. *)
Definition escapeWrites (mode : Url.encoding) (d : ascii) : bool :=
  negb (Url.shouldEscape d mode) || Ascii.eqb d "%" || Ascii.eqb d "+".

(** The bytes a text that [validEncoded] accepts can hold. *)
Definition validWrites (mode : Url.encoding) (c : ascii) : bool :=
  match c with
  | "!" | "$" | "&" | "'" | "(" | ")" | "*" | "+" | "," | ";" | "=" | ":"
  | "@" | "[" | "]" | "%" => true
  | _ => negb (Url.shouldEscape c mode)
  end%char.

(* ===================================================================== *)
(** * Facts about the string functions *)
(* ===================================================================== *)

Section StringFacts.

Lemma str_app_nil_r s : s +:+ EmptyString = s.
Proof. induction s as [|c s IH]; [reflexivity|]. unfold String.app in *. simpl. by rewrite IH. Qed.

Lemma str_app_cons c s t : String c s +:+ t = String c (s +:+ t).
Proof. reflexivity. Qed.

Lemma str_app_nil_l s : EmptyString +:+ s = s.
Proof. reflexivity. Qed.

Lemma str_app_assoc s t u : (s +:+ t) +:+ u = s +:+ (t +:+ u).
Proof.
  induction s as [|c s IH]; [reflexivity|]. rewrite !str_app_cons. by rewrite IH.
Qed.

Lemma substring_all s : String.substring 0 (String.length s) s = s.
Proof. induction s as [|c s IH]; simpl; [reflexivity|by rewrite IH]. Qed.

Lemma ContainsByte_false sep s :
  Strings.ContainsByte sep s = false <-> Strings.Count sep s = 0.
Proof. unfold Strings.ContainsByte. by rewrite negb_false_iff, Nat.eqb_eq. Qed.

Lemma Count_cons sep a s :
  Strings.Count sep (String a s) = (if Ascii.eqb a sep then 1 else 0) + Strings.Count sep s.
Proof. reflexivity. Qed.

Lemma Count_app sep s t :
  Strings.Count sep (s +:+ t) = Strings.Count sep s + Strings.Count sep t.
Proof.
  induction s as [|c s IH]; [reflexivity|]. rewrite str_app_cons. simpl. rewrite IH. lia.
Qed.

Lemma all_app f s t : Strings.all f (s +:+ t) = Strings.all f s && Strings.all f t.
Proof.
  induction s as [|c s IH]; [reflexivity|]. rewrite str_app_cons. simpl.
  by rewrite IH, andb_assoc.
Qed.

(** A string made of bytes that satisfy [f] holds no byte that fails it. *)
Lemma all_Count f sep s :
  Strings.all f s = true -> f sep = false -> Strings.Count sep s = 0.
Proof.
  intros Hall Hsep. induction s as [|c s IH]; [reflexivity|].
  simpl in *. apply andb_true_iff in Hall as [Hc Hs].
  destruct (Ascii.eqb_spec c sep) as [->|_]; [congruence|]. by rewrite IH.
Qed.

Lemma Cut_first sep a b :
  Strings.ContainsByte sep a = false ->
  Strings.Cut sep (a +:+ String sep b) = (a, b, true).
Proof.
  rewrite ContainsByte_false.
  induction a as [|c a IH]; simpl; intros Hc.
  - rewrite ?str_app_nil_l. simpl. by rewrite Ascii.eqb_refl.
  - rewrite ?str_app_cons. simpl.
    destruct (Ascii.eqb c sep); [discriminate|].
    rewrite IH by exact Hc. reflexivity.
Qed.

Lemma Cut_absent sep s :
  Strings.Count sep s = 0 -> Strings.Cut sep s = (s, EmptyString, false).
Proof.
  induction s as [|c s IH]; simpl; intros Hc; [reflexivity|].
  destruct (Ascii.eqb c sep); [discriminate|]. by rewrite IH.
Qed.

(** What [Cut] returns: the text before the separator is free of it, and
    the pieces make up the input. *)
Lemma Cut_spec sep s a b found :
  Strings.Cut sep s = (a, b, found) ->
  Strings.Count sep a = 0
  /\ s = (if found then a +:+ String sep b else a)
  /\ (found = false -> b = EmptyString).
Proof.
  revert a b found. induction s as [|c s IH]; simpl; intros a b found.
  - intros [= <- <- <-]. auto.
  - destruct (Ascii.eqb_spec c sep) as [->|Hne].
    + intros [= <- <- <-]. repeat split; try reflexivity. discriminate.
    + destruct (Strings.Cut sep s) as [[a' b'] f'] eqn:Hcut.
      intros [= <- <- <-].
      destruct (IH a' b' f' eq_refl) as (Hc & Hs & Hb).
      simpl. destruct (Ascii.eqb_spec c sep) as [?|_]; [contradiction|].
      repeat split; [exact Hc| |exact Hb].
      destruct f'; rewrite ?str_app_cons; by f_equal.
Qed.

Lemma Split_absent sep s : Strings.Count sep s = 0 -> Strings.Split sep s = [s].
Proof.
  induction s as [|c s IH]; simpl; intros Hc; [reflexivity|].
  destruct (Ascii.eqb c sep); [discriminate|]. by rewrite IH.
Qed.

Lemma Split_first sep a b :
  Strings.Count sep a = 0 ->
  Strings.Split sep (a +:+ String sep b) = a :: Strings.Split sep b.
Proof.
  induction a as [|c a IH]; simpl; intros Hc.
  - rewrite ?str_app_nil_l. simpl. by rewrite Ascii.eqb_refl.
  - rewrite ?str_app_cons. simpl.
    destruct (Ascii.eqb c sep); [discriminate|]. by rewrite IH.
Qed.

Lemma HasSuffixByte_app sep s c t :
  Strings.HasSuffixByte sep (s +:+ String c t) = Strings.HasSuffixByte sep (String c t).
Proof.
  induction s as [|a s IH]; [reflexivity|]. rewrite str_app_cons.
  change (Strings.HasSuffixByte sep (String a (s +:+ String c t)))
    with (match s +:+ String c t with
          | EmptyString => Ascii.eqb a sep
          | _ => Strings.HasSuffixByte sep (s +:+ String c t)
          end).
  destruct (s +:+ String c t) eqn:Hs; [|exact IH].
  destruct s; discriminate.
Qed.

Lemma HasSuffixByte_Count sep s :
  Strings.HasSuffixByte sep s = true -> Strings.Count sep s <> 0.
Proof.
  induction s as [|a s IH]; [discriminate|].
  destruct s as [|b s].
  - simpl. intros ->. lia.
  - intros Hs. change (Strings.HasSuffixByte sep (String a (String b s)))
      with (Strings.HasSuffixByte sep (String b s)) in Hs.
    apply IH in Hs. simpl in *. lia.
Qed.

Lemma prefix_refl s : String.prefix s s = true.
Proof.
  induction s as [|c s IH]; [reflexivity|]. simpl.
  destruct (ascii_dec c c); [exact IH|contradiction].
Qed.

Lemma ReplaceAll_go_skip old new s :
  Strings.ReplaceAll_go old new (String.length s) s = EmptyString.
Proof. induction s as [|c s IH]; [reflexivity|exact IH]. Qed.

(** Replacing [old] in a text that ends with [old] and has its first byte
    nowhere before: only that occurrence goes. *)
Lemma ReplaceAll_suffix c old' new s :
  Strings.Count c s = 0 ->
  Strings.ReplaceAll (s +:+ String c old') (String c old') new = s +:+ new.
Proof.
  unfold Strings.ReplaceAll. induction s as [|a s IH]; intros Hc.
  - rewrite !str_app_nil_l.
    change (Strings.ReplaceAll_go (String c old') new 0 (String c old'))
      with (if String.prefix (String c old') (String c old')
            then new +:+ Strings.ReplaceAll_go (String c old') new
                           (String.length (String c old') - 1) old'
            else String c (Strings.ReplaceAll_go (String c old') new 0 old')).
    rewrite prefix_refl.
    replace (String.length (String c old') - 1) with (String.length old')
      by (simpl; lia).
    by rewrite ReplaceAll_go_skip, str_app_nil_r.
  - simpl in Hc. destruct (Ascii.eqb_spec a c) as [->|Hne]; [discriminate|].
    rewrite !str_app_cons.
    change (Strings.ReplaceAll_go (String c old') new 0 (String a (s +:+ String c old')))
      with (if String.prefix (String c old') (String a (s +:+ String c old'))
            then new +:+ Strings.ReplaceAll_go (String c old') new
                           (String.length (String c old') - 1) (s +:+ String c old')
            else String a (Strings.ReplaceAll_go (String c old') new 0
                             (s +:+ String c old'))).
    simpl String.prefix. destruct (ascii_dec c a) as [->|_]; [contradiction|].
    by rewrite IH.
Qed.

(** Replacing [old] in a text that does not hold its first byte changes
    nothing. *)
Lemma ReplaceAll_absent c old' new s :
  Strings.Count c s = 0 ->
  Strings.ReplaceAll s (String c old') new = s.
Proof.
  unfold Strings.ReplaceAll. induction s as [|a s IH]; intros Hc; [reflexivity|].
  simpl in Hc. destruct (Ascii.eqb_spec a c) as [->|Hne]; [discriminate|].
  change (Strings.ReplaceAll_go (String c old') new 0 (String a s))
    with (if String.prefix (String c old') (String a s)
          then new +:+ Strings.ReplaceAll_go (String c old') new
                         (String.length (String c old') - 1) s
          else String a (Strings.ReplaceAll_go (String c old') new 0 s)).
  simpl String.prefix. destruct (ascii_dec c a) as [->|_]; [contradiction|].
  by rewrite IH.
Qed.

End StringFacts.

(* ===================================================================== *)
(** * Properties of the URL stage and of the auth step *)
(* ===================================================================== *)

Section StageFacts.

Variable order : forall V : Type, gmap string V -> list (string * V).
Variable boundary : string.
Context {J : Type} `{CookieJarOps J}.

Lemma resolveURL_params reqUrl args :
  lenMap (Params args) <> 0 ->
  resolveURL order reqUrl args = prepareURL order reqUrl (Params args).
Proof.
  intros Hlen. unfold resolveURL.
  destruct (Nat.eqb_spec (lenMap (Params args)) 0) as [E|_]; [contradiction|reflexivity].
Qed.

Lemma resolveURL_object reqUrl args obj :
  lenMap (Params args) = 0 -> ObjectParam args = Some obj ->
  resolveURL order reqUrl args = prepareURLWithStruct order reqUrl obj.
Proof. intros Hlen Hobj. unfold resolveURL. rewrite Hlen, Hobj. reflexivity. Qed.

Lemma resolveURL_neither reqUrl args :
  lenMap (Params args) = 0 -> ObjectParam args = None ->
  resolveURL order reqUrl args = (reqUrl, None).
Proof. intros Hlen Hobj. unfold resolveURL. rewrite Hlen, Hobj. reflexivity. Qed.

Lemma applyAuth_short a req :
  length a < 2 ->
  applyAuth (Some a) req = Panic (IndexOutOfRange (length a) (length a)).
Proof.
  destruct a as [|x [|y a]]; simpl; intros Hl; try reflexivity. lia.
Qed.

Lemma applyAuth_no_index_panic auth req i n :
  match auth with Some a => 2 <= length a | None => True end ->
  applyAuth auth req <> Panic (IndexOutOfRange i n).
Proof.
  destruct auth as [a|]; simpl; [|discriminate].
  destruct a as [|x [|y a]]; simpl; intros Hl; try lia.
  destruct req; discriminate.
Qed.

Lemma applyHeaders_no_index_panic entries req i n :
  applyHeaders entries req <> Panic (IndexOutOfRange i n).
Proof.
  revert req. induction entries as [|[k v] entries IH]; intros req; simpl.
  - discriminate.
  - destruct req; [apply IH|discriminate].
Qed.

Lemma prepareCookies_no_index_panic args req (w : World J) i n :
  prepareCookies order args req w <> Panic (IndexOutOfRange i n).
Proof.
  unfold prepareCookies.
  repeat (match goal with
          | |- context [match ?x with _ => _ end] => destruct x
          end; try discriminate).
Qed.

Lemma filesLoop_no_index_panic files writer log i n :
  filesLoop files writer log <> Panic (IndexOutOfRange i n).
Proof.
  revert writer log. induction files as [|f files IH]; intros writer log; simpl.
  - discriminate.
  - destruct (FileContent f) as [c|]; [|discriminate].
    unfold io_Copy; simpl.
    destruct (rc_readErr c); [discriminate|].
    destruct (rc_closeErr c); [discriminate|apply IH].
Qed.

Lemma prepareBody_no_index_panic args log i n :
  prepareBody order boundary args log <> Panic (IndexOutOfRange i n).
Proof.
  unfold prepareBody.
  destruct (Body args); [discriminate|].
  destruct (Json args) as [j|].
  { destruct (Headers args); simpl; [|discriminate].
    destruct (prepareJsonBody j); discriminate. }
  destruct (Files args) as [fs|].
  { unfold prepareFilesBody.
    pose proof (filesLoop_no_index_panic fs (Multipart.NewWriter boundary) log i n) as Hf.
    destruct (filesLoop fs (Multipart.NewWriter boundary) log) as [[l [wr|e]]|p]; simpl.
    - destruct (dataLoop _ _); simpl; destruct (Headers args); simpl; discriminate.
    - destruct (Headers args); simpl; discriminate.
    - intros [= ->]. by apply Hf. }
  destruct (Data args); [|discriminate].
  destruct (Headers args); simpl; discriminate.
Qed.

Lemma short_auth_panics method reqUrl args (w : World J) a u b :
  Auth args = Some a ->
  length a < 2 ->
  resolveURL order reqUrl args = (u, None) ->
  prepareBody order boundary args (closed w) = Ret b ->
  br_err b = None ->
  prepareRequest order boundary method reqUrl args w
  = Panic (IndexOutOfRange (length a) (length a)).
Proof.
  intros Ha Hl Hu Hb He. unfold prepareRequest.
  rewrite Hu, Hb. simpl. rewrite He.
  destruct (Http.NewRequest method u (br_body b)) as [req err].
  rewrite Ha, applyAuth_short by assumption. reflexivity.
Qed.

Lemma long_auth_no_index_panic method reqUrl args (w : World J) i n :
  match Auth args with Some a => 2 <= length a | None => True end ->
  prepareRequest order boundary method reqUrl args w <> Panic (IndexOutOfRange i n).
Proof.
  intros Ha. unfold prepareRequest.
  destruct (resolveURL order reqUrl args) as [u [e|]]; [discriminate|].
  pose proof (prepareBody_no_index_panic args (closed w) i n) as Hb.
  destruct (prepareBody order boundary args (closed w)) as [b|p]; simpl;
    [|intros [= ->]; by apply Hb].
  destruct (br_err b); [discriminate|].
  destruct (Http.NewRequest method u (br_body b)) as [req err].
  pose proof (applyAuth_no_index_panic (Auth args) req i n Ha) as H1.
  destruct (applyAuth (Auth args) req) as [req1|p]; simpl;
    [|intros [= ->]; by apply H1].
  pose proof (applyHeaders_no_index_panic (rangeOf order (br_headers b)) req1 i n) as H2.
  destruct (applyHeaders _ req1) as [req2|p]; simpl; [|intros [= ->]; by apply H2].
  match goal with
  | |- context [prepareCookies order args req2 ?w'] =>
      pose proof (prepareCookies_no_index_panic args req2 w' i n) as H3;
      destruct (prepareCookies order args req2 w') as [w2|p]; simpl
  end; [discriminate|intros [= ->]; by apply H3].
Qed.

Lemma early_url_error method reqUrl args (w : World J) u e :
  resolveURL order reqUrl args = (u, Some e) ->
  prepareRequest order boundary method reqUrl args w
  = Ret (mkPrepared w (Headers args) None (Some e)).
Proof. intros Hu. unfold prepareRequest. by rewrite Hu. Qed.

Lemma early_body_error method reqUrl args (w : World J) u b e :
  resolveURL order reqUrl args = (u, None) ->
  prepareBody order boundary args (closed w) = Ret b ->
  br_err b = Some e ->
  prepareRequest order boundary method reqUrl args w
  = Ret (mkPrepared (mkWorld (clients w) (jars w) (br_log b)) (br_headers b) None
           (Some (Errorf "prepareRequest error" e))).
Proof. intros Hu Hb He. unfold prepareRequest. rewrite Hu, Hb. simpl. by rewrite He. Qed.

Lemma prepareURL_parse_error originUrl params e :
  lenMap params <> 0 ->
  Url.Parse originUrl = (None, Some e) ->
  prepareURL order originUrl params = (EmptyString, Some (Errorf "prepareURL error" e)).
Proof.
  intros Hlen Hparse. unfold prepareURL.
  destruct (Nat.eqb_spec (lenMap params) 0) as [Hz|_]; [contradiction|].
  by rewrite Hparse.
Qed.

(** C10, as amended.  (1) When the URL stage (on a URL with a plain host)
    and the body stage complete without error and [Auth] is a non-nil slice
    with fewer than two elements, [prepareRequest] panics with an index out
    of range (whether or not the transport-level request could be built)
    instead of returning an error.  (2) An index-out-of-range panic of
    [prepareRequest] occurs only for such an [Auth]: with [Auth] nil or of
    length at least two there is none.  (3) When an earlier stage fails,
    its error is returned before [Auth] is read, whatever [Auth] holds: the
    error of the URL stage as it is, in particular the wrapped error of
    [url.Parse] when parameters are to be merged into a URL that does not
    parse, and the error of the body stage wrapped. *)
Theorem auth_index_panic method reqUrl args (w : World J) :
  (forall u b a,
     Url.portable reqUrl = true ->
     resolveURL order reqUrl args = (u, None) ->
     prepareBody order boundary args (closed w) = Ret b ->
     br_err b = None ->
     Auth args = Some a -> length a < 2 ->
     prepareRequest order boundary method reqUrl args w
     = Panic (IndexOutOfRange (length a) (length a)))
  /\ ((exists i n, prepareRequest order boundary method reqUrl args w
                   = Panic (IndexOutOfRange i n)) ->
      exists a, Auth args = Some a /\ length a < 2)
  /\ (forall u e,
        resolveURL order reqUrl args = (u, Some e) ->
        prepareRequest order boundary method reqUrl args w
        = Ret (mkPrepared w (Headers args) None (Some e)))
  /\ (forall e,
        lenMap (Params args) <> 0 ->
        Url.Parse reqUrl = (None, Some e) ->
        prepareRequest order boundary method reqUrl args w
        = Ret (mkPrepared w (Headers args) None (Some (Errorf "prepareURL error" e))))
  /\ (forall u b e,
        Url.portable reqUrl = true ->
        resolveURL order reqUrl args = (u, None) ->
        prepareBody order boundary args (closed w) = Ret b ->
        br_err b = Some e ->
        prepareRequest order boundary method reqUrl args w
        = Ret (mkPrepared (mkWorld (clients w) (jars w) (br_log b)) (br_headers b) None
                 (Some (Errorf "prepareRequest error" e)))).
Proof.
  split; [|split; [|split; [|split]]].
  - intros u b a _ Hu Hb He Ha Hl. by eapply short_auth_panics.
  - intros (i & n & Hp).
    destruct (Auth args) as [a|] eqn:Ha.
    + exists a. split; [reflexivity|].
      destruct (Nat.lt_ge_cases (length a) 2) as [Hlt|Hge]; [assumption|].
      exfalso. eapply (long_auth_no_index_panic method reqUrl args w i n); [|exact Hp].
      by rewrite Ha.
    + exfalso. eapply (long_auth_no_index_panic method reqUrl args w i n); [|exact Hp].
      by rewrite Ha.
  - intros u e Hu. by eapply early_url_error.
  - intros e Hlen Hparse. apply (early_url_error _ _ _ _ EmptyString).
    rewrite resolveURL_params by exact Hlen. by apply prepareURL_parse_error.
  - intros u b e _ Hu Hb He. by eapply early_body_error.
Qed.

End StageFacts.

(* ===================================================================== *)
(** * Headers written onto the request *)
(* ===================================================================== *)

Section HeaderFacts.

Lemma setAll_app h l1 l2 : setAll h (l1 ++ l2) = setAll (setAll h l1) l2.
Proof. unfold setAll. by rewrite foldl_app. Qed.

Lemma setAll_untouched K entries : forall h,
  Forall (fun kv => Http.CanonicalMIMEHeaderKey kv.1 <> K) entries ->
  setAll h entries !! K = h !! K.
Proof.
  induction entries as [|[k v] entries IH]; intros h Hall; [reflexivity|].
  inversion Hall as [|? ? Hk Hrest]; subst. simpl in *.
  rewrite IH by assumption. unfold Http.Header_Set.
  by rewrite lookup_insert_ne.
Qed.

Lemma setAll_last K k v l1 l2 h :
  Http.CanonicalMIMEHeaderKey k = K ->
  Forall (fun kv => Http.CanonicalMIMEHeaderKey kv.1 <> K) l2 ->
  setAll h (l1 ++ (k, v) :: l2) !! K = Some [v].
Proof.
  intros Hk Hl2. rewrite setAll_app. simpl.
  rewrite setAll_untouched by assumption.
  unfold Http.Header_Set. simpl. rewrite Hk. apply lookup_insert_eq.
Qed.

Lemma hasCanonicalKey_false hm K :
  hasCanonicalKey (Some hm) K = false ->
  forall k v, hm !! k = Some v -> Http.CanonicalMIMEHeaderKey k <> K.
Proof.
  unfold hasCanonicalKey. intros Hex k v Hkv Hc.
  apply not_true_iff_false in Hex. apply Hex.
  apply existsb_exists. exists (k, v). split.
  - apply list_elem_of_In. by apply elem_of_map_to_list.
  - simpl. by apply String.eqb_eq.
Qed.

(** Entries visited in any order: a canonical key no entry maps to is left
    as it was. *)
Lemma setAll_perm_untouched K hm entries h :
  entries ≡ₚ map_to_list hm ->
  hasCanonicalKey (Some hm) K = false ->
  setAll h entries !! K = h !! K.
Proof.
  intros Hperm Hno. apply setAll_untouched.
  apply Forall_forall. intros [k v] Hin. simpl.
  rewrite Hperm in Hin. apply elem_of_map_to_list in Hin.
  by eapply hasCanonicalKey_false.
Qed.

(** Entries visited in any order: when exactly one key of the map has
    canonical form [K], its value is what the request ends up with. *)
Lemma setAll_perm_single K hm entries h k v :
  entries ≡ₚ map_to_list hm ->
  hm !! k = Some v ->
  Http.CanonicalMIMEHeaderKey k = K ->
  hasCanonicalKey (Some (delete k hm)) K = false ->
  setAll h entries !! K = Some [v].
Proof.
  intros Hperm Hkv Hk Hno.
  assert (Hin : (k, v) ∈ entries).
  { rewrite Hperm. by apply elem_of_map_to_list. }
  apply list_elem_of_split in Hin as (l1 & l2 & ->).
  apply setAll_last; [assumption|].
  assert (Hnd : NoDup (fst <$> (l1 ++ (k, v) :: l2))).
  { rewrite Hperm. apply NoDup_fst_map_to_list. }
  rewrite fmap_app, fmap_cons in Hnd. simpl in Hnd.
  apply NoDup_app in Hnd as (_ & _ & Hnd).
  apply NoDup_cons in Hnd as [Hnotin _].
  apply Forall_forall. intros [k' v'] Hin'. simpl.
  assert (k' <> k).
  { intros ->. apply Hnotin. apply list_elem_of_fmap. by exists (k, v'). }
  assert ((k', v') ∈ map_to_list hm) as Hm.
  { rewrite <- Hperm. apply elem_of_app. right. by apply list_elem_of_further. }
  apply elem_of_map_to_list in Hm.
  eapply (hasCanonicalKey_false (delete k hm)); [exact Hno|].
  rewrite lookup_delete_ne by done. exact Hm.
Qed.

Lemma hasCanonicalKey_insert hm k v K :
  hasCanonicalKey (Some hm) K = false ->
  hasCanonicalKey (Some (delete k (<[k := v]> hm))) K = false.
Proof.
  intros Hno. apply not_true_iff_false. intros Hex.
  unfold hasCanonicalKey in Hex. apply existsb_exists in Hex as ([k' v'] & Hin & Hc).
  apply list_elem_of_In, elem_of_map_to_list in Hin. simpl in Hc.
  apply String.eqb_eq in Hc.
  destruct (decide (k' = k)) as [->|Hne].
  - by rewrite lookup_delete_eq in Hin.
  - rewrite lookup_delete_ne, lookup_insert_ne in Hin by done.
    by eapply hasCanonicalKey_false.
Qed.

End HeaderFacts.

(* ===================================================================== *)
(** * The assembled request *)
(* ===================================================================== *)

Section PipelineFacts.

Variable order : forall V : Type, gmap string V -> list (string * V).
Hypothesis order_perm : forall (V : Type) (m : gmap string V), order V m ≡ₚ map_to_list m.
Variable boundary : string.
Context {J : Type} `{CookieJarOps J}.

Lemma NewRequest_inv method u body r0 e :
  Http.NewRequest method u body = (Some r0, e) ->
  e = None /\ Http.Header_ r0 = ∅ /\ Http.Body_ r0 = body
  /\ exists url, Url.Parse u = (Some url, None) /\ Http.URL r0 = Http.normalizeHost url.
Proof.
  unfold Http.NewRequest.
  destruct (negb _); [discriminate|].
  destruct (Url.Parse u) as [[url|] [e'|]]; try discriminate.
  intros [= <- <-]. simpl. repeat split. by exists url.
Qed.

Lemma applyAuth_inv auth req r1 :
  applyAuth auth req = Ret (Some r1) ->
  exists r0, req = Some r0
    /\ ((auth = None /\ r1 = r0)
        \/ exists username password rest,
             auth = Some (username :: password :: rest)
             /\ r1 = Http.SetBasicAuth r0 username password).
Proof.
  destruct auth as [a|]; simpl.
  - destruct a as [|x [|y a]]; simpl; try discriminate.
    destruct req as [r0|]; [|discriminate].
    intros [= <-]. exists r0. split; [reflexivity|]. right. by exists x, y, a.
  - intros [= ->]. exists r1. auto.
Qed.

Lemma applyHeaders_Some entries : forall r,
  applyHeaders entries (Some r)
  = Ret (Some (Http.mkRequest (Http.Method r) (Http.URL r)
                 (setAll (Http.Header_ r) entries) (Http.Body_ r))).
Proof.
  induction entries as [|[k v] entries IH]; intros r; simpl.
  - by destruct r.
  - by rewrite IH.
Qed.

Lemma applyHeaders_inv entries req r :
  applyHeaders entries req = Ret (Some r) ->
  exists r1, req = Some r1
    /\ r = Http.mkRequest (Http.Method r1) (Http.URL r1)
             (setAll (Http.Header_ r1) entries) (Http.Body_ r1).
Proof.
  destruct req as [r1|].
  - rewrite applyHeaders_Some. intros [= <-]. by exists r1.
  - destruct entries as [|[k v] entries]; simpl; discriminate.
Qed.

(** How a request that [prepareRequest] returns was put together. *)
Lemma prepareRequest_Some method reqUrl args (w : World J) p r :
  prepareRequest order boundary method reqUrl args w = Ret p ->
  p_req p = Some r ->
  exists u b r0 r1,
    resolveURL order reqUrl args = (u, None)
    /\ prepareBody order boundary args (closed w) = Ret b
    /\ br_err b = None
    /\ Http.NewRequest method u (br_body b) = (Some r0, None)
    /\ applyAuth (Auth args) (Some r0) = Ret (Some r1)
    /\ r = Http.mkRequest (Http.Method r1) (Http.URL r1)
             (setAll (Http.Header_ r1) (rangeOf order (br_headers b)))
             (Http.Body_ r1)
    /\ p_headers p = br_headers b
    /\ p_err p = None.
Proof.
  unfold prepareRequest. intros Hp Hr.
  destruct (resolveURL order reqUrl args) as [u [e|]].
  { injection Hp as <-. discriminate. }
  destruct (prepareBody order boundary args (closed w)) as [b|pn]; [|discriminate].
  simpl in Hp.
  destruct (br_err b) eqn:Hberr.
  { injection Hp as <-. discriminate. }
  destruct (Http.NewRequest method u (br_body b)) as [req err] eqn:Hnew.
  destruct (applyAuth (Auth args) req) as [req1|pn] eqn:Hauth; [|discriminate].
  simpl in Hp.
  destruct (applyHeaders (rangeOf order (br_headers b)) req1) as [req2|pn] eqn:Hhdr;
    [|discriminate].
  simpl in Hp.
  match type of Hp with
  | context [prepareCookies order args req2 ?w'] =>
      destruct (prepareCookies order args req2 w') as [w2|pn]; [|discriminate]
  end.
  simpl in Hp. injection Hp as <-. simpl in Hr. subst req2.
  apply applyHeaders_inv in Hhdr as (r1 & -> & Hr1).
  pose proof Hauth as Hauth'.
  apply applyAuth_inv in Hauth' as (r0 & -> & _).
  pose proof Hnew as Hnew'.
  apply NewRequest_inv in Hnew' as (-> & _).
  exists u, b, r0, r1. simpl. auto 10.
Qed.

Lemma canonical_authorization :
  Http.CanonicalMIMEHeaderKey "Authorization" = "Authorization".
Proof. reflexivity. Qed.

(** The auth step leaves the Content-Type of a fresh request unset. *)
Lemma auth_keeps_content_type auth r0 r1 :
  Http.Header_ r0 = ∅ ->
  applyAuth auth (Some r0) = Ret (Some r1) ->
  Http.Header_ r1 !! "Content-Type" = None.
Proof.
  intros Hempty Hauth.
  apply applyAuth_inv in Hauth as (r0' & [= <-] & [[_ ->]|(x & y & rest & _ & ->)]).
  - by rewrite Hempty.
  - simpl. unfold Http.Header_Set. rewrite canonical_authorization, Hempty.
    by rewrite lookup_insert_ne.
Qed.

Lemma filesLoop_boundary files : forall writer log log' writer',
  filesLoop files writer log = Ret (log', inl writer') ->
  Multipart.boundary writer' = Multipart.boundary writer.
Proof.
  induction files as [|f files IH]; intros writer log log' writer'; simpl.
  - by intros [= <- <-].
  - destruct (FileContent f) as [c|]; [|discriminate].
    unfold io_Copy; simpl.
    destruct (rc_readErr c); [discriminate|].
    destruct (rc_closeErr c); [discriminate|].
    intros Hloop. apply IH in Hloop. exact Hloop.
Qed.

Lemma dataLoop_boundary data : forall writer writer',
  dataLoop data writer = inl writer' ->
  Multipart.boundary writer' = Multipart.boundary writer.
Proof.
  induction data as [|[k v] data IH]; intros writer writer'; simpl.
  - by intros [= <-].
  - intros Hloop. apply IH in Hloop. exact Hloop.
Qed.

(** A multipart body that was encoded carries the writer's boundary type. *)
Lemma prepareFilesBody_contentType files data log log' body ct :
  prepareFilesBody order boundary files data log = Ret (log', (body, ct, None)) ->
  ct = Multipart.FormDataContentType (Multipart.NewWriter boundary).
Proof.
  unfold prepareFilesBody.
  destruct (filesLoop files (Multipart.NewWriter boundary) log)
    as [[l [wr|e]]|pn] eqn:Hloop; simpl; try discriminate.
  destruct (dataLoop (rangeOf order data) wr) as [wr'|e] eqn:Hdata; [|discriminate].
  intros [= _ _ <-].
  apply filesLoop_boundary in Hloop. apply dataLoop_boundary in Hdata.
  unfold Multipart.FormDataContentType. simpl in *. by rewrite Hdata, Hloop.
Qed.

(** After a successful body stage the header loop writes the inferred
    Content-Type, and nothing else under that key, when the caller's
    header map had no Content-Type of its own. *)
Lemma body_stage_content_type args log b h :
  hasCanonicalKey (Headers args) "Content-Type" = false ->
  prepareBody order boundary args log = Ret b ->
  br_err b = None ->
  h !! "Content-Type" = None ->
  setAll h (rangeOf order (br_headers b)) !! "Content-Type" = inferredContentType boundary args.
Proof.
  intros Hno Hb Herr Hh. unfold prepareBody in Hb. unfold inferredContentType.
  assert (Hkeep : setAll h (rangeOf order (Headers args)) !! "Content-Type" = None).
  { destruct (Headers args) as [hm|]; simpl; [|exact Hh].
    rewrite (setAll_perm_untouched _ hm); auto. }
  destruct (Body args) as [body|].
  { injection Hb as <-. exact Hkeep. }
  destruct (Json args) as [j|].
  { destruct (Headers args) as [hm|]; simpl in Hb; [|discriminate].
    destruct (prepareJsonBody j) as [bd e]. injection Hb as <-. simpl.
    eapply setAll_perm_single; [apply order_perm|apply lookup_insert_eq|reflexivity|].
    by apply hasCanonicalKey_insert. }
  destruct (Files args) as [fs|].
  { destruct (prepareFilesBody order boundary fs (Data args) log)
      as [[l [[bd ct] e]]|pn] eqn:Hfiles; simpl in Hb; [|discriminate].
    destruct (Headers args) as [hm|]; simpl in Hb; [|discriminate].
    injection Hb as <-. simpl in *. subst e.
    apply prepareFilesBody_contentType in Hfiles as ->.
    eapply setAll_perm_single; [apply order_perm|apply lookup_insert_eq|reflexivity|].
    by apply hasCanonicalKey_insert. }
  destruct (Data args) as [d|].
  { destruct (Headers args) as [hm|]; simpl in Hb; [|discriminate].
    injection Hb as <-. simpl.
    eapply setAll_perm_single; [apply order_perm|apply lookup_insert_eq|reflexivity|].
    by apply hasCanonicalKey_insert. }
  injection Hb as <-. exact Hkeep.
Qed.

(** C1. Body resolution is first match in the order explicit body, json,
    files, data, none.  An explicit body is returned as it is and leaves the
    header map alone; with no explicit body a json value alone decides; then
    a file list (with the data map as form fields); then the data map; and
    with none of them there is no body and no header is written.  In each
    case only the winning strategy writes a Content-Type.  On the assembled
    request, when the caller's header map has no Content-Type entry, the
    Content-Type is the one of the winning strategy (none for an explicit
    body or for no body), and an explicit body is the request's body. *)
Theorem body_strategy_first_match args log :
  (forall body, Body args = Some body ->
     prepareBody order boundary args log
     = Ret (mkBodyResult (Headers args) log (Some body) None))
  /\ (forall json, Body args = None -> Json args = Some json ->
        prepareBody order boundary args log
        = (headers ← assign (Headers args) "Content-Type" defaultJsonType;
           Ret (mkBodyResult headers log (prepareJsonBody json).1 (prepareJsonBody json).2)))
  /\ (forall files, Body args = None -> Json args = None -> Files args = Some files ->
        prepareBody order boundary args log
        = (r ← prepareFilesBody order boundary files (Data args) log;
           headers ← assign (Headers args) "Content-type" r.2.1.2;
           Ret (mkBodyResult headers r.1 r.2.1.1 r.2.2)))
  /\ (forall data, Body args = None -> Json args = None -> Files args = None ->
        Data args = Some data ->
        prepareBody order boundary args log
        = (headers ← assign (Headers args) "Content-Type" defaultContentType;
           Ret (mkBodyResult headers log
                  (Some (StringsReader (encodeParams order (Some data)))) None)))
  /\ (Body args = None -> Json args = None -> Files args = None -> Data args = None ->
      prepareBody order boundary args log
      = Ret (mkBodyResult (Headers args) log None None))
  /\ (forall method reqUrl (w : World J) p r,
        hasCanonicalKey (Headers args) "Content-Type" = false ->
        prepareRequest order boundary method reqUrl args w = Ret p ->
        p_req p = Some r ->
        Http.Header_ r !! "Content-Type" = inferredContentType boundary args
        /\ (forall body, Body args = Some body -> Http.Body_ r = Some body)).
Proof.
  split; [|split; [|split; [|split; [|split]]]].
  - intros body Hb. unfold prepareBody. by rewrite Hb.
  - intros json Hb Hj. unfold prepareBody. rewrite Hb, Hj.
    destruct (Headers args); simpl; [|reflexivity].
    by destruct (prepareJsonBody json).
  - intros files Hb Hj Hf. unfold prepareBody. rewrite Hb, Hj, Hf.
    destruct (prepareFilesBody order boundary files (Data args) log)
      as [[l [[bd ct] e]]|pn]; reflexivity.
  - intros data Hb Hj Hf Hd. unfold prepareBody. rewrite Hb, Hj, Hf, Hd.
    destruct (Headers args); reflexivity.
  - intros Hb Hj Hf Hd. unfold prepareBody. by rewrite Hb, Hj, Hf, Hd.
  - intros method reqUrl w p r Hno Hp Hr.
    destruct (prepareRequest_Some _ _ _ _ _ _ Hp Hr)
      as (u & b & r0 & r1 & _ & Hbody & Herr & Hnew & Hauth & -> & _).
    simpl. apply NewRequest_inv in Hnew as (_ & Hempty & Hb0 & _). split.
    + eapply body_stage_content_type; eauto using auth_keeps_content_type.
    + intros body Hbd.
      unfold prepareBody in Hbody. rewrite Hbd in Hbody. injection Hbody as <-.
      simpl in Hb0.
      apply applyAuth_inv in Hauth as (r0' & [= <-] & [[_ ->]|(x & y & rest & _ & ->)]);
        simpl; exact Hb0.
Qed.

(** C6, as amended.  An explicit jar is stored in the jar field of the
    client the bag points to, no cookie is read or written, and the client
    keeps that jar afterwards; with no explicit jar and a cookie map, the
    client's jar receives, for the request's URL, its own cookies for that
    URL followed by the supplied ones; with neither, nothing changes. *)
Theorem prepareCookies_effect args req (w : World J) :
  (forall jar c client,
     CookieJar args = Some jar -> Client args = Some c ->
     clients w !! c = Some client ->
     prepareCookies order args req w
     = Ret (mkWorld (<[c := mkHttpClient (Some jar) (ClientTimeout client)]> (clients w))
              (jars w) (closed w)))
  /\ (forall cookieMap c client j jar r,
        CookieJar args = None -> Cookies args = Some cookieMap ->
        Client args = Some c -> clients w !! c = Some client ->
        Jar client = Some j -> jars w !! j = Some jar -> req = Some r ->
        prepareCookies order args req w
        = Ret (mkWorld (clients w)
                 (<[j := jar_SetCookies jar (Http.URL r)
                           (jar_Cookies jar (Http.URL r) ++ cookiesFromMap order cookieMap)]>
                    (jars w))
                 (closed w)))
  /\ (CookieJar args = None -> Cookies args = None ->
      prepareCookies order args req w = Ret w).
Proof.
  unfold prepareCookies. repeat split.
  - intros jar c client -> -> ->. reflexivity.
  - intros cookieMap c client j jar r -> -> -> -> -> -> ->. reflexivity.
  - intros -> ->. reflexivity.
Qed.

End PipelineFacts.

(* ===================================================================== *)
(** * Multipart encoding and the file streams *)
(* ===================================================================== *)

Section FilesFacts.

Variable order : forall V : Type, gmap string V -> list (string * V).
Variable boundary : string.

Lemma streamIds_cons f c files :
  FileContent f = Some c -> streamIds (f :: files) = rc_id c :: streamIds files.
Proof. intros Hc. unfold streamIds. simpl. by rewrite Hc. Qed.

(** When the first loop runs to its end, every stream has been closed once,
    in the order of the list. *)
Lemma filesLoop_success_closes_all files : forall writer log log' writer',
  filesLoop files writer log = Ret (log', inl writer') ->
  log' = log ++ streamIds files /\ length (streamIds files) = length files.
Proof.
  induction files as [|f files IH]; intros writer log log' writer'.
  - simpl. intros [= <- <-]. by rewrite app_nil_r.
  - destruct (FileContent f) as [c|] eqn:Hc; [|simpl; by rewrite Hc].
    rewrite (streamIds_cons f c files Hc). simpl. rewrite Hc.
    unfold io_Copy; simpl.
    destruct (rc_readErr c); [discriminate|].
    destruct (rc_closeErr c); [discriminate|].
    intros Hloop. apply IH in Hloop as [-> Hlen].
    split; [by rewrite <- (assoc_L (++))|by rewrite Hlen].
Qed.

Lemma prepareFilesBody_success_closes_all files data log log' body ct :
  prepareFilesBody order boundary files data log = Ret (log', (body, ct, None)) ->
  log' = log ++ streamIds files.
Proof.
  unfold prepareFilesBody.
  destruct (filesLoop files (Multipart.NewWriter boundary) log)
    as [[l [wr|e]]|pn] eqn:Hloop; simpl; try discriminate.
  destruct (dataLoop (rangeOf order data) wr) as [wr'|e]; [|discriminate].
  intros [= <- _ _]. by apply filesLoop_success_closes_all in Hloop as [-> _].
Qed.

(** When copying the stream of one file fails, the streams before it have
    been closed, and neither that stream nor any later one is. *)
Lemma filesLoop_copy_error pre f post c e : forall writer log,
  Forall healthy pre ->
  FileContent f = Some c ->
  rc_readErr c = Some e ->
  filesLoop (pre ++ f :: post) writer log = Ret (log ++ streamIds pre, inr e).
Proof.
  induction pre as [|g pre IH]; intros writer log Hpre Hc He.
  - simpl. rewrite Hc. unfold io_Copy; simpl. rewrite He. by rewrite app_nil_r.
  - inversion Hpre as [|? ? (cg & Hg & Hr & Hcl) Hrest]; subst.
    rewrite (streamIds_cons g cg pre Hg).
    simpl. rewrite Hg. unfold io_Copy; simpl. rewrite Hr, Hcl.
    rewrite IH by assumption.
    by rewrite <- (assoc_L (++)).
Qed.

End FilesFacts.

(* ===================================================================== *)
(** * An explicit Content-Type against the inferred one *)
(* ===================================================================== *)

Section ContentTypeFacts.

Variable order : forall V : Type, gmap string V -> list (string * V).
Hypothesis order_perm : forall (V : Type) (m : gmap string V), order V m ≡ₚ map_to_list m.
Variable boundary : string.
Context {J : Type} `{CookieJarOps J}.

Lemma contentTypeWrites_single hm entries k v :
  entries ≡ₚ map_to_list hm ->
  hm !! k = Some v ->
  Http.CanonicalMIMEHeaderKey k = "Content-Type" ->
  hasCanonicalKey (Some (delete k hm)) "Content-Type" = false ->
  contentTypeWrites entries = 1.
Proof.
  intros Hperm Hkv Hk Hno. unfold contentTypeWrites.
  rewrite Hperm, <- (map_to_list_delete hm k v) by assumption.
  rewrite filter_cons_True by exact Hk. simpl. f_equal.
  destruct (filter _ (map_to_list (delete k hm))) as [|[k' v'] l] eqn:Hf; [reflexivity|].
  assert (Hin : (k', v') ∈ filter
            (fun kv : string * string => Http.CanonicalMIMEHeaderKey kv.1 = "Content-Type")
            (map_to_list (delete k hm))).
  { rewrite Hf. apply list_elem_of_here. }
  apply list_elem_of_filter in Hin as [Hc Hin]. apply elem_of_map_to_list in Hin.
  exfalso. by eapply (hasCanonicalKey_false (delete k hm)).
Qed.

(** The body stage with the json or the data strategy active and a header
    map at hand. *)
Lemma prepareBody_json_or_data args log hm :
  Headers args = Some hm ->
  jsonOrDataActive args = true ->
  exists inferred body err,
    inferredContentType boundary args = Some [inferred]
    /\ prepareBody order boundary args log
       = Ret (mkBodyResult (Some (<["Content-Type" := inferred]> hm)) log body err).
Proof.
  intros Hh Hactive. unfold jsonOrDataActive in Hactive.
  unfold prepareBody, inferredContentType.
  destruct (Body args); [discriminate|].
  destruct (Json args) as [j|].
  - rewrite Hh. simpl. destruct (prepareJsonBody j) as [bd e].
    by exists defaultJsonType, bd, e.
  - destruct (Files args); [discriminate|].
    destruct (Data args) as [d|]; [|discriminate].
    rewrite Hh. simpl. by eexists defaultContentType, _, _.
Qed.

(** C3, as amended.  Let the header map hold a value under the key
    [Content-Type], and no other key of that canonical form, while the json
    or the data strategy is active.  Body resolution writes the inferred
    type into that same entry, so the assembled request carries the
    inferred Content-Type and not the supplied one, and the header loop
    writes the request's Content-Type exactly once. *)
Theorem inferred_content_type_replaces_explicit
  args method reqUrl (w : World J) p r hm explicit :
  Headers args = Some hm ->
  hm !! "Content-Type" = Some explicit ->
  hasCanonicalKey (Some (delete "Content-Type" hm)) "Content-Type" = false ->
  jsonOrDataActive args = true ->
  prepareRequest order boundary method reqUrl args w = Ret p ->
  p_req p = Some r ->
  exists inferred,
    inferredContentType boundary args = Some [inferred]
    /\ p_headers p = Some (<["Content-Type" := inferred]> hm)
    /\ Http.Header_ r !! "Content-Type" = Some [inferred]
    /\ Http.Header_Get (Http.Header_ r) "Content-Type" = inferred
    /\ contentTypeWrites (rangeOf order (p_headers p)) = 1.
Proof.
  intros Hh Hexp Hno Hactive Hp Hr.
  destruct (prepareRequest_Some _ _ _ _ _ _ _ _ Hp Hr)
    as (u & b & r0 & r1 & _ & Hbody & Herr & Hnew & Hauth & -> & Hph & _).
  destruct (prepareBody_json_or_data args (closed w) hm Hh Hactive)
    as (inferred & bd & e & Hinf & Hbody').
  rewrite Hbody' in Hbody. injection Hbody as <-. simpl in *.
  exists inferred.
  assert (Hno' : hasCanonicalKey
            (Some (delete "Content-Type" (<["Content-Type" := inferred]> hm)))
            "Content-Type" = false).
  { rewrite delete_insert_eq. exact Hno. }
  assert (Hlook : setAll (Http.Header_ r1)
                    (order string (<["Content-Type" := inferred]> hm)) !! "Content-Type"
                  = Some [inferred]).
  { eapply setAll_perm_single;
      [apply order_perm|apply lookup_insert_eq|reflexivity|exact Hno']. }
  repeat split; try assumption.
  - unfold Http.Header_Get.
    change (Http.CanonicalMIMEHeaderKey "Content-Type") with "Content-Type".
    by rewrite Hlook.
  - rewrite Hph. simpl.
    eapply contentTypeWrites_single;
      [apply order_perm|apply lookup_insert_eq|reflexivity|exact Hno'].
Qed.

End ContentTypeFacts.

(* ===================================================================== *)
(** * Base64: decoding undoes encoding *)
(* ===================================================================== *)

Section Base64Facts.

Local Open Scope Z_scope.

Lemma lor_add_disjoint x b k :
  0 <= k -> 0 <= b < 2 ^ k -> x mod 2 ^ k = 0 -> Z.lor x b = x + b.
Proof.
  intros Hk Hb Hx.
  rewrite <- Z.lxor_lor, <- Z.add_nocarry_lxor; try reflexivity.
  all: apply Z.bits_inj'; intros n Hn; rewrite Z.land_spec, Z.bits_0;
    destruct (Z.lt_ge_cases n k) as [Hlt|Hge].
  all: try (rewrite <- (Z.mod_pow2_bits_low x k n), Hx, Z.bits_0 by lia; reflexivity).
  all: rewrite <- (Z.mod_small b (2 ^ k)) by lia;
    rewrite Z.mod_pow2_bits_high by lia; apply andb_false_r.
Qed.

Ltac to_arith :=
  unfold Base64.quantum;
  change 63 with (Z.ones 6); change 255 with (Z.ones 8);
  rewrite ?Z.land_ones by lia;
  rewrite ?Z.shiftr_div_pow2, ?Z.shiftl_mul_pow2 by lia;
  change (2 ^ 0) with 1; change (2 ^ 6) with 64; change (2 ^ 8) with 256;
  change (2 ^ 12) with 4096; change (2 ^ 16) with 65536; change (2 ^ 18) with 262144.

Lemma pack3 a b c :
  0 <= a < 256 -> 0 <= b < 256 -> 0 <= c < 256 ->
  Z.lor (Z.lor (Z.shiftl a 16) (Z.shiftl b 8)) c = a * 65536 + b * 256 + c.
Proof.
  intros Ha Hb Hc. to_arith.
  rewrite (lor_add_disjoint (a * 65536) (b * 256) 16) by (try apply Z.mod_divide; try (exists a); lia).
  rewrite (lor_add_disjoint _ c 8); try lia.
  change (2 ^ 8) with 256. Z.div_mod_to_equations. lia.
Qed.

Lemma quantum_arith d0 d1 d2 d3 :
  0 <= d0 < 64 -> 0 <= d1 < 64 -> 0 <= d2 < 64 -> 0 <= d3 < 64 ->
  Base64.quantum d0 d1 d2 d3 = d0 * 262144 + d1 * 4096 + d2 * 64 + d3.
Proof.
  intros H0 H1 H2 H3. to_arith.
  rewrite (lor_add_disjoint (d0 * 262144) (d1 * 4096) 18);
    [|lia|lia|change (2 ^ 18) with 262144; Z.div_mod_to_equations; lia].
  rewrite (lor_add_disjoint _ (d2 * 64) 12);
    [|lia|lia|change (2 ^ 12) with 4096; Z.div_mod_to_equations; lia].
  rewrite (lor_add_disjoint _ d3 6);
    [|lia|lia|change (2 ^ 6) with 64; Z.div_mod_to_equations; lia].
  reflexivity.
Qed.


Lemma byteZ_range a : 0 <= Base64.byteZ a < 256.
Proof.
  unfold Base64.byteZ. pose proof (nat_ascii_bounded a). lia.
Qed.

Lemma zbyte_byteZ a : Base64.zbyte (Base64.byteZ a) = a.
Proof.
  unfold Base64.zbyte. pose proof (byteZ_range a) as Hr.
  change 255 with (Z.ones 8). rewrite Z.land_ones by lia.
  rewrite Z.mod_small by (change (2 ^ 8) with 256; lia).
  unfold Base64.byteZ. rewrite Nat2Z.id. apply ascii_nat_embedding.
Qed.

Lemma alphabet_table :
  forallb (fun n => (Base64.decodeMap (Base64.encodeIdx (Z.of_nat n)) =? Z.of_nat n)
                    && negb (Ascii.eqb (Base64.encodeIdx (Z.of_nat n)) Base64.padChar))
    (seq 0 64) = true.
Proof. vm_compute. reflexivity. Qed.

Lemma alphabet_inverse d :
  0 <= d < 64 ->
  Base64.decodeMap (Base64.encodeIdx d) = d
  /\ Ascii.eqb (Base64.encodeIdx d) Base64.padChar = false.
Proof.
  intros Hd. pose proof alphabet_table as Ht.
  rewrite forallb_forall in Ht.
  specialize (Ht (Z.to_nat d)).
  rewrite Z2Nat.id in Ht by lia.
  assert (Hin : In (Z.to_nat d) (seq 0 64)) by (apply in_seq; lia).
  apply Ht in Hin. apply andb_true_iff in Hin as [H1 H2].
  split; [by apply Z.eqb_eq|by apply negb_true_iff].
Qed.

Lemma sextet_decode val sh :
  0 <= sh ->
  exists d, 0 <= d < 64 /\ d = Z.land (Z.shiftr val sh) 63
    /\ Base64.decodeMap (Base64.sextet val sh) = d
    /\ (d =? 255) = false
    /\ Ascii.eqb (Base64.sextet val sh) Base64.padChar = false.
Proof.
  intros Hsh. exists (Z.land (Z.shiftr val sh) 63).
  assert (Hr : 0 <= Z.land (Z.shiftr val sh) 63 < 64).
  { change 63 with (Z.ones 6). rewrite Z.land_ones by lia.
    change (2 ^ 6) with 64. apply Z.mod_pos_bound. lia. }
  destruct (alphabet_inverse _ Hr) as [H1 H2].
  unfold Base64.sextet. repeat split; try lia; try assumption.
Qed.

Lemma DecodeString_quad c0 c1 c2 c3 rest :
  Base64.DecodeString (String c0 (String c1 (String c2 (String c3 rest))))
  = let d0 := Base64.decodeMap c0 in
    let d1 := Base64.decodeMap c1 in
    if (d0 =? 255) || (d1 =? 255) then None
    else if Ascii.eqb c2 Base64.padChar then
      if Ascii.eqb c3 Base64.padChar && String.eqb rest EmptyString
      then Some (String (Base64.zbyte (Z.shiftr (Base64.quantum d0 d1 0 0) 16)) EmptyString)
      else None
    else
      let d2 := Base64.decodeMap c2 in
      if (d2 =? 255) then None
      else if Ascii.eqb c3 Base64.padChar then
        if String.eqb rest EmptyString
        then let val := Base64.quantum d0 d1 d2 0 in
             Some (String (Base64.zbyte (Z.shiftr val 16))
                     (String (Base64.zbyte (Z.shiftr val 8)) EmptyString))
        else None
      else
        let d3 := Base64.decodeMap c3 in
        if (d3 =? 255) then None
        else
          let val := Base64.quantum d0 d1 d2 d3 in
          match Base64.DecodeString rest with
          | Some t =>
              Some (String (Base64.zbyte (Z.shiftr val 16))
                      (String (Base64.zbyte (Z.shiftr val 8))
                         (String (Base64.zbyte (Z.shiftr val 0)) t)))
          | None => None
          end.
Proof. reflexivity. Qed.

Lemma zbyte_eq v a : Z.land v 255 = Base64.byteZ a -> Base64.zbyte v = a.
Proof.
  intros Hv. rewrite <- (zbyte_byteZ a). unfold Base64.zbyte.
  rewrite Hv. pose proof (byteZ_range a).
  f_equal. f_equal. change 255 with (Z.ones 8). rewrite Z.land_ones by lia.
  symmetry. apply Z.mod_small. change (2 ^ 8) with 256. lia.
Qed.

Ltac sextets val :=
  destruct (sextet_decode val 18) as (d0 & Hd0 & Ed0 & -> & -> & ?); [lia|];
  destruct (sextet_decode val 12) as (d1 & Hd1 & Ed1 & -> & -> & ?); [lia|];
  destruct (sextet_decode val 6) as (d2 & Hd2 & Ed2 & Hm2 & Hn2 & Hp2); [lia|];
  destruct (sextet_decode val 0) as (d3 & Hd3 & Ed3 & Hm3 & Hn3 & Hp3); [lia|].

Ltac by_arith :=
  apply zbyte_eq; to_arith; Z.div_mod_to_equations; lia.

(** Decoding undoes encoding. *)
Lemma DecodeString_EncodeToString : forall s,
  Base64.DecodeString (Base64.EncodeToString s) = Some s.
Proof.
  fix IH 1. intros [|a [|b [|c rest]]].
  - reflexivity.
  - pose proof (byteZ_range a) as Ha.
    cbn [Base64.EncodeToString]. cbv zeta. rewrite DecodeString_quad. cbv zeta.
    set (val := Z.shiftl (Base64.byteZ a) 16).
    sextets val. simpl. f_equal. f_equal.
    rewrite quantum_arith by lia. subst d0 d1 val. by_arith.
  - pose proof (byteZ_range a) as Ha. pose proof (byteZ_range b) as Hb.
    cbn [Base64.EncodeToString]. cbv zeta. rewrite DecodeString_quad. cbv zeta.
    set (val := Z.lor (Z.shiftl (Base64.byteZ a) 16) (Z.shiftl (Base64.byteZ b) 8)).
    assert (Hval : val = Base64.byteZ a * 65536 + Base64.byteZ b * 256).
    { pose proof (pack3 (Base64.byteZ a) (Base64.byteZ b) 0 Ha Hb ltac:(lia)) as Hp.
      rewrite Z.lor_0_r in Hp. subst val. rewrite Hp. lia. }
    sextets val. rewrite Hm2, Hn2, Hp2. simpl.
    rewrite quantum_arith by lia. subst d0 d1 d2. rewrite Hval.
    f_equal. f_equal; [by_arith|]. f_equal. by_arith.
  - pose proof (byteZ_range a) as Ha. pose proof (byteZ_range b) as Hb.
    pose proof (byteZ_range c) as Hc.
    cbn [Base64.EncodeToString]. cbv zeta. rewrite DecodeString_quad. cbv zeta.
    rewrite (pack3 _ _ _ Ha Hb Hc).
    set (val := Base64.byteZ a * 65536 + Base64.byteZ b * 256 + Base64.byteZ c).
    sextets val. rewrite Hm2, Hn2, Hp2, Hm3, Hn3, Hp3. simpl.
    rewrite IH. rewrite quantum_arith by lia. subst d0 d1 d2 d3 val.
    f_equal. f_equal; [by_arith|]. f_equal; [by_arith|]. f_equal. by_arith.
Qed.

End Base64Facts.

(* ===================================================================== *)
(** * Basic authentication on the assembled request *)
(* ===================================================================== *)

Section AuthFacts.

Variable order : forall V : Type, gmap string V -> list (string * V).
Hypothesis order_perm : forall (V : Type) (m : gmap string V), order V m ≡ₚ map_to_list m.
Variable boundary : string.
Context {J : Type} `{CookieJarOps J}.

Lemma parseBasicAuth_Basic x :
  Http.parseBasicAuth ("Basic " +:+ x)
  = match Base64.DecodeString x with
    | None => (EmptyString, EmptyString, false)
    | Some cs =>
        let '(username, password, ok) := Strings.Cut ":" cs in
        if ok then (username, password, true) else (EmptyString, EmptyString, false)
    end.
Proof.
  change ("Basic " +:+ x)
    with (String "B" (String "a" (String "s" (String "i" (String "c" (String " " x)))))).
  unfold Http.parseBasicAuth. simpl String.length. simpl Nat.ltb.
  simpl String.substring. rewrite Nat.sub_0_r, substring_all.
  assert (Hsub : String.substring 0 0 x = EmptyString) by (by destruct x).
  rewrite Hsub.
  assert (Hlen : (S (S (S (S (S (S (String.length x)))))) <? 6) = false)
    by (apply Nat.ltb_ge; lia).
  rewrite Hlen. reflexivity.
Qed.

(** Decoding the header that [SetBasicAuth] writes. *)
Lemma parseBasicAuth_basicAuth username password :
  Strings.ContainsByte ":" username = false ->
  Http.parseBasicAuth ("Basic " +:+ Http.basicAuth username password)
  = (username, password, true).
Proof.
  intros Hc. rewrite parseBasicAuth_Basic. unfold Http.basicAuth.
  rewrite DecodeString_EncodeToString. by rewrite Cut_first.
Qed.

Lemma hasCanonicalKey_insert_other hm k v K :
  hasCanonicalKey (Some hm) K = false ->
  Http.CanonicalMIMEHeaderKey k <> K ->
  hasCanonicalKey (Some (<[k := v]> hm)) K = false.
Proof.
  intros Hno Hk. apply not_true_iff_false. intros Hex.
  unfold hasCanonicalKey in Hex. apply existsb_exists in Hex as ([k' v'] & Hin & Hc).
  apply list_elem_of_In, elem_of_map_to_list in Hin. simpl in Hc.
  apply String.eqb_eq in Hc.
  destruct (decide (k' = k)) as [->|Hne]; [contradiction|].
  rewrite lookup_insert_ne in Hin by done.
  by eapply hasCanonicalKey_false.
Qed.

(** The body stage adds no Authorization entry to the header map. *)
Lemma body_stage_no_authorization args log b :
  hasCanonicalKey (Headers args) "Authorization" = false ->
  prepareBody order boundary args log = Ret b ->
  hasCanonicalKey (br_headers b) "Authorization" = false.
Proof.
  intros Hno Hb. unfold prepareBody in Hb.
  destruct (Body args); [by injection Hb as <-|].
  destruct (Json args) as [j|].
  { destruct (Headers args) as [hm|]; simpl in Hb; [|discriminate].
    destruct (prepareJsonBody j). injection Hb as <-. simpl.
    by apply hasCanonicalKey_insert_other. }
  destruct (Files args) as [fs|].
  { destruct (prepareFilesBody order boundary fs (Data args) log)
      as [[l [[bd ct] e]]|pn]; simpl in Hb; [|discriminate].
    destruct (Headers args) as [hm|]; simpl in Hb; [|discriminate].
    injection Hb as <-. simpl. by apply hasCanonicalKey_insert_other. }
  destruct (Data args).
  { destruct (Headers args) as [hm|]; simpl in Hb; [|discriminate].
    injection Hb as <-. simpl. by apply hasCanonicalKey_insert_other. }
  by injection Hb as <-.
Qed.

(** C9, as amended.  For every password, and every username that holds no
    [":"] (either may be empty, the password may hold [":"]), when the
    header map has no Authorization entry of its own, decoding the
    Authorization header of the assembled request gives back the username
    and the password. *)
Theorem basic_auth_round_trip
  args method reqUrl (w : World J) p r username password rest :
  Auth args = Some (username :: password :: rest) ->
  Strings.ContainsByte ":" username = false ->
  hasCanonicalKey (Headers args) "Authorization" = false ->
  prepareRequest order boundary method reqUrl args w = Ret p ->
  p_req p = Some r ->
  Http.BasicAuth r = (username, password, true).
Proof.
  intros Hauth Hcolon Hno Hp Hr.
  destruct (prepareRequest_Some _ _ _ _ _ _ _ _ Hp Hr)
    as (u & b & r0 & r1 & _ & Hbody & _ & Hnew & Happly & -> & _).
  rewrite Hauth in Happly. simpl in Happly. injection Happly as <-.
  apply NewRequest_inv in Hnew as (_ & Hempty & _).
  pose proof (body_stage_no_authorization _ _ _ Hno Hbody) as Hno'.
  unfold Http.BasicAuth, Http.Header_Get. simpl.
  change (Http.CanonicalMIMEHeaderKey "Authorization") with "Authorization".
  assert (Hlook : setAll
            (Http.Header_Set (Http.Header_ r0) "Authorization"
               ("Basic " +:+ Http.basicAuth username password))
            (rangeOf order (br_headers b)) !! "Authorization"
          = Some ["Basic " +:+ Http.basicAuth username password]).
  { destruct (br_headers b) as [hm|]; simpl.
    - rewrite (setAll_perm_untouched _ hm) by auto.
      unfold Http.Header_Set.
      change (Http.CanonicalMIMEHeaderKey "Authorization") with "Authorization".
      apply lookup_insert_eq.
    - unfold Http.Header_Set.
      change (Http.CanonicalMIMEHeaderKey "Authorization") with "Authorization".
      apply lookup_insert_eq. }
  rewrite Hlook.
  change (String.eqb ("Basic " +:+ Http.basicAuth username password) EmptyString)
    with false.
  cbv iota. by apply parseBasicAuth_basicAuth.
Qed.

End AuthFacts.

(* ===================================================================== *)
(** * Query strings: parsing undoes encoding *)
(* ===================================================================== *)

Section QueryFacts.

Lemma escape_cons c s :
  Url.QueryEscape (String c s)
  = (if Ascii.eqb c " " then String "+" EmptyString
     else if Url.shouldEscape c Url.encodeQueryComponent
          then String "%" (String (Url.upperhex (nat_of_ascii c / 16))
                             (String (Url.upperhex (nat_of_ascii c mod 16)) EmptyString))
          else String c EmptyString)
    +:+ Url.QueryEscape s.
Proof.
  unfold Url.QueryEscape. simpl Url.escape. rewrite andb_true_r.
  destruct (Ascii.eqb c " "); [reflexivity|].
  destruct (Url.shouldEscape c Url.encodeQueryComponent); reflexivity.
Qed.

(** Every byte [QueryEscape] writes is a safe byte. *)
Lemma QueryEscape_safe s : Strings.all isQuerySafe (Url.QueryEscape s) = true.
Proof.
  induction s as [|c s IH]; [reflexivity|].
  rewrite escape_cons, all_app, IH, andb_true_r.
  destruct c as [[] [] [] [] [] [] [] []]; reflexivity.
Qed.

Lemma unescape_plain c s :
  isQuerySafe c = true -> c <> "%"%char -> c <> "+"%char ->
  Url.QueryUnescape (String c s)
  = match Url.QueryUnescape s with
    | (t, None) => (String c t, None)
    | (_, Some e) => (EmptyString, Some e)
    end.
Proof.
  intros Hsafe Hp Hq. unfold Url.QueryUnescape.
  destruct c as [[] [] [] [] [] [] [] []]; try discriminate Hsafe;
    try (exfalso; by apply Hp); try (exfalso; by apply Hq); reflexivity.
Qed.

Lemma unescape_plus s :
  Url.QueryUnescape (String "+" s)
  = match Url.QueryUnescape s with
    | (t, None) => (String " " t, None)
    | (_, Some e) => (EmptyString, Some e)
    end.
Proof. reflexivity. Qed.

Lemma unescape_percent h l s :
  Url.QueryUnescape (String "%" (String h (String l s)))
  = if Url.ishex h && Url.ishex l then
      match Url.QueryUnescape s with
      | (t, None) => (String (ascii_of_nat (Url.unhex h * 16 + Url.unhex l)) t, None)
      | (_, Some e) => (EmptyString, Some e)
      end
    else (EmptyString, Some (ErrEscape (String "%" (String h (String l EmptyString))))).
Proof. reflexivity. Qed.

(** Unescaping undoes escaping. *)
Lemma QueryUnescape_QueryEscape s : Url.QueryUnescape (Url.QueryEscape s) = (s, None).
Proof.
  induction s as [|c s IH]; [reflexivity|].
  rewrite escape_cons.
  destruct (Ascii.eqb_spec c " ") as [->|Hsp].
  { rewrite str_app_cons, str_app_nil_l, unescape_plus, IH. reflexivity. }
  destruct (Url.shouldEscape c Url.encodeQueryComponent) eqn:Hesc.
  - rewrite !str_app_cons, str_app_nil_l, unescape_percent, IH.
    clear IH Hsp. destruct c as [[] [] [] [] [] [] [] []]; try discriminate Hesc;
      reflexivity.
  - rewrite str_app_cons, str_app_nil_l, unescape_plain, IH; try reflexivity.
    all: clear IH; destruct c as [[] [] [] [] [] [] [] []];
      try discriminate Hesc; try reflexivity; try discriminate; try (by exfalso; apply Hsp).
Qed.

Lemma QueryEscape_Count sep s :
  isQuerySafe sep = false -> Strings.Count sep (Url.QueryEscape s) = 0.
Proof. intros Hsep. eapply all_Count; [apply QueryEscape_safe|exact Hsep]. Qed.

Lemma encodePair_Count sep k x :
  isQuerySafe sep = false -> sep <> "="%char ->
  Strings.Count sep (Url.encodePair k x) = 0.
Proof.
  intros Hsep Hne.
  unfold Url.encodePair. rewrite Count_app, Count_cons.
  rewrite !QueryEscape_Count by exact Hsep.
  destruct (Ascii.eqb_spec "=" sep) as [<-|_]; [contradiction|reflexivity].
Qed.

Lemma encodePair_not_empty k x : String.eqb (Url.encodePair k x) EmptyString = false.
Proof. unfold Url.encodePair. by destruct (Url.QueryEscape k). Qed.

(** One encoded pair is parsed back as one [Add]. *)
Lemma parseSegment_encodePair m k x :
  Url.parseSegment (m, None) (Url.encodePair k x) = (Url.Add m k x, None).
Proof.
  unfold Url.parseSegment.
  assert (Hsemi : Strings.ContainsByte ";" (Url.encodePair k x) = false).
  { apply ContainsByte_false. by apply encodePair_Count. }
  rewrite Hsemi, encodePair_not_empty.
  unfold Url.encodePair at 1.
  rewrite Cut_first by (apply ContainsByte_false; by apply QueryEscape_Count).
  by rewrite !QueryUnescape_QueryEscape.
Qed.

Lemma parseSegments_encoded kvs : forall m,
  foldl Url.parseSegment (m, None) ((fun kv => Url.encodePair kv.1 kv.2) <$> kvs)
  = (addAll m kvs, None).
Proof.
  induction kvs as [|[k x] kvs IH]; intros m; [reflexivity|].
  rewrite fmap_cons. cbn [foldl fst snd]. rewrite parseSegment_encodePair.
  exact (IH _).
Qed.

Lemma Split_joinAmp segs :
  segs <> [] ->
  Forall (fun s => Strings.Count "&" s = 0) segs ->
  Strings.Split "&" (Url.joinAmp segs) = segs.
Proof.
  induction segs as [|s segs IH]; [done|]. intros _ Hall.
  inversion Hall as [|? ? Hs Hrest]; subst.
  destruct segs as [|s' segs].
  - simpl. by apply Split_absent.
  - change (Url.joinAmp (s :: s' :: segs))
      with (s +:+ String "&" (Url.joinAmp (s' :: segs))).
    rewrite Split_first by exact Hs. f_equal. by apply IH.
Qed.

Lemma Encode_pairs v :
  Url.Encode v = Url.joinAmp ((fun kv => Url.encodePair kv.1 kv.2) <$> pairsOf v).
Proof.
  unfold Url.Encode, pairsOf, pairsUnder. f_equal.
  induction (Url.sortedKeys v) as [|k keys IH]; [reflexivity|].
  cbn [mbind list_bind]. rewrite fmap_app, <- IH. f_equal.
  rewrite <- list_fmap_compose. reflexivity.
Qed.

(** Parsing an encoded query replays the [Add] calls of its pairs. *)
Lemma ParseQuery_Encode_pairs v :
  Url.ParseQuery (Url.Encode v) = (addAll ∅ (pairsOf v), None).
Proof.
  rewrite Encode_pairs. unfold Url.ParseQuery.
  destruct (pairsOf v) as [|kv kvs] eqn:Hp; [reflexivity|].
  rewrite Split_joinAmp.
  - apply parseSegments_encoded.
  - discriminate.
  - apply Forall_fmap, Forall_forall. intros [k x] _. simpl.
    by apply encodePair_Count.
Qed.

Lemma addAll_app m l1 l2 : addAll m (l1 ++ l2) = addAll (addAll m l1) l2.
Proof. unfold addAll. apply foldl_app. Qed.

(** Adding several values under one key appends them to the key's list. *)
Lemma addAll_one_key k xs : forall m,
  xs <> [] ->
  addAll m ((fun x => (k, x)) <$> xs) = <[k := default [] (m !! k) ++ xs]> m.
Proof.
  induction xs as [|x xs IH]; [done|]. intros m _.
  destruct xs as [|x' xs].
  - reflexivity.
  - change (addAll m ((fun x => (k, x)) <$> x :: x' :: xs))
      with (addAll (Url.Add m k x) ((fun x => (k, x)) <$> x' :: xs)).
    rewrite IH by discriminate. unfold Url.Add.
    rewrite lookup_insert_eq, insert_insert_eq. simpl.
    by rewrite <- (assoc_L (++)).
Qed.

Lemma addAll_keys v keys : forall m,
  NoDup keys ->
  wfValues v ->
  (forall k, k ∈ keys -> m !! k = None /\ is_Some (v !! k)) ->
  forall k', addAll m (pairsUnder v keys) !! k'
             = if decide (k' ∈ keys) then v !! k' else m !! k'.
Proof.
  induction keys as [|k keys IH]; intros m Hnd Hwf Hkeys k'.
  - simpl. destruct (decide (k' ∈ [])) as [Hin|_]; [|reflexivity].
    by apply elem_of_nil in Hin.
  - apply NoDup_cons in Hnd as [Hnotin Hnd].
    destruct (Hkeys k ltac:(apply list_elem_of_here)) as [Hmk [l Hvk]].
    unfold pairsUnder. cbn [mbind list_bind]. fold (pairsUnder v keys).
    rewrite addAll_app, Hvk. simpl.
    rewrite addAll_one_key by (by eapply Hwf).
    rewrite Hmk. simpl.
    rewrite IH; [|exact Hnd|exact Hwf|].
    + destruct (decide (k' ∈ keys)) as [Hin|Hnin].
      * rewrite decide_True by (by apply list_elem_of_further). reflexivity.
      * destruct (decide (k' = k)) as [->|Hne].
        -- rewrite decide_True by apply list_elem_of_here.
           by rewrite lookup_insert_eq.
        -- rewrite decide_False by (rewrite elem_of_cons; tauto).
           by rewrite lookup_insert_ne.
    + intros k2 Hin2. split.
      * rewrite lookup_insert_ne by (intros ->; contradiction).
        apply Hkeys. by apply list_elem_of_further.
      * apply Hkeys. by apply list_elem_of_further.
Qed.

Lemma sortedKeys_spec v k : k ∈ Url.sortedKeys v <-> is_Some (v !! k).
Proof.
  unfold Url.sortedKeys. rewrite merge_sort_Permutation.
  rewrite list_elem_of_fmap. split.
  - intros ([k' x] & -> & Hin). apply elem_of_map_to_list in Hin. by exists x.
  - intros [x Hx]. exists (k, x). split; [reflexivity|]. by apply elem_of_map_to_list.
Qed.

Lemma sortedKeys_NoDup v : NoDup (Url.sortedKeys v).
Proof.
  unfold Url.sortedKeys. rewrite merge_sort_Permutation. apply NoDup_fst_map_to_list.
Qed.

(** Replaying the pairs of a map rebuilds the map. *)
Lemma addAll_pairsOf v : wfValues v -> addAll ∅ (pairsOf v) = v.
Proof.
  intros Hwf. apply map_eq. intros k. unfold pairsOf.
  rewrite (addAll_keys v); [|apply sortedKeys_NoDup|exact Hwf|].
  - destruct (decide (k ∈ Url.sortedKeys v)) as [_|Hnin]; [reflexivity|].
    rewrite lookup_empty. symmetry. apply eq_None_not_Some.
    by rewrite <- sortedKeys_spec.
  - intros k' Hin. split; [apply lookup_empty|by apply sortedKeys_spec].
Qed.

(** Parsing undoes encoding. *)
Lemma ParseQuery_Encode v : wfValues v -> Url.ParseQuery (Url.Encode v) = (v, None).
Proof. intros Hwf. by rewrite ParseQuery_Encode_pairs, addAll_pairsOf. Qed.

End QueryFacts.

(* ===================================================================== *)
(** * What [url.Parse] returns and what [URL.String] prints *)
(* ===================================================================== *)

Section UrlFacts.

Lemma upperhex_alnum n : n < 16 -> Url.isAlnum (Url.upperhex n) = true.
Proof.
  intros Hn. do 16 (destruct n as [|n]; [reflexivity|]). lia.
Qed.

Lemma shouldEscape_alnum c mode : Url.isAlnum c = true -> Url.shouldEscape c mode = false.
Proof. intros Hc. unfold Url.shouldEscape. by rewrite Hc. Qed.

Lemma escape_writes mode s : Strings.all (escapeWrites mode) (Url.escape s mode) = true.
Proof.
  induction s as [|a s IH]; [reflexivity|].
  cbn [Url.escape].
  destruct (Ascii.eqb a " " && Url.isQueryMode mode).
  { cbn [Strings.all]. rewrite IH. unfold escapeWrites. rewrite Ascii.eqb_refl.
    by rewrite orb_true_r. }
  destruct (Url.shouldEscape a mode) eqn:Hesc.
  - cbn [Strings.all]. rewrite IH. unfold escapeWrites at 1 2 3.
    rewrite (shouldEscape_alnum (Url.upperhex (nat_of_ascii a / 16))), 
            (shouldEscape_alnum (Url.upperhex (nat_of_ascii a mod 16))).
    + rewrite Ascii.eqb_refl, orb_true_r. reflexivity.
    + apply upperhex_alnum. apply Nat.mod_upper_bound. lia.
    + apply upperhex_alnum. apply Nat.Div0.div_lt_upper_bound.
      pose proof (nat_ascii_bounded a). lia.
  - cbn [Strings.all]. rewrite IH. unfold escapeWrites. by rewrite Hesc.
Qed.

Lemma escape_Count mode c s :
  escapeWrites mode c = false -> Strings.Count c (Url.escape s mode) = 0.
Proof. intros Hc. eapply all_Count; [apply escape_writes|exact Hc]. Qed.

Lemma validEncoded_Count mode c s :
  Url.validEncoded s mode = true -> validWrites mode c = false -> Strings.Count c s = 0.
Proof. intros Hv Hc. eapply all_Count; [exact Hv|exact Hc]. Qed.

Lemma EscapedPath_clean c u :
  isMark c = true -> Strings.Count c (Url.EscapedPath u) = 0.
Proof.
  intros Hc. unfold Url.EscapedPath.
  assert (Hcases : c = "?"%char \/ c = "#"%char).
  { unfold isMark in Hc. apply orb_true_iff in Hc as [Hc|Hc]; apply Ascii.eqb_eq in Hc; auto. }
  destruct (Url.keepsRaw _ _ _) eqn:Hk.
  - unfold Url.keepsRaw in Hk. apply andb_true_iff in Hk as [Hk _].
    apply andb_true_iff in Hk as [_ Hv].
    apply (validEncoded_Count _ _ _ Hv). by destruct Hcases as [-> | ->].
  - destruct (String.eqb _ "*"); [by destruct Hcases as [-> | ->]|].
    apply escape_Count. by destruct Hcases as [-> | ->].
Qed.

Lemma authorityText_clean c u :
  isMark c = true -> Strings.Count c (Url.authorityText u) = 0.
Proof.
  intros Hc. unfold Url.authorityText.
  assert (Hcases : c = "?"%char \/ c = "#"%char).
  { unfold isMark in Hc. apply orb_true_iff in Hc as [Hc|Hc]; apply Ascii.eqb_eq in Hc; auto. }
  assert (Hesc : forall s mode, mode = Url.encodeHost \/ mode = Url.encodeUserPassword ->
            Strings.Count c (Url.escape s mode) = 0).
  { intros s mode Hm. apply escape_Count.
    destruct Hcases as [-> | ->], Hm as [-> | ->]; reflexivity. }
  destruct (_ || _ || _); [|reflexivity].
  destruct (_ && _ && _); [reflexivity|].
  rewrite !Count_app, Hesc by auto.
  assert (Hslash : forall b : bool, Strings.Count c (if b then "//" else EmptyString) = 0).
  { intros []; [|reflexivity]. by destruct Hcases as [-> | ->]. }
  rewrite Hslash.
  destruct (Url.User u) as [ui|]; [|reflexivity].
  unfold Url.userinfoString. rewrite !Count_app, Hesc by auto.
  destruct (Url.passwordSet ui).
  - rewrite Count_cons, Hesc by auto. by destruct Hcases as [-> | ->].
  - by destruct Hcases as [-> | ->].
Qed.

Lemma scanScheme_found s : forall first sc r,
  Url.scanScheme first s = Url.SchemeFound sc r ->
  s = sc +:+ String ":" r /\ Strings.all isSchemeByte sc = true.
Proof.
  induction s as [|a s IH]; intros first sc r; [discriminate|].
  cbn [Url.scanScheme]. unfold isSchemeByte in *.
  destruct (Url.isLetter a) eqn:Hl.
  { destruct (Url.scanScheme false s) as [sc' r'| |] eqn:Hrec; try discriminate.
    intros [= <- <-]. destruct (IH _ _ _ Hrec) as [-> Hall].
    split; [reflexivity|]. cbn [Strings.all]. by rewrite Hl, Hall. }
  destruct (Url.isSchemeMark a) eqn:Hm.
  { destruct first; [discriminate|].
    destruct (Url.scanScheme false s) as [sc' r'| |] eqn:Hrec; try discriminate.
    intros [= <- <-]. destruct (IH _ _ _ Hrec) as [-> Hall].
    split; [reflexivity|]. cbn [Strings.all]. by rewrite Hm, Hall, orb_true_r. }
  destruct (Ascii.eqb_spec a ":") as [->|_]; [|discriminate].
  destruct first; [discriminate|]. intros [= <- <-]. by split.
Qed.

(** [getScheme] splits a scheme made of scheme bytes off the text, or
    leaves the text as it is. *)
Lemma getScheme_spec rawURL scheme rest :
  Url.getScheme rawURL = (scheme, rest, None) ->
  Strings.all isSchemeByte scheme = true
  /\ ((scheme = EmptyString /\ rest = rawURL) \/ rawURL = scheme +:+ String ":" rest).
Proof.
  unfold Url.getScheme.
  destruct (Url.scanScheme true rawURL) as [sc r| |] eqn:Hscan; try discriminate.
  - intros [= <- <-]. apply scanScheme_found in Hscan as [-> Hall]. split; [exact Hall|by right].
  - intros [= <- <-]. split; [reflexivity|by left].
Qed.

Lemma lowerByte_scheme c : isSchemeByte c = true -> isSchemeByte (Strings.lowerByte c) = true.
Proof. destruct c as [[] [] [] [] [] [] [] []]; try discriminate; reflexivity. Qed.

Lemma ToLower_scheme s :
  Strings.all isSchemeByte s = true -> Strings.all isSchemeByte (Strings.ToLower s) = true.
Proof.
  induction s as [|c s IH]; [reflexivity|]. cbn [Strings.all Strings.ToLower].
  intros [Hc Hs]%andb_true_iff. by rewrite (lowerByte_scheme c Hc), IH.
Qed.

Lemma ToLower_empty s : Strings.ToLower s = EmptyString -> s = EmptyString.
Proof. by destruct s. Qed.

Lemma dropLast_suffix sep s :
  Strings.HasSuffixByte sep s = true -> s = Strings.dropLast s +:+ String sep EmptyString.
Proof.
  induction s as [|a s IH]; [discriminate|].
  destruct s as [|b s].
  - simpl. intros Ha%Ascii.eqb_eq. by subst.
  - intros Hs.
    change (Strings.HasSuffixByte sep (String a (String b s)))
      with (Strings.HasSuffixByte sep (String b s)) in Hs.
    change (Strings.dropLast (String a (String b s)))
      with (String a (Strings.dropLast (String b s))).
    rewrite str_app_cons. f_equal. by apply IH.
Qed.

(** The split of the query: what stays behind holds no ["?"]. *)
Lemma splitQuery_spec rest rest' force rawq :
  Url.splitQuery rest = (rest', force, rawq) ->
  Strings.Count "?" rest' = 0
  /\ (exists t, rest = rest' +:+ t)
  /\ (force = true -> rawq = EmptyString).
Proof.
  unfold Url.splitQuery.
  destruct (Strings.HasSuffixByte "?" rest) eqn:Hsuf; simpl.
  - destruct (Nat.eqb_spec (Strings.Count "?" rest) 1) as [Hone|_].
    + intros [= <- <- <-]. pose proof (dropLast_suffix _ _ Hsuf) as Hrest.
      split; [|split; [by eexists|done]].
      rewrite Hrest, Count_app in Hone. simpl in Hone. lia.
    + destruct (Strings.Cut "?" rest) as [[r q] f] eqn:Hc.
      intros [= <- <- <-]. apply Cut_spec in Hc as (Hq & Hrest & _).
      split; [exact Hq|]. split; [|discriminate].
      destruct f; [by eexists|exists EmptyString; by rewrite str_app_nil_r].
  - destruct (Strings.Cut "?" rest) as [[r q] f] eqn:Hc.
    intros [= <- <- <-]. apply Cut_spec in Hc as (Hq & Hrest & _).
    split; [exact Hq|]. split; [|discriminate].
    destruct f; [by eexists|exists EmptyString; by rewrite str_app_nil_r].
Qed.

(** What the URL of [parseRest] keeps of its arguments. *)
Lemma parseRest_spec scheme rest force rawq u :
  Url.parseRest scheme rest force rawq = (Some u, None) ->
  Url.Scheme u = scheme /\ Url.ForceQuery u = force /\ Url.RawQuery u = rawq
  /\ Url.Fragment u = EmptyString /\ Url.RawFragment u = EmptyString
  /\ (Url.Opaque u = EmptyString \/ Url.Opaque u = rest).
Proof.
  unfold Url.parseRest.
  destruct (negb (String.prefix "/" rest) && negb (String.eqb scheme EmptyString)).
  { intros [= <-]. simpl. auto 10. }
  destruct (negb (String.prefix "/" rest) && _); [discriminate|].
  destruct ((_ || _) && _).
  - destruct (Url.splitAuthority rest) as [authority rest'].
    destruct (Url.parseAuthority authority) as [[user host] [e|]]; [discriminate|].
    destruct (Url.setPath rest') as [[path rawpath] [e|]]; [discriminate|].
    intros [= <-]. simpl. auto 10.
  - destruct (Url.setPath rest) as [[path rawpath] [e|]]; [discriminate|].
    intros [= <-]. simpl. auto 10.
Qed.

Lemma parse_spec pre u :
  Url.parse pre = (Some u, None) ->
  Strings.all isSchemeByte (Url.Scheme u) = true
  /\ Strings.Count "?" (Url.Opaque u) = 0
  /\ (Strings.Count "#" pre = 0 -> Strings.Count "#" (Url.Opaque u) = 0)
  /\ (Url.ForceQuery u = true -> Url.RawQuery u = EmptyString)
  /\ Url.Fragment u = EmptyString /\ Url.RawFragment u = EmptyString.
Proof.
  unfold Url.parse.
  destruct (Url.stringContainsCTLByte pre); [discriminate|].
  destruct (String.eqb pre "*").
  { intros [= <-]. simpl. repeat split; done. }
  destruct (Url.getScheme pre) as [[scheme rest] [e|]] eqn:Hsch; [discriminate|].
  apply getScheme_spec in Hsch as [Hall Hpre].
  destruct (Url.splitQuery rest) as [[rest' force] rawq] eqn:Hsplit.
  apply splitQuery_spec in Hsplit as (Hq & [t Hrest] & Hforce).
  intros Hrest'. apply parseRest_spec in Hrest' as (Hs & Hf & Hr & Hfr & Hrf & Hop).
  rewrite Hs, Hf, Hr. split; [by apply ToLower_scheme|].
  assert (Hhash : Strings.Count "#" pre = 0 -> Strings.Count "#" rest' = 0).
  { intros Hh. destruct Hpre as [[_ ->]| ->].
    - rewrite Hrest, Count_app in Hh. lia.
    - rewrite Hrest, !Count_app, Count_cons, Count_app in Hh. lia. }
  destruct Hop as [-> | ->]; repeat split; auto.
Qed.

(** What [Parse] guarantees about the URL it returns. *)
Lemma Parse_spec rawURL u :
  Url.Parse rawURL = (Some u, None) ->
  Strings.all isSchemeByte (Url.Scheme u) = true
  /\ Strings.Count "?" (Url.Opaque u) = 0
  /\ Strings.Count "#" (Url.Opaque u) = 0
  /\ (Url.ForceQuery u = true -> Url.RawQuery u = EmptyString).
Proof.
  unfold Url.Parse.
  destruct (Strings.Cut "#" rawURL) as [[pre frag] found] eqn:Hcut.
  apply Cut_spec in Hcut as (Hhash & _ & _).
  destruct (Url.parse pre) as [[url|] [e|]] eqn:Hp; try discriminate.
  apply parse_spec in Hp as (Hs & Hq & Hh & Hf & _).
  specialize (Hh Hhash).
  destruct (String.eqb frag EmptyString).
  - by intros [= <-].
  - destruct (Url.setFragment frag) as [[fragment rawfragment] [e|]]; [discriminate|].
    intros [= <-]. simpl. auto.
Qed.

(** The head [String] prints holds neither ["?"] nor ["#"] when scheme and
    opaque text hold none. *)
Lemma stringHead_clean c u :
  isMark c = true ->
  Strings.all isSchemeByte (Url.Scheme u) = true ->
  Strings.Count "?" (Url.Opaque u) = 0 ->
  Strings.Count "#" (Url.Opaque u) = 0 ->
  Strings.Count c (Url.stringHead u) = 0.
Proof.
  intros Hc Hs Hq Hh.
  assert (Hcases : c = "?"%char \/ c = "#"%char).
  { unfold isMark in Hc. apply orb_true_iff in Hc as [Hc|Hc]; apply Ascii.eqb_eq in Hc; auto. }
  assert (Hscheme : Strings.Count c
            (if negb (String.eqb (Url.Scheme u) EmptyString)
             then Url.Scheme u +:+ ":" else EmptyString) = 0).
  { destruct (negb _); [|reflexivity]. rewrite Count_app.
    rewrite (all_Count isSchemeByte c _ Hs) by (by destruct Hcases as [-> | ->]).
    by destruct Hcases as [-> | ->]. }
  unfold Url.stringHead.
  destruct (negb (String.eqb (Url.Opaque u) EmptyString)).
  { rewrite Count_app, Hscheme. by destruct Hcases as [-> | ->]. }
  cbv zeta.
  match goal with |- Strings.Count c (?b +:+ _) = 0 => assert (Hb : Strings.Count c b = 0) end.
  { destruct (String.eqb _ EmptyString && _).
    { by destruct Hcases as [-> | ->]. }
    destruct (_ && _ && _).
    - rewrite !Count_app, Hscheme, authorityText_clean by done.
      by destruct Hcases as [-> | ->].
    - by rewrite !Count_app, Hscheme, authorityText_clean. }
  by rewrite Count_app, Hb, EscapedPath_clean.
Qed.

Lemma Parse_head_clean rawURL u c :
  Url.Parse rawURL = (Some u, None) -> isMark c = true ->
  Strings.Count c (Url.stringHead u) = 0.
Proof.
  intros Hp Hc. apply Parse_spec in Hp as (Hs & Hq & Hh & _). by apply stringHead_clean.
Qed.

Lemma Cut_app_absent sep a b :
  Strings.Count sep a = 0 ->
  Strings.Cut sep (a +:+ b)
  = let '(x, y, f) := Strings.Cut sep b in (a +:+ x, y, f).
Proof.
  induction a as [|c a IH]; intros Hc.
  - rewrite str_app_nil_l. by destruct (Strings.Cut sep b) as [[x y] f].
  - rewrite Count_cons in Hc. rewrite str_app_cons. cbn [Strings.Cut].
    destruct (Ascii.eqb c sep); [discriminate|]. rewrite IH by lia.
    by destruct (Strings.Cut sep b) as [[x y] f].
Qed.

Lemma splitQuery_query x q :
  Strings.Count "?" x = 0 -> q <> EmptyString -> Strings.Count "?" q = 0 ->
  Url.splitQuery (x +:+ String "?" q) = (x, false, q).
Proof.
  intros Hx Hne Hq. unfold Url.splitQuery.
  assert (Hsuf : Strings.HasSuffixByte "?" (x +:+ String "?" q) = false).
  { destruct q as [|c t]; [contradiction|].
    replace (x +:+ String "?" (String c t))
      with ((x +:+ String "?" EmptyString) +:+ String c t)
      by (by rewrite str_app_assoc).
    rewrite HasSuffixByte_app.
    destruct (Strings.HasSuffixByte "?" (String c t)) eqn:Hs; [|reflexivity].
    apply HasSuffixByte_Count in Hs. contradiction. }
  rewrite Hsuf. simpl andb. cbv iota.
  rewrite Cut_first by (by apply ContainsByte_false). reflexivity.
Qed.

(** Parsing a text whose first ["?"] is followed by a query that is not
    empty and holds neither ["?"] nor ["#"]: if the text parses, that query
    is the URL's query, and the URL has no fragment. *)
Lemma Parse_query h q u :
  Strings.Count "?" h = 0 ->
  Strings.Count "#" h = 0 ->
  Strings.Count "?" q = 0 ->
  Strings.Count "#" q = 0 ->
  q <> EmptyString ->
  Url.Parse (h +:+ String "?" q) = (Some u, None) ->
  Url.RawQuery u = q /\ Url.ForceQuery u = false
  /\ Url.Fragment u = EmptyString /\ Url.RawFragment u = EmptyString.
Proof.
  intros Hhq Hhh Hqq Hqh Hne. unfold Url.Parse.
  assert (Hhash : Strings.Count "#" (h +:+ String "?" q) = 0).
  { rewrite Count_app, Count_cons, Hhh, Hqh. reflexivity. }
  rewrite (Cut_absent _ _ Hhash). simpl String.eqb. cbv iota.
  destruct (Url.parse (h +:+ String "?" q)) as [[url|] [e|]] eqn:Hp; try discriminate.
  intros [= <-]. revert Hp. unfold Url.parse.
  destruct (Url.stringContainsCTLByte _); [discriminate|].
  destruct (String.eqb_spec (h +:+ String "?" q) "*") as [Hstar|_].
  { exfalso. assert (Hc : Strings.Count "?" (h +:+ String "?" q) = 0) by (by rewrite Hstar).
    rewrite Count_app, Count_cons in Hc. simpl in Hc. lia. }
  destruct (Url.getScheme (h +:+ String "?" q)) as [[scheme rest] [e|]] eqn:Hsch;
    [discriminate|].
  apply getScheme_spec in Hsch as [Hall Hpre].
  assert (Hrest : exists x, rest = x +:+ String "?" q /\ Strings.Count "?" x = 0).
  { destruct Hpre as [[_ ->]|Hpre]; [by exists h|].
    assert (Hcut : Strings.Cut "?" (h +:+ String "?" q) = (h, q, true)).
    { apply Cut_first. by apply ContainsByte_false. }
    rewrite Hpre in Hcut.
    replace (scheme +:+ String ":" rest) with ((scheme +:+ ":") +:+ rest) in Hcut
      by (by rewrite str_app_assoc).
    rewrite Cut_app_absent in Hcut.
    2:{ rewrite Count_app. by rewrite (all_Count isSchemeByte "?" _ Hall). }
    destruct (Strings.Cut "?" rest) as [[x y] f] eqn:Hc.
    injection Hcut as _ -> ->. apply Cut_spec in Hc as (Hx & -> & _). by exists x. }
  destruct Hrest as (x & -> & Hx).
  rewrite (splitQuery_query x q Hx Hne Hqq).
  intros Hr. apply parseRest_spec in Hr as (_ & Hf & Hr & Hfr & Hrf & _). auto.
Qed.

Lemma parseRest_result scheme rest force rawq :
  (exists u, Url.parseRest scheme rest force rawq = (Some u, None))
  \/ (exists e, Url.parseRest scheme rest force rawq = (None, Some e)).
Proof.
  unfold Url.parseRest.
  destruct (negb (String.prefix "/" rest) && negb (String.eqb scheme EmptyString));
    [left; by eexists|].
  destruct (negb (String.prefix "/" rest) && _); [right; by eexists|].
  destruct ((_ || _) && _).
  - destruct (Url.splitAuthority rest) as [authority rest'].
    destruct (Url.parseAuthority authority) as [[user host] [e|]]; [right; by eexists|].
    destruct (Url.setPath rest') as [[path rawpath] [e|]]; [right|left]; by eexists.
  - destruct (Url.setPath rest) as [[path rawpath] [e|]]; [right|left]; by eexists.
Qed.

Lemma parse_result pre :
  (exists u, Url.parse pre = (Some u, None))
  \/ (exists e, Url.parse pre = (None, Some e)).
Proof.
  unfold Url.parse.
  destruct (Url.stringContainsCTLByte pre); [right; by eexists|].
  destruct (String.eqb pre "*"); [left; by eexists|].
  destruct (Url.getScheme pre) as [[scheme rest] [e|]]; [right; by eexists|].
  destruct (Url.splitQuery rest) as [[rest' force] rawq].
  apply parseRest_result.
Qed.

(** [Parse] returns a URL or an error, never both and never neither. *)
Lemma Parse_result rawURL :
  (exists u, Url.Parse rawURL = (Some u, None))
  \/ (exists e, Url.Parse rawURL = (None, Some e)).
Proof.
  unfold Url.Parse. destruct (Strings.Cut "#" rawURL) as [[pre frag] found].
  destruct (parse_result pre) as [[u ->]|[e ->]]; [|right; by eexists].
  destruct (String.eqb frag EmptyString); [left; by eexists|].
  destruct (Url.setFragment frag) as [[fragment rawfragment] [e|]];
    [right; by eexists|left; by eexists].
Qed.

End UrlFacts.

(* ===================================================================== *)
(** * Merging parameters into a URL *)
(* ===================================================================== *)

Section MergeFacts.

Variable order : forall V : Type, gmap string V -> list (string * V).
Hypothesis order_perm : forall (V : Type) (m : gmap string V), order V m ≡ₚ map_to_list m.

Lemma wfValues_empty : wfValues ∅.
Proof. intros k l Hl. by rewrite lookup_empty in Hl. Qed.

Lemma wfValues_Add m k x : wfValues m -> wfValues (Url.Add m k x).
Proof.
  intros Hwf k' l. unfold Url.Add.
  destruct (decide (k' = k)) as [->|Hne].
  - rewrite lookup_insert_eq. intros [= <-]. by destruct (default [] (m !! k)).
  - rewrite lookup_insert_ne by done. apply Hwf.
Qed.

Lemma wfValues_Set m k x : wfValues m -> wfValues (Url.Set_ m k x).
Proof.
  intros Hwf k' l. unfold Url.Set_.
  destruct (decide (k' = k)) as [->|Hne].
  - rewrite lookup_insert_eq. by intros [= <-].
  - rewrite lookup_insert_ne by done. apply Hwf.
Qed.

Lemma wfValues_parseSegment acc seg :
  wfValues acc.1 -> wfValues (Url.parseSegment acc seg).1.
Proof.
  destruct acc as [m err]. simpl. intros Hwf. unfold Url.parseSegment.
  destruct (Strings.ContainsByte ";" seg); [exact Hwf|].
  destruct (String.eqb seg EmptyString); [exact Hwf|].
  destruct (Strings.Cut "=" seg) as [[key value] found].
  destruct (Url.QueryUnescape key) as [key' [e|]]; [exact Hwf|].
  destruct (Url.QueryUnescape value) as [value' [e|]]; [exact Hwf|].
  by apply wfValues_Add.
Qed.

(** A parsed query binds no key to an empty list. *)
Lemma wfValues_ParseQuery query : wfValues (Url.ParseQuery query).1.
Proof.
  unfold Url.ParseQuery.
  assert (Hgen : forall segs acc, wfValues acc.1 ->
                   wfValues (foldl Url.parseSegment acc segs).1).
  { induction segs as [|seg segs IH]; intros acc Hacc; [exact Hacc|].
    simpl. apply IH. by apply wfValues_parseSegment. }
  apply Hgen. apply wfValues_empty.
Qed.

Lemma wfValues_setEach entries : forall m, wfValues m -> wfValues (setEach m entries).
Proof.
  induction entries as [|[k x] entries IH]; intros m Hwf; [exact Hwf|].
  simpl. apply IH. by apply wfValues_Set.
Qed.

Lemma setEach_outside entries k : forall m,
  k ∉ entries.*1 -> setEach m entries !! k = m !! k.
Proof.
  induction entries as [|[k1 x1] entries IH]; intros m Hk; [reflexivity|].
  rewrite fmap_cons, not_elem_of_cons in Hk. destruct Hk as [Hne Hk]. simpl in *.
  rewrite IH by exact Hk. unfold Url.Set_. by rewrite lookup_insert_ne.
Qed.

Lemma setEach_inside entries k x : forall m,
  NoDup entries.*1 -> (k, x) ∈ entries -> setEach m entries !! k = Some [x].
Proof.
  induction entries as [|[k1 x1] entries IH]; intros m Hnd Hin.
  - by apply elem_of_nil in Hin.
  - rewrite fmap_cons in Hnd. apply NoDup_cons in Hnd as [Hnotin Hnd].
    apply elem_of_cons in Hin as [[= -> ->]|Hin]; simpl in *.
    + rewrite setEach_outside by exact Hnotin.
      unfold Url.Set_. apply lookup_insert_eq.
    + by apply IH.
Qed.

(** The loop of [prepareURL], whatever the order of the visit: the keys of
    the parameter map are bound to their single value, the other keys keep
    what they had. *)
Lemma setEach_params (P : gmap string string) q :
  (forall k x, P !! k = Some x -> setEach q (order string P) !! k = Some [x])
  /\ (forall k, P !! k = None -> setEach q (order string P) !! k = q !! k).
Proof.
  split.
  - intros k x Hk. apply setEach_inside.
    + rewrite order_perm. apply NoDup_fst_map_to_list.
    + rewrite order_perm. by apply elem_of_map_to_list.
  - intros k Hk. apply setEach_outside.
    rewrite order_perm. intros Hin.
    apply list_elem_of_fmap in Hin as ([k' x] & -> & Hin).
    apply elem_of_map_to_list in Hin. simpl in Hk. congruence.
Qed.

Lemma all_impl (f g : ascii -> bool) s :
  (forall c, f c = true -> g c = true) ->
  Strings.all f s = true -> Strings.all g s = true.
Proof.
  intros Hfg. induction s as [|c s IH]; [reflexivity|]. simpl.
  intros [Hc Hs]%andb_true_iff. by rewrite (Hfg c Hc), IH.
Qed.

Lemma isQuerySafe_isEncoded c : isQuerySafe c = true -> isEncoded c = true.
Proof. unfold isEncoded. by intros ->. Qed.

Lemma isEncoded_notCTL c : isEncoded c = true -> negb (Url.isCTL c) = true.
Proof. destruct c as [[] [] [] [] [] [] [] []]; try discriminate; reflexivity. Qed.

Lemma joinAmp_encoded segs :
  Forall (fun s => Strings.all isEncoded s = true) segs ->
  Strings.all isEncoded (Url.joinAmp segs) = true.
Proof.
  induction segs as [|s segs IH]; [reflexivity|]. intros Hall.
  inversion Hall as [|? ? Hs Hrest]; subst.
  destruct segs as [|s' segs]; [exact Hs|].
  change (Url.joinAmp (s :: s' :: segs))
    with (s +:+ String "&" (Url.joinAmp (s' :: segs))).
  rewrite all_app, Hs. simpl. by apply IH.
Qed.

(** [Encode] writes escaped bytes, ["="] and ["&"] only. *)
Lemma Encode_encoded v : Strings.all isEncoded (Url.Encode v) = true.
Proof.
  rewrite Encode_pairs. apply joinAmp_encoded, Forall_fmap, Forall_forall.
  intros [k x] _. simpl. unfold Url.encodePair.
  rewrite all_app. simpl.
  by rewrite !(all_impl _ _ _ isQuerySafe_isEncoded (QueryEscape_safe _)).
Qed.

Lemma joinAmp_not_empty s segs :
  s <> EmptyString -> Url.joinAmp (s :: segs) <> EmptyString.
Proof.
  intros Hs. destruct segs as [|s' segs]; [exact Hs|].
  change (Url.joinAmp (s :: s' :: segs))
    with (s +:+ String "&" (Url.joinAmp (s' :: segs))).
  destruct s; [contradiction|discriminate].
Qed.

(** A query that binds some key is not encoded as the empty string. *)
Lemma Encode_not_empty v k l :
  wfValues v -> v !! k = Some l -> Url.Encode v <> EmptyString.
Proof.
  intros Hwf Hk. rewrite Encode_pairs.
  destruct (pairsOf v) as [|[k' x'] kvs] eqn:Hp.
  - pose proof (addAll_pairsOf v Hwf) as Hv. rewrite Hp in Hv.
    unfold addAll in Hv. simpl in Hv. subst v. by rewrite lookup_empty in Hk.
  - rewrite fmap_cons. apply joinAmp_not_empty. simpl.
    pose proof (encodePair_not_empty k' x') as Hne.
    intros Heq. by rewrite Heq in Hne.
Qed.

(** [mergeParams] on a URL without fragment: the old query is replaced. *)
Lemma mergeParams_no_fragment u q :
  Strings.Count "?" (Url.stringHead u) = 0 ->
  Url.Fragment u = EmptyString ->
  mergeParams u q = Url.stringHead u +:+ String "?" (Url.Encode q).
Proof.
  intros Hq Hfrag. unfold mergeParams, Url.String_.
  rewrite Hfrag. simpl negb. cbv iota. rewrite str_app_nil_r.
  f_equal.
  destruct (Url.ForceQuery u || negb (String.eqb (Url.RawQuery u) EmptyString)).
  - rewrite (ReplaceAll_suffix "?" (Url.RawQuery u) EmptyString (Url.stringHead u) Hq).
    apply str_app_nil_r.
  - rewrite str_app_nil_r. by apply ReplaceAll_absent.
Qed.

Lemma Encode_no_mark c v : isMark c = true -> Strings.Count c (Url.Encode v) = 0.
Proof.
  intros Hc. apply (all_Count isEncoded); [apply Encode_encoded|].
  unfold isMark in Hc. apply orb_true_iff in Hc as [Hc|Hc]; apply Ascii.eqb_eq in Hc;
    by subst.
Qed.

(** The text [mergeParams] builds for a URL that [Parse] returned without
    fragment: the first ["?"] of the text is the one before the new query,
    the text holds no ["#"], and when the text parses, the new query is the
    raw query of its URL. *)
Lemma merged_text rawURL u q k l :
  Url.Parse rawURL = (Some u, None) ->
  Url.Fragment u = EmptyString ->
  wfValues q -> q !! k = Some l ->
  mergeParams u q = Url.stringHead u +:+ String "?" (Url.Encode q)
  /\ Strings.Cut "?" (mergeParams u q) = (Url.stringHead u, Url.Encode q, true)
  /\ Strings.Count "#" (mergeParams u q) = 0
  /\ (forall u', Url.Parse (mergeParams u q) = (Some u', None) ->
        Url.RawQuery u' = Url.Encode q /\ Url.ForceQuery u' = false
        /\ Url.Fragment u' = EmptyString /\ Url.RawFragment u' = EmptyString).
Proof.
  intros Hparse Hfrag Hwf Hk.
  pose proof (Parse_head_clean _ _ "?" Hparse eq_refl) as Hq.
  pose proof (Parse_head_clean _ _ "#" Hparse eq_refl) as Hh.
  rewrite (mergeParams_no_fragment u q Hq Hfrag).
  split; [reflexivity|]. split; [|split].
  - apply Cut_first. by apply ContainsByte_false.
  - rewrite Count_app, Count_cons, Hh, (Encode_no_mark "#") by done. reflexivity.
  - intros u' Hu'. eapply Parse_query; [exact Hq|exact Hh| | | |exact Hu'].
    + by apply Encode_no_mark.
    + by apply Encode_no_mark.
    + by eapply Encode_not_empty.
Qed.

(** C2, as amended.  Let the base URL parse with a plain host, carry no
    fragment, and have a query string that parses.  Merging a non-empty
    parameter map into it returns a text made of the head the URL prints,
    ["?"], and a new query string; the head holds no ["?"], the text no
    ["#"], so the new query string is what follows the first ["?"], and it
    is the raw query of the new URL whenever that text parses.  Parsing
    the new query string gives this: every key of the parameter map is
    bound to its one value (so it occurs once), and every other key is
    bound to exactly the values it had in the base URL, as many as it had. *)
Theorem merged_params_parse_back originUrl (P : gmap string string) u q0 :
  P <> ∅ ->
  Url.Parse originUrl = (Some u, None) ->
  Url.portable originUrl = true ->
  Url.Fragment u = EmptyString ->
  Url.ParseQuery (Url.RawQuery u) = (q0, None) ->
  exists newUrl q',
    prepareURL order originUrl (Some P) = (newUrl, None)
    /\ Strings.Cut "?" newUrl = (Url.stringHead u, Url.Encode q', true)
    /\ Strings.Count "#" newUrl = 0
    /\ (forall u', Url.Parse newUrl = (Some u', None) ->
          Url.RawQuery u' = Url.Encode q' /\ Url.Fragment u' = EmptyString)
    /\ Url.ParseQuery (Url.Encode q') = (q', None)
    /\ (forall k x, P !! k = Some x -> q' !! k = Some [x])
    /\ (forall k, P !! k = None -> q' !! k = q0 !! k).
Proof.
  intros Hne Hparse _ Hfrag Hq0.
  set (q' := setEach q0 (order string P)).
  assert (Hwf : wfValues q').
  { apply wfValues_setEach.
    pose proof (wfValues_ParseQuery (Url.RawQuery u)) as Hw. by rewrite Hq0 in Hw. }
  destruct (setEach_params P q0) as [Hin Hout]. fold q' in Hin, Hout.
  destruct (map_choose P Hne) as (k0 & x0 & Hk0).
  destruct (merged_text originUrl u q' k0 [x0] Hparse Hfrag Hwf (Hin _ _ Hk0))
    as (Htext & Hcut & Hhash & Hre).
  exists (mergeParams u q'), q'. repeat split.
  - unfold prepareURL. simpl lenMap.
    destruct (Nat.eqb_spec (size P) 0) as [Hz|_].
    { apply map_size_empty_iff in Hz. contradiction. }
    by rewrite Hparse, Hq0.
  - exact Hcut.
  - exact Hhash.
  - by apply Hre.
  - by apply Hre.
  - by apply ParseQuery_Encode.
  - exact Hin.
  - exact Hout.
Qed.

Lemma valuesOf_cons k k1 x1 fields :
  valuesOf k ((k1, x1) :: fields)
  = if decide (k1 = k) then x1 :: valuesOf k fields else valuesOf k fields.
Proof.
  unfold valuesOf. destruct (decide (k1 = k)) as [Heq|Hne].
  - by rewrite filter_cons_True.
  - by rewrite filter_cons_False.
Qed.

(** What [Add] calls in declaration order leave under one key. *)
Lemma addAll_lookup fields : forall m k,
  default [] (addAll m fields !! k) = default [] (m !! k) ++ valuesOf k fields.
Proof.
  induction fields as [|[k1 x1] fields IH]; intros m k.
  - unfold valuesOf. simpl. by rewrite app_nil_r.
  - change (addAll m ((k1, x1) :: fields)) with (addAll (Url.Add m k1 x1) fields).
    rewrite IH, valuesOf_cons. unfold Url.Add.
    destruct (decide (k1 = k)) as [->|Hne].
    + rewrite lookup_insert_eq. simpl. by rewrite <- (assoc_L (++)).
    + by rewrite lookup_insert_ne.
Qed.

Lemma addGroup_lookup k1 l : forall q k,
  default [] (foldl (fun q v => Url.Add q k1 v) q l !! k)
  = default [] (q !! k) ++ (if decide (k1 = k) then l else []).
Proof.
  induction l as [|x l IH]; intros q k.
  - simpl. destruct (decide (k1 = k)); by rewrite app_nil_r.
  - simpl. rewrite IH. unfold Url.Add.
    destruct (decide (k1 = k)) as [->|Hne].
    + rewrite lookup_insert_eq. simpl. by rewrite <- (assoc_L (++)).
    + by rewrite lookup_insert_ne.
Qed.

Lemma wfValues_addGroup k1 l : forall q,
  wfValues q -> wfValues (foldl (fun q v => Url.Add q k1 v) q l).
Proof.
  induction l as [|x l IH]; intros q Hwf; [exact Hwf|].
  simpl. apply IH. by apply wfValues_Add.
Qed.

Lemma wfValues_addGroups entries : forall q, wfValues q -> wfValues (addGroups q entries).
Proof.
  induction entries as [|[k l] entries IH]; intros q Hwf; [exact Hwf|].
  simpl. apply IH. by apply wfValues_addGroup.
Qed.

Lemma addGroups_outside entries k : forall q,
  k ∉ entries.*1 -> default [] (addGroups q entries !! k) = default [] (q !! k).
Proof.
  induction entries as [|[k1 l1] entries IH]; intros q Hk; [reflexivity|].
  rewrite fmap_cons, not_elem_of_cons in Hk. destruct Hk as [Hne Hk]. simpl in *.
  rewrite IH by exact Hk. rewrite addGroup_lookup.
  rewrite decide_False by done. by rewrite app_nil_r.
Qed.

Lemma addGroups_inside entries k l : forall q,
  NoDup entries.*1 -> (k, l) ∈ entries ->
  default [] (addGroups q entries !! k) = default [] (q !! k) ++ l.
Proof.
  induction entries as [|[k1 l1] entries IH]; intros q Hnd Hin.
  - by apply elem_of_nil in Hin.
  - rewrite fmap_cons in Hnd. apply NoDup_cons in Hnd as [Hnotin Hnd].
    apply elem_of_cons in Hin as [[= -> ->]|Hin]; simpl in *.
    + rewrite addGroups_outside by exact Hnotin. rewrite addGroup_lookup.
      by rewrite decide_True.
    + rewrite IH by assumption. rewrite addGroup_lookup.
      rewrite decide_False; [by rewrite app_nil_r|].
      intros ->. apply Hnotin. apply list_elem_of_fmap. by exists (k, l).
Qed.

(** The loops of [prepareURLWithStruct], whatever the order of the visit:
    under every key the values of the struct follow the values the query
    had. *)
Lemma addGroups_params (params : gmap string (list string)) q k :
  default [] (addGroups q (order (list string) params) !! k)
  = default [] (q !! k) ++ default [] (params !! k).
Proof.
  destruct (params !! k) as [l|] eqn:Hk; simpl.
  - apply addGroups_inside.
    + rewrite order_perm. apply NoDup_fst_map_to_list.
    + rewrite order_perm. by apply elem_of_map_to_list.
  - rewrite app_nil_r. apply addGroups_outside.
    rewrite order_perm. intros Hin.
    apply list_elem_of_fmap in Hin as ([k' x] & -> & Hin).
    apply elem_of_map_to_list in Hin. simpl in Hk. congruence.
Qed.

(** X16. The structured-object merge on a base URL that parses with a
    plain host, has no fragment and a query string that parses: the text
    returned is the head the URL prints, ["?"], and a new query string,
    which follows the first ["?"] of the text and is the raw query of the
    new URL whenever the text parses; under every key the new query string
    holds the values the base URL had followed by the values of the struct
    in declaration order. *)
Lemma struct_values_added originUrl fields u q0 :
  Url.Parse originUrl = (Some u, None) ->
  Url.portable originUrl = true ->
  Url.Fragment u = EmptyString ->
  Url.ParseQuery (Url.RawQuery u) = (q0, None) ->
  exists newUrl q',
    prepareURLWithStruct order originUrl (Query.Struct fields) = (newUrl, None)
    /\ newUrl = Url.stringHead u +:+ String "?" (Url.Encode q')
    /\ Strings.Count "?" (Url.stringHead u) = 0
    /\ Strings.Count "#" newUrl = 0
    /\ (forall u', Url.Parse newUrl = (Some u', None) ->
          Url.Encode q' <> EmptyString -> Url.RawQuery u' = Url.Encode q')
    /\ Url.ParseQuery (Url.Encode q') = (q', None)
    /\ forall k, default [] (q' !! k) = default [] (q0 !! k) ++ valuesOf k fields.
Proof.
  intros Hparse _ Hfrag Hq0.
  pose proof (Parse_head_clean _ _ "?" Hparse eq_refl) as Hq.
  pose proof (Parse_head_clean _ _ "#" Hparse eq_refl) as Hh.
  set (params := addAll ∅ fields).
  set (q' := addGroups q0 (order (list string) params)).
  assert (Hwf : wfValues q').
  { apply wfValues_addGroups.
    pose proof (wfValues_ParseQuery (Url.RawQuery u)) as Hw. by rewrite Hq0 in Hw. }
  assert (Hlook : forall k, default [] (q' !! k) = default [] (q0 !! k) ++ valuesOf k fields).
  { intros k. unfold q'. rewrite addGroups_params. f_equal.
    unfold params. rewrite addAll_lookup. by rewrite lookup_empty. }
  exists (Url.stringHead u +:+ String "?" (Url.Encode q')), q'.
  repeat split.
  - unfold prepareURLWithStruct. rewrite Hparse, Hq0. simpl Query.Values. cbv iota.
    by rewrite <- (mergeParams_no_fragment u q' Hq Hfrag).
  - exact Hq.
  - rewrite Count_app, Count_cons, Hh, (Encode_no_mark "#") by done. reflexivity.
  - intros u' Hu' Hne.
    by eapply Parse_query; [exact Hq|exact Hh| | | |exact Hu']; try apply Encode_no_mark.
  - by apply ParseQuery_Encode.
  - exact Hlook.
Qed.

End MergeFacts.

(* ===================================================================== *)
(** * Further properties: forms and repeated merges *)
(* ===================================================================== *)

Section FormFacts.

Variable order : forall V : Type, gmap string V -> list (string * V).
Hypothesis order_perm : forall (V : Type) (m : gmap string V), order V m ≡ₚ map_to_list m.

(** The loop that sets every entry of a map, as one map operation. *)
Lemma setEach_union (P : gmap string string) (q : gmap string (list string)) :
  setEach q (order string P) = formValues P ∪ q.
Proof.
  apply map_eq. intros k. destruct (setEach_params order order_perm P q) as [Hin Hout].
  unfold formValues. rewrite lookup_union, lookup_fmap.
  destruct (P !! k) as [x|] eqn:Hk.
  - rewrite (Hin k x Hk). simpl. by destruct (q !! k).
  - rewrite (Hout k Hk). simpl. by destruct (q !! k).
Qed.

Lemma wfValues_formValues data : wfValues (formValues data).
Proof.
  intros k l. unfold formValues. rewrite lookup_fmap.
  destruct (data !! k); simpl; [by intros [= <-]|discriminate].
Qed.

Lemma sortedKeys_formValues data : Url.sortedKeys (formValues data) = keysAscending data.
Proof.
  unfold Url.sortedKeys, keysAscending, formValues.
  rewrite map_to_list_fmap, <- list_fmap_compose. f_equal.
Qed.

Lemma Encode_formValues data : Url.Encode (formValues data) = formText data.
Proof.
  unfold Url.Encode, formText. rewrite sortedKeys_formValues. f_equal.
  assert (Hkeys : forall k, k ∈ keysAscending data -> is_Some (data !! k)).
  { intros k. unfold keysAscending. rewrite merge_sort_Permutation.
    intros ([k' x] & -> & Hin)%list_elem_of_fmap.
    apply elem_of_map_to_list in Hin. by exists x. }
  induction (keysAscending data) as [|k keys IH]; [reflexivity|].
  cbn [mbind list_bind]. rewrite fmap_cons.
  rewrite IH by (intros k' Hk'; apply Hkeys; by apply list_elem_of_further).
  destruct (Hkeys k ltac:(apply list_elem_of_here)) as [x Hx].
  unfold formValues at 1. rewrite lookup_fmap, Hx. reflexivity.
Qed.

Lemma encodeParams_formValues data :
  encodeParams order (Some data) = Url.Encode (formValues data).
Proof.
  unfold encodeParams. simpl rangeOf. fold (setEach ∅ (order string data)).
  rewrite setEach_union. by rewrite (right_id_L ∅ (∪)).
Qed.

(** X1. The URL-encoded form of a data map does not depend on the order in
    which the map is visited: it is the escaped [key=value] pairs by ascending
    key, joined with ["&"]; a nil map gives the empty text. *)
Theorem encodeParams_text data :
  encodeParams order (Some data) = formText data
  /\ encodeParams order None = EmptyString.
Proof.
  split; [|reflexivity]. by rewrite encodeParams_formValues, Encode_formValues.
Qed.

(** X2. The body [prepareDataBody] builds never fails, and parsing it as a
    query string gives back the data map: every key with exactly its one
    value, and no other key. *)
Theorem data_body_round_trip data :
  exists s,
    prepareDataBody order (Some data) = (Some (StringsReader s), None)
    /\ Url.ParseQuery s = (formValues data, None).
Proof.
  exists (encodeParams order (Some data)). split; [reflexivity|].
  rewrite encodeParams_formValues. apply ParseQuery_Encode, wfValues_formValues.
Qed.

Lemma prepareURL_merged originUrl (P : gmap string string) u q0 :
  P <> ∅ ->
  Url.Parse originUrl = (Some u, None) ->
  Url.Fragment u = EmptyString ->
  Url.ParseQuery (Url.RawQuery u) = (q0, None) ->
  prepareURL order originUrl (Some P)
  = (Url.stringHead u +:+ String "?" (Url.Encode (formValues P ∪ q0)), None).
Proof.
  intros Hne Hparse Hfrag Hq0.
  pose proof (Parse_head_clean _ _ "?" Hparse eq_refl) as Hq.
  unfold prepareURL. simpl lenMap.
  destruct (Nat.eqb_spec (size P) 0) as [Hz|_].
  { apply map_size_empty_iff in Hz. contradiction. }
  rewrite Hparse, Hq0. simpl rangeOf. fold (setEach q0 (order string P)).
  by rewrite setEach_union, (mergeParams_no_fragment u _ Hq Hfrag).
Qed.

Lemma wfValues_union (m1 m2 : gmap string (list string)) :
  wfValues m1 -> wfValues m2 -> wfValues (m1 ∪ m2).
Proof.
  intros H1 H2 k l Hk. apply lookup_union_Some_raw in Hk as [Hk|[_ Hk]].
  - by eapply H1.
  - by eapply H2.
Qed.

Lemma merged_query_not_empty (P : gmap string string) q0 :
  P <> ∅ -> wfValues q0 ->
  wfValues (formValues P ∪ q0) /\ Url.Encode (formValues P ∪ q0) <> EmptyString.
Proof.
  intros Hne Hwf0.
  assert (Hwf : wfValues (formValues P ∪ q0)).
  { apply wfValues_union; [apply wfValues_formValues|exact Hwf0]. }
  split; [exact Hwf|].
  destruct (map_choose P Hne) as (k1 & x1 & Hk1).
  eapply (Encode_not_empty _ k1 [x1]); [exact Hwf|].
  apply lookup_union_Some_l. unfold formValues. by rewrite lookup_fmap, Hk1.
Qed.

(** X3. Merging parameter maps one after the other gives the query string
    of merging their union, the later map winning on a shared key.  Let the
    base URL parse with a plain host, have no fragment and a query string
    that parses, and let the text the first merge returns parse again, with
    a plain host.  Then [prepareURL] applied with [P1] and then with [P2]
    returns the head the intermediate URL prints, ["?"], and the very query
    string it returns when applied once with [P2 ∪ P1]; that query string
    parses to the union.  Merging the same map a second time leaves the
    query string as it is. *)
Theorem prepareURL_twice originUrl (P1 P2 : gmap string string) u q0 u1 :
  P1 <> ∅ -> P2 <> ∅ ->
  Url.Parse originUrl = (Some u, None) ->
  Url.portable originUrl = true ->
  Url.Fragment u = EmptyString ->
  Url.ParseQuery (Url.RawQuery u) = (q0, None) ->
  Url.Parse (prepareURL order originUrl (Some P1)).1 = (Some u1, None) ->
  Url.portable (prepareURL order originUrl (Some P1)).1 = true ->
  (exists query,
     prepareURL order (prepareURL order originUrl (Some P1)).1 (Some P2)
     = (Url.stringHead u1 +:+ String "?" query, None)
     /\ prepareURL order originUrl (Some (P2 ∪ P1))
        = (Url.stringHead u +:+ String "?" query, None)
     /\ Url.ParseQuery query = (formValues (P2 ∪ P1) ∪ q0, None))
  /\ (exists query,
        prepareURL order originUrl (Some P1)
        = (Url.stringHead u +:+ String "?" query, None)
        /\ prepareURL order (prepareURL order originUrl (Some P1)).1 (Some P1)
           = (Url.stringHead u1 +:+ String "?" query, None)).
Proof.
  intros Hne1 Hne2 Hparse _ Hfrag Hq0.
  rewrite (prepareURL_merged originUrl P1 u q0) by assumption. simpl.
  intros Hparse1 _.
  pose proof (Parse_head_clean _ _ "?" Hparse eq_refl) as Hq.
  pose proof (Parse_head_clean _ _ "#" Hparse eq_refl) as Hh.
  assert (Hwf0 : wfValues q0).
  { pose proof (wfValues_ParseQuery (Url.RawQuery u)) as Hw. by rewrite Hq0 in Hw. }
  destruct (merged_query_not_empty P1 q0 Hne1 Hwf0) as [Hwf1 Henc1].
  destruct (Parse_query _ _ u1 Hq Hh (Encode_no_mark "?" _ eq_refl)
              (Encode_no_mark "#" _ eq_refl) Henc1 Hparse1) as (Hraw & _ & Hfrag1 & _).
  assert (Hq1 : Url.ParseQuery (Url.RawQuery u1) = (formValues P1 ∪ q0, None)).
  { rewrite Hraw. by apply ParseQuery_Encode. }
  assert (Hgen : forall P : gmap string string, P <> ∅ ->
            prepareURL order (Url.stringHead u +:+ String "?" (Url.Encode (formValues P1 ∪ q0)))
              (Some P)
            = (Url.stringHead u1 +:+ String "?" (Url.Encode (formValues (P ∪ P1) ∪ q0)), None)).
  { intros P HneP.
    rewrite (prepareURL_merged _ P u1 (formValues P1 ∪ q0)) by assumption.
    unfold formValues. by rewrite map_fmap_union, (assoc_L (∪)). }
  split.
  - exists (Url.Encode (formValues (P2 ∪ P1) ∪ q0)). split; [by apply Hgen|]. split.
    + apply prepareURL_merged; try assumption.
      intros Hempty. apply map_positive_l in Hempty. contradiction.
    + apply ParseQuery_Encode. apply merged_query_not_empty; [|exact Hwf0].
      intros Hempty. apply map_positive_l in Hempty. contradiction.
  - exists (Url.Encode (formValues P1 ∪ q0)). split; [reflexivity|].
    rewrite (Hgen P1 Hne1). by rewrite (idemp_L (∪)).
Qed.

End FormFacts.

(* ===================================================================== *)
(** * Further properties: the multipart body and its streams *)
(* ===================================================================== *)

Section MultipartFacts.

Variable order : forall V : Type, gmap string V -> list (string * V).
Variable boundary : string.

Lemma partsText_app b l1 : forall started l2,
  partsText b started (l1 ++ l2)
  = partsText b started l1
    +:+ partsText b (match l1 with [] => started | _ => true end) l2.
Proof.
  induction l1 as [|[h c] l1 IH]; intros started l2; [reflexivity|].
  simpl. rewrite IH. rewrite !str_app_assoc.
  by destruct l1.
Qed.

Lemma fileParts_cons f c files :
  FileContent f = Some c ->
  fileParts (f :: files) = (fileHeaderLines f, rc_data c) :: fileParts files.
Proof. intros Hc. unfold fileParts. simpl. by rewrite Hc. Qed.

(** What the first loop has written when it runs to its end. *)
Lemma filesLoop_text files : forall writer log log' writer',
  filesLoop files writer log = Ret (log', inl writer') ->
  Multipart.buf writer'
  = Multipart.buf writer
    +:+ partsText (Multipart.boundary writer) (Multipart.lastpart writer) (fileParts files)
  /\ Multipart.boundary writer' = Multipart.boundary writer
  /\ Multipart.lastpart writer'
     = match fileParts files with [] => Multipart.lastpart writer | _ => true end.
Proof.
  induction files as [|f files IH]; intros writer log log' writer'.
  - simpl. intros [= <- <-]. by rewrite str_app_nil_r.
  - destruct (FileContent f) as [c|] eqn:Hc; [|simpl; by rewrite Hc].
    rewrite (fileParts_cons f c files Hc). simpl. rewrite Hc.
    unfold io_Copy; simpl.
    destruct (rc_readErr c); [discriminate|].
    destruct (rc_closeErr c); [discriminate|].
    intros Hloop. apply IH in Hloop as (-> & -> & ->). simpl.
    unfold fileHeaderLines. rewrite !str_app_assoc.
    split; [reflexivity|]. split; [reflexivity|]. by destruct (fileParts files).
Qed.

(** What the second loop has written. *)
Lemma dataLoop_text fields : forall writer writer',
  dataLoop fields writer = inl writer' ->
  Multipart.buf writer'
  = Multipart.buf writer
    +:+ partsText (Multipart.boundary writer) (Multipart.lastpart writer) (fieldParts fields)
  /\ Multipart.boundary writer' = Multipart.boundary writer.
Proof.
  induction fields as [|[k v] fields IH]; intros writer writer'.
  - simpl. intros [= <-]. by rewrite str_app_nil_r.
  - simpl. intros Hloop. apply IH in Hloop as (-> & ->). simpl.
    unfold fieldHeaderLines. rewrite !str_app_assoc. by split.
Qed.

(** X4. When multipart encoding succeeds, the body is the file parts in list
    order, each with its field name, file name and the bytes of its stream,
    then one part per data field in the order the map was visited, then the
    closing delimiter; the Content-Type returned names the same boundary. *)
Theorem multipart_body_text files data log log' body ct :
  prepareFilesBody order boundary files data log = Ret (log', (body, ct, None)) ->
  body = Some (BufferReader
                 (partsText boundary false (fileParts files ++ fieldParts (rangeOf order data))
                  +:+ closingText boundary))
  /\ ct = Multipart.FormDataContentType (Multipart.NewWriter boundary).
Proof.
  intros Hok. split; [|by eapply prepareFilesBody_contentType].
  unfold prepareFilesBody in Hok.
  destruct (filesLoop files (Multipart.NewWriter boundary) log)
    as [[l [wr|e]]|pn] eqn:Hloop; simpl in Hok; try discriminate.
  destruct (dataLoop (rangeOf order data) wr) as [wr'|e] eqn:Hdata; [|discriminate].
  injection Hok as _ <- _.
  apply filesLoop_text in Hloop as (Hbuf & Hb & Hlast).
  apply dataLoop_text in Hdata as (Hbuf' & Hb'). simpl in *.
  rewrite Hbuf', Hbuf, Hb', Hb, Hlast, partsText_app.
  unfold closingText. by rewrite !str_app_assoc.
Qed.

(** X5. When multipart encoding succeeds, every file of the list has a
    stream and [Close] has been called on the streams once per file, in list
    order, after everything the log held before. *)
Theorem files_closed_on_success files data log log' body ct :
  prepareFilesBody order boundary files data log = Ret (log', (body, ct, None)) ->
  log' = log ++ streamIds files
  /\ length (streamIds files) = length files.
Proof.
  unfold prepareFilesBody.
  destruct (filesLoop files (Multipart.NewWriter boundary) log)
    as [[l [wr|e]]|pn] eqn:Hloop; simpl; try discriminate.
  destruct (dataLoop (rangeOf order data) wr) as [wr'|e]; [|discriminate].
  intros [= <- _ _]. by apply filesLoop_success_closes_all in Hloop.
Qed.

Lemma streamIds_take_S f c files n :
  FileContent f = Some c ->
  streamIds (take (S n) (f :: files)) = rc_id c :: streamIds (take n files).
Proof. intros Hc. simpl. by apply streamIds_cons. Qed.

(** The close log of the first loop, however it ends. *)
Lemma filesLoop_closed_prefix files : forall writer log log' r,
  filesLoop files writer log = Ret (log', r) ->
  exists n, n <= length files /\ log' = log ++ streamIds (take n files).
Proof.
  induction files as [|f files IH]; intros writer log log' r.
  - simpl. intros [= <- _]. exists 0. by rewrite app_nil_r.
  - simpl. destruct (FileContent f) as [c|] eqn:Hc; [|discriminate].
    unfold io_Copy; simpl.
    destruct (rc_readErr c).
    { intros [= <- _]. exists 0. split; [lia|]. by rewrite app_nil_r. }
    destruct (rc_closeErr c).
    { intros [= <- _]. exists 1. split; [lia|].
      rewrite (streamIds_take_S f c files 0 Hc). by rewrite take_0. }
    intros Hloop. apply IH in Hloop as (n & Hn & ->).
    exists (S n). split; [lia|].
    rewrite (streamIds_take_S f c files n Hc). by rewrite <- (assoc_L (++)).
Qed.

(** X6. However multipart encoding returns, the streams it has closed are
    those of the first files of the list, for some number of them, each
    closed once and in list order; and when it returns an error, the body is
    nil and the Content-Type is empty. *)
Theorem files_closed_in_order files data log log' body ct err :
  prepareFilesBody order boundary files data log = Ret (log', (body, ct, err)) ->
  (exists n, n <= length files /\ log' = log ++ streamIds (take n files))
  /\ (is_Some err -> body = None /\ ct = EmptyString).
Proof.
  unfold prepareFilesBody.
  destruct (filesLoop files (Multipart.NewWriter boundary) log)
    as [[l r]|pn] eqn:Hloop; simpl; [|discriminate].
  apply filesLoop_closed_prefix in Hloop as Hprefix.
  destruct r as [wr|e].
  - destruct (dataLoop (rangeOf order data) wr) as [wr'|e].
    + intros [= <- <- <- <-]. split; [exact Hprefix|]. by intros [? [=]].
    + intros [= <- <- <- <-]. by split.
  - intros [= <- <- <- <-]. by split.
Qed.

End MultipartFacts.

(* ===================================================================== *)
(** * Further properties: the assembled request *)
(* ===================================================================== *)

Section AssemblyFacts.

Variable order : forall V : Type, gmap string V -> list (string * V).
Hypothesis order_perm : forall (V : Type) (m : gmap string V), order V m ≡ₚ map_to_list m.
Variable boundary : string.
Context {J : Type} `{CookieJarOps J}.

(** The header map after the body stage: the map as it was, or the map with
    one entry written under [Content-Type] or [Content-type]. *)
Lemma prepareBody_headers args log b :
  prepareBody order boundary args log = Ret b ->
  (inferringStrategyActive args = false /\ br_headers b = Headers args)
  \/ (inferringStrategyActive args = true
      /\ exists hm k v, Headers args = Some hm /\ br_headers b = Some (<[k := v]> hm)
                        /\ (k = "Content-Type" \/ k = "Content-type")).
Proof.
  unfold prepareBody, inferringStrategyActive.
  destruct (Body args); [intros [= <-]; by left|].
  destruct (Json args) as [j|].
  { destruct (Headers args) as [hm|]; simpl; [|discriminate].
    destruct (prepareJsonBody j). intros [= <-]. right. split; [done|].
    exists hm, "Content-Type", defaultJsonType. auto. }
  destruct (Files args) as [fs|].
  { destruct (prepareFilesBody order boundary fs (Data args) log)
      as [[l [[bd ct] e]]|pn]; simpl; [|discriminate].
    destruct (Headers args) as [hm|]; simpl; [|discriminate].
    intros [= <-]. right. split; [done|]. exists hm, "Content-type", ct. auto. }
  destruct (Data args).
  { destruct (Headers args) as [hm|]; simpl; [|discriminate].
    intros [= <-]. right. split; [done|].
    exists hm, "Content-Type", defaultContentType. auto. }
  intros [= <-]. by left.
Qed.

(** X7. Every entry of the header map, as the argument bag holds it after
    the call, can be read back from the assembled request under any spelling
    of its name with the same canonical form, provided no other key of the
    map has that canonical form. *)
Theorem header_read_back method reqUrl args (w : World J) p r hm k v k' :
  prepareRequest order boundary method reqUrl args w = Ret p ->
  p_req p = Some r ->
  p_headers p = Some hm ->
  hm !! k = Some v ->
  hasCanonicalKey (Some (delete k hm)) (Http.CanonicalMIMEHeaderKey k) = false ->
  Http.CanonicalMIMEHeaderKey k' = Http.CanonicalMIMEHeaderKey k ->
  Http.Header_Get (Http.Header_ r) k' = v.
Proof.
  intros Hp Hr Hh Hk Hno Hk'.
  destruct (prepareRequest_Some _ _ _ _ _ _ _ _ Hp Hr)
    as (u & b & r0 & r1 & _ & _ & _ & _ & _ & -> & Hph & _).
  rewrite Hph in Hh. unfold Http.Header_Get. simpl. rewrite Hh, Hk'. simpl.
  by rewrite (setAll_perm_single (Http.CanonicalMIMEHeaderKey k) hm _ _ k v
                (order_perm _ hm) Hk eq_refl Hno).
Qed.

(** X8. An [Authorization] entry of the header map wins over [Auth]: the
    header loop runs after the auth step, so the assembled request carries
    the entry's value, whatever [Auth] holds. *)
Theorem authorization_header_wins method reqUrl args (w : World J) p r hm v :
  Headers args = Some hm ->
  hm !! "Authorization" = Some v ->
  hasCanonicalKey (Some (delete "Authorization" hm)) "Authorization" = false ->
  prepareRequest order boundary method reqUrl args w = Ret p ->
  p_req p = Some r ->
  Http.Header_Get (Http.Header_ r) "Authorization" = v.
Proof.
  intros Hh Hv Hno Hp Hr.
  destruct (prepareRequest_Some _ _ _ _ _ _ _ _ Hp Hr)
    as (u & b & r0 & r1 & _ & Hbody & _ & _ & _ & -> & _ & _).
  unfold Http.Header_Get. simpl.
  change (Http.CanonicalMIMEHeaderKey "Authorization") with "Authorization".
  apply prepareBody_headers in Hbody as [[_ Hsame]|(_ & hm' & k & x & Hh' & Hnew & Hk)].
  - rewrite Hsame, Hh. simpl.
    by rewrite (setAll_perm_single "Authorization" hm _ _ "Authorization" v
                  (order_perm _ hm) Hv eq_refl Hno).
  - rewrite Hh in Hh'. injection Hh' as <-. rewrite Hnew. simpl.
    assert (Hne : k <> "Authorization") by (destruct Hk as [->| ->]; discriminate).
    assert (Hck : Http.CanonicalMIMEHeaderKey k <> "Authorization")
      by (destruct Hk as [->| ->]; discriminate).
    rewrite (setAll_perm_single "Authorization" (<[k := x]> hm) _ _ "Authorization" v
               (order_perm _ _)); [reflexivity| |reflexivity|].
    + by rewrite lookup_insert_ne.
    + rewrite delete_insert_ne by done. by apply hasCanonicalKey_insert_other.
Qed.

Lemma NewRequest_result method url body :
  (exists r, Http.NewRequest method url body = (Some r, None))
  \/ (exists e, Http.NewRequest method url body = (None, Some e)).
Proof.
  unfold Http.NewRequest. destruct (negb _); [right; by eexists|].
  destruct (Parse_result url) as [[u ->]|[e ->]]; [left|right]; by eexists.
Qed.

Lemma applyAuth_keeps auth req req' :
  applyAuth auth req = Ret req' -> (req = None <-> req' = None).
Proof.
  destruct auth as [a|]; simpl; [|by intros [= ->]].
  destruct a as [|x [|y a]]; simpl; try discriminate.
  destruct req; [|discriminate]. by intros [= <-].
Qed.

Lemma applyHeaders_keeps entries : forall req req',
  applyHeaders entries req = Ret req' -> (req = None <-> req' = None).
Proof.
  induction entries as [|[k v] entries IH]; intros req req'; simpl.
  - by intros [= ->].
  - destruct req as [r|]; [|discriminate].
    intros Hrest. apply IH in Hrest. split; [discriminate|]. intros Hn.
    apply Hrest in Hn. discriminate.
Qed.

(** X9. Whenever [prepareRequest] returns, it returns a request or an
    error, never both and never neither. *)
Theorem request_or_error method reqUrl args (w : World J) p :
  prepareRequest order boundary method reqUrl args w = Ret p ->
  (is_Some (p_req p) /\ p_err p = None) \/ (p_req p = None /\ is_Some (p_err p)).
Proof.
  unfold prepareRequest.
  destruct (resolveURL order reqUrl args) as [u [e|]].
  { intros [= <-]. right. by split. }
  destruct (prepareBody order boundary args (closed w)) as [b|pn]; [|discriminate].
  simpl. destruct (br_err b).
  { intros [= <-]. right. by split. }
  destruct (Http.NewRequest method u (br_body b)) as [req err] eqn:Hnew.
  destruct (applyAuth (Auth args) req) as [req1|pn] eqn:Hauth; [|discriminate].
  simpl.
  destruct (applyHeaders (rangeOf order (br_headers b)) req1) as [req2|pn] eqn:Hhdr;
    [|discriminate].
  simpl.
  match goal with
  | |- context [prepareCookies order args req2 ?w'] =>
      destruct (prepareCookies order args req2 w') as [w2|pn]; [|discriminate]
  end.
  simpl. intros [= <-]. simpl.
  apply applyAuth_keeps in Hauth. apply applyHeaders_keeps in Hhdr.
  destruct (NewRequest_result method u (br_body b)) as [[r Hr]|[e He]].
  - rewrite Hr in Hnew. injection Hnew as <- <-. left. split; [|reflexivity].
    destruct req2 as [r2|]; [by eexists|].
    exfalso. assert (Hn : Some r = None) by (apply Hauth, Hhdr; reflexivity).
    discriminate.
  - rewrite He in Hnew. injection Hnew as <- <-. right. split; [|by eexists].
    apply Hhdr, Hauth. reflexivity.
Qed.

Lemma prepareBody_log_kept args log b :
  filesActive args = false ->
  prepareBody order boundary args log = Ret b -> br_log b = log.
Proof.
  unfold prepareBody, filesActive.
  destruct (Body args); [by intros _ [= <-]|].
  destruct (Json args) as [j|].
  { intros _. destruct (Headers args); simpl; [|discriminate].
    destruct (prepareJsonBody j). by intros [= <-]. }
  destruct (Files args); [discriminate|]. intros _.
  destruct (Data args); [|by intros [= <-]].
  destruct (Headers args); simpl; [|discriminate]. by intros [= <-].
Qed.

Lemma prepareCookies_frame args req (w w' : World J) :
  prepareCookies order args req w = Ret w' ->
  closed w' = closed w
  /\ (CookieJar args = None -> clients w' = clients w)
  /\ (CookieJar args = None -> Cookies args = None -> jars w' = jars w)
  /\ (is_Some (CookieJar args) -> jars w' = jars w).
Proof.
  unfold prepareCookies.
  destruct (CookieJar args) as [jar|].
  - destruct (Client args) as [c|]; [|discriminate].
    destruct (clients w !! c); [|discriminate]. intros [= <-]. simpl.
    repeat split; try done.
  - destruct (Cookies args) as [m|].
    + destruct (Client args) as [c|]; [|discriminate].
      destruct (clients w !! c) as [cl|]; [|discriminate].
      destruct req as [r|]; [|discriminate].
      destruct (Jar cl) as [j|]; [|discriminate].
      destruct (jars w !! j); [|discriminate]. intros [= <-]. simpl.
      repeat split; try done.
    + intros [= <-]. repeat split; try done.
Qed.

(** X10. What [prepareRequest] leaves alone when it returns.  File streams
    are closed only under the files strategy; clients and jars are touched
    only when a cookie jar or a cookie map is supplied, and an explicit jar
    changes no jar's content; the header map of the bag is changed only
    under a strategy that infers a Content-Type, and then only under the key
    [Content-Type] or [Content-type]. *)
Theorem prepareRequest_frame method reqUrl args (w : World J) p :
  prepareRequest order boundary method reqUrl args w = Ret p ->
  (filesActive args = false -> closed (p_world p) = closed w)
  /\ (CookieJar args = None -> Cookies args = None ->
      clients (p_world p) = clients w /\ jars (p_world p) = jars w)
  /\ (is_Some (CookieJar args) -> jars (p_world p) = jars w)
  /\ (inferringStrategyActive args = false -> p_headers p = Headers args)
  /\ (forall hm hm' k, Headers args = Some hm -> p_headers p = Some hm' ->
        k <> "Content-Type" -> k <> "Content-type" -> hm' !! k = hm !! k).
Proof.
  unfold prepareRequest.
  destruct (resolveURL order reqUrl args) as [u [e|]].
  { intros [= <-]. simpl. repeat split; try done.
    intros hm hm' k -> [= <-]. done. }
  destruct (prepareBody order boundary args (closed w)) as [b|pn] eqn:Hbody;
    [|discriminate].
  pose proof (prepareBody_headers _ _ _ Hbody) as Hshape.
  assert (Hlog : filesActive args = false -> br_log b = closed w)
    by (intros Hf; by eapply prepareBody_log_kept).
  assert (Hkeys : forall hm hm' k, Headers args = Some hm -> br_headers b = Some hm' ->
            k <> "Content-Type" -> k <> "Content-type" -> hm' !! k = hm !! k).
  { intros hm hm' k Hh Hh' Hk1 Hk2.
    destruct Hshape as [[_ Hsame]|(_ & hm0 & k0 & x & Hh0 & Hnew & Hk0)].
    - rewrite Hsame, Hh in Hh'. by injection Hh' as <-.
    - rewrite Hh in Hh0. injection Hh0 as <-. rewrite Hnew in Hh'. injection Hh' as <-.
      rewrite lookup_insert_ne; [done|]. destruct Hk0 as [->| ->]; done. }
  assert (Hsame : inferringStrategyActive args = false -> br_headers b = Headers args).
  { intros Hi. destruct Hshape as [[_ Hs]|(Ha & _)]; [exact Hs|congruence]. }
  simpl. destruct (br_err b).
  { intros [= <-]. simpl. repeat split; auto. }
  destruct (Http.NewRequest method u (br_body b)) as [req err].
  destruct (applyAuth (Auth args) req) as [req1|pn]; [|discriminate]. simpl.
  destruct (applyHeaders (rangeOf order (br_headers b)) req1) as [req2|pn];
    [|discriminate].
  simpl.
  match goal with
  | |- context [prepareCookies order args req2 ?w'] =>
      destruct (prepareCookies order args req2 w') as [w2|pn] eqn:Hck; [|discriminate]
  end.
  apply prepareCookies_frame in Hck as (Hclosed & Hclients & Hjars & Hjars').
  simpl in *. intros [= <-]. simpl.
  split; [intros Hf; rewrite Hclosed; by apply Hlog|].
  split; [intros Hj Hc; split; [by apply Hclients|by apply Hjars]|].
  split; [exact Hjars'|]. split; [exact Hsame|exact Hkeys].
Qed.

(** X11. With a nil header map, a body strategy that infers a Content-Type
    cannot complete: once the URL stage has succeeded (on a URL with a
    plain host), [prepareRequest] panics instead of returning, on the write
    into the nil map (or, under the files strategy, already on a file
    without a stream). *)
Theorem nil_headers_panic method reqUrl args (w : World J) u :
  Headers args = None ->
  inferringStrategyActive args = true ->
  resolveURL order reqUrl args = (u, None) ->
  Url.portable reqUrl = true ->
  exists pn,
    prepareRequest order boundary method reqUrl args w = Panic pn
    /\ (pn = NilMapAssignment \/ (filesActive args = true /\ pn = NilDereference)).
Proof.
  intros Hh Hact Hu _. unfold prepareRequest. rewrite Hu.
  unfold inferringStrategyActive in Hact. unfold prepareBody, filesActive.
  destruct (Body args); [discriminate|].
  destruct (Json args) as [j|].
  { rewrite Hh. simpl. eexists. split; [reflexivity|]. by left. }
  destruct (Files args) as [fs|].
  { destruct (prepareFilesBody order boundary fs (Data args) (closed w))
      as [[l [[bd ct] e]]|pn] eqn:Hfiles; simpl.
    - rewrite Hh. simpl. eexists. split; [reflexivity|]. by left.
    - eexists. split; [reflexivity|].
      unfold prepareFilesBody in Hfiles.
      destruct (filesLoop fs (Multipart.NewWriter boundary) (closed w))
        as [[l r]|pn'] eqn:Hloop; simpl in Hfiles.
      + destruct r as [wr|e]; [|discriminate].
        destruct (dataLoop (rangeOf order (Data args)) wr); discriminate.
      + injection Hfiles as <-. right. split; [reflexivity|].
        clear -Hloop. revert Hloop.
        generalize (Multipart.NewWriter boundary) (closed w).
        induction fs as [|f fs IH]; intros wr l; simpl; [discriminate|].
        destruct (FileContent f) as [c|]; [|by intros [= <-]].
        unfold io_Copy; simpl.
        destruct (rc_readErr c); [discriminate|].
        destruct (rc_closeErr c); [discriminate|]. apply IH. }
  destruct (Data args); [|discriminate].
  rewrite Hh. simpl. eexists. split; [reflexivity|]. by left.
Qed.

(** X12. The body of the assembled request when no explicit body is given:
    a json string or byte slice is sent as it is and any other json value as
    what marshalling returned; a data map alone is sent as its URL-encoded
    form, the pairs by ascending key whatever the order of the visit; with no
    strategy at all the request has no body. *)
Theorem assembled_body method reqUrl args (w : World J) p r :
  prepareRequest order boundary method reqUrl args w = Ret p ->
  p_req p = Some r ->
  Body args = None ->
  (forall j, Json args = Some j ->
     is_Some (jsonBody j) /\ Http.Body_ r = jsonBody j)
  /\ (forall d, Json args = None -> Files args = None -> Data args = Some d ->
        Http.Body_ r = Some (StringsReader (formText d)))
  /\ (Json args = None -> Files args = None -> Data args = None ->
      Http.Body_ r = None).
Proof.
  intros Hp Hr Hnb.
  destruct (prepareRequest_Some _ _ _ _ _ _ _ _ Hp Hr)
    as (u & b & r0 & r1 & _ & Hbody & Herr & Hnew & Hauth & -> & _ & _).
  simpl. apply NewRequest_inv in Hnew as (_ & _ & Hb0 & _).
  assert (Hb1 : Http.Body_ r1 = br_body b).
  { apply applyAuth_inv in Hauth as (r0' & [= <-] & [[_ ->]|(x & y & rest & _ & ->)]);
      simpl; exact Hb0. }
  rewrite Hb1. clear Hb1 Hb0 Hauth.
  unfold prepareBody in Hbody. rewrite Hnb in Hbody.
  split; [|split].
  - intros j Hj. rewrite Hj in Hbody.
    destruct (Headers args); simpl in Hbody; [|discriminate].
    destruct j as [s|bs|[bs [e|]]]; simpl in Hbody; injection Hbody as <-;
      simpl in *; try discriminate; by split; [eexists|].
  - intros d Hj Hf Hd. rewrite Hj, Hf, Hd in Hbody.
    destruct (Headers args); simpl in Hbody; [|discriminate].
    injection Hbody as <-. simpl.
    by rewrite (encodeParams_formValues order order_perm), Encode_formValues.
  - intros Hj Hf Hd. rewrite Hj, Hf, Hd in Hbody. by injection Hbody as <-.
Qed.

(** X17. A body stage that fails has already written into the header map
    of the bag.  After a successful URL stage (on a URL with a plain host)
    and with a header map at hand: when a json value cannot be marshalled,
    [prepareRequest] returns no request and the error wrapped twice, and
    the map holds [Content-Type: application/json]; when multipart encoding
    fails, it returns no request and the error wrapped once, the map holds
    an empty [Content-type], and the streams closed so far stay closed. *)
Theorem body_failure_side_effects method reqUrl args (w : World J) u hm :
  resolveURL order reqUrl args = (u, None) ->
  Url.portable reqUrl = true ->
  Headers args = Some hm ->
  Body args = None ->
  (forall bs e, Json args = Some (JsonOther (bs, Some e)) ->
     prepareRequest order boundary method reqUrl args w
     = Ret (mkPrepared (mkWorld (clients w) (jars w) (closed w))
              (Some (<["Content-Type" := defaultJsonType]> hm)) None
              (Some (Errorf "prepareRequest error" (Errorf "prepareJsonBody error" e)))))
  /\ (forall fs log' e, Json args = None -> Files args = Some fs ->
        prepareFilesBody order boundary fs (Data args) (closed w)
        = Ret (log', (None, EmptyString, Some e)) ->
        prepareRequest order boundary method reqUrl args w
        = Ret (mkPrepared (mkWorld (clients w) (jars w) log')
                 (Some (<["Content-type" := EmptyString]> hm)) None
                 (Some (Errorf "prepareRequest error" e)))).
Proof.
  intros Hu _ Hh Hb. split.
  - intros bs e Hj. unfold prepareRequest, prepareBody.
    rewrite Hu, Hb, Hj, Hh. reflexivity.
  - intros fs log' e Hj Hf Hfiles. unfold prepareRequest, prepareBody.
    rewrite Hu, Hb, Hj, Hf, Hfiles, Hh. reflexivity.
Qed.

End AssemblyFacts.

(* ===================================================================== *)
(** * Further properties: the pipeline as a whole *)
(* ===================================================================== *)

Section WholeFacts.

Variable boundary : string.
Context {J : Type} `{CookieJarOps J}.

Section OneOrder.

Variable order : forall V : Type, gmap string V -> list (string * V).
Hypothesis order_perm : forall (V : Type) (m : gmap string V), order V m ≡ₚ map_to_list m.

Lemma applyAuth_URL auth r0 r1 :
  applyAuth auth (Some r0) = Ret (Some r1) -> Http.URL r1 = Http.URL r0.
Proof.
  intros Hauth.
  by apply applyAuth_inv in Hauth as (r0' & [= <-] & [[_ ->]|(x & y & rest & _ & ->)]).
Qed.

(** X13. The URL of the assembled request after a parameter merge: for a
    base URL that parses with a plain host, has no fragment and a query
    string that parses, and a non-empty parameter map, the raw query of the
    request's URL is the encoding of the merged query, in which the
    parameters have replaced the values of their keys; the URL has no
    fragment and prints as its head, ["?"], and that query. *)
Theorem request_url_merged method reqUrl args (w : World J) p r P u q0 :
  Params args = Some P ->
  P <> ∅ ->
  Url.Parse reqUrl = (Some u, None) ->
  Url.portable reqUrl = true ->
  Url.Fragment u = EmptyString ->
  Url.ParseQuery (Url.RawQuery u) = (q0, None) ->
  prepareRequest order boundary method reqUrl args w = Ret p ->
  p_req p = Some r ->
  Url.RawQuery (Http.URL r) = Url.Encode (formValues P ∪ q0)
  /\ Url.ParseQuery (Url.RawQuery (Http.URL r)) = (formValues P ∪ q0, None)
  /\ Url.Fragment (Http.URL r) = EmptyString
  /\ Url.String_ (Http.URL r)
     = Url.stringHead (Http.URL r) +:+ String "?" (Url.Encode (formValues P ∪ q0)).
Proof.
  intros HP Hne Hparse _ Hfrag Hq0 Hp Hr.
  destruct (prepareRequest_Some _ _ _ _ _ _ _ _ Hp Hr)
    as (u' & b & r0 & r1 & Hu & _ & _ & Hnew & Hauth & -> & _ & _).
  simpl. rewrite (applyAuth_URL _ _ _ Hauth).
  apply NewRequest_inv in Hnew as (_ & _ & _ & url & Hparse' & ->).
  rewrite resolveURL_params in Hu.
  2:{ rewrite HP. simpl. intros Hz. apply map_size_empty_iff in Hz. contradiction. }
  rewrite HP, (prepareURL_merged order order_perm reqUrl P u q0) in Hu by assumption.
  injection Hu as <-.
  pose proof (Parse_head_clean _ _ "?" Hparse eq_refl) as Hq.
  pose proof (Parse_head_clean _ _ "#" Hparse eq_refl) as Hh.
  assert (Hwf0 : wfValues q0).
  { pose proof (wfValues_ParseQuery (Url.RawQuery u)) as Hw. by rewrite Hq0 in Hw. }
  destruct (merged_query_not_empty P q0 Hne Hwf0) as [Hwf Henc].
  destruct (Parse_query _ _ url Hq Hh (Encode_no_mark "?" _ eq_refl)
              (Encode_no_mark "#" _ eq_refl) Henc Hparse') as (Hraw & _ & Hfrag' & _).
  simpl. rewrite Hraw. repeat split.
  - by apply ParseQuery_Encode.
  - exact Hfrag'.
  - unfold Url.String_. simpl. rewrite Hraw, Hfrag'.
    destruct (String.eqb_spec (Url.Encode (formValues P ∪ q0)) EmptyString) as [He|_];
      [contradiction|].
    rewrite orb_true_r. simpl. by rewrite str_app_nil_r.
Qed.

(** X14. Conditions under which [prepareRequest] returns a request: the URL
    stage succeeds with a URL that parses (hosts plain), the method is a
    token, the files strategy is not the active one, a json value can be
    marshalled, the header map is not nil when a Content-Type is to be
    written, [Auth] is nil or holds at least two strings, and neither a
    cookie jar nor a cookie map is supplied.  Then there is no panic and no
    error, and the request carries the parsed URL, an empty port removed
    from its host. *)
Theorem prepareRequest_succeeds method reqUrl args (w : World J) u url :
  resolveURL order reqUrl args = (u, None) ->
  Url.portable reqUrl = true ->
  Url.Parse u = (Some url, None) ->
  Url.portable u = true ->
  Http.validMethod (effectiveMethod method) = true ->
  filesActive args = false ->
  (forall j, Body args = None -> Json args = Some j -> is_Some (jsonBody j)) ->
  (inferringStrategyActive args = true -> is_Some (Headers args)) ->
  match Auth args with Some a => 2 <= length a | None => True end ->
  CookieJar args = None ->
  Cookies args = None ->
  exists p r,
    prepareRequest order boundary method reqUrl args w = Ret p
    /\ p_req p = Some r /\ p_err p = None
    /\ Http.Method r = effectiveMethod method /\ Http.URL r = Http.normalizeHost url.
Proof.
  intros Hu _ Hparse _ Hm Hfiles Hjson Hhdr Hauth Hjar Hck.
  unfold prepareRequest. rewrite Hu.
  assert (Hbody : exists b, prepareBody order boundary args (closed w) = Ret b
                            /\ br_err b = None).
  { unfold prepareBody. unfold filesActive in Hfiles.
    unfold inferringStrategyActive in Hhdr.
    destruct (Body args); [by eexists|].
    destruct (Json args) as [j|].
    { destruct (Hhdr eq_refl) as [hm ->]. simpl.
      destruct (Hjson j eq_refl eq_refl) as [rd Hrd].
      destruct j as [s|bs|[bs [e|]]]; simpl in *; try discriminate; by eexists. }
    destruct (Files args); [discriminate|].
    destruct (Data args); [|by eexists].
    destruct (Hhdr eq_refl) as [hm ->]. simpl. by eexists. }
  destruct Hbody as (b & -> & Herr). simpl. rewrite Herr.
  unfold Http.NewRequest. fold (effectiveMethod method). rewrite Hm, Hparse. simpl.
  assert (Ha : exists r1, applyAuth (Auth args)
                 (Some (Http.mkRequest (effectiveMethod method) (Http.normalizeHost url)
                          ∅ (br_body b)))
               = Ret (Some r1)
               /\ Http.Method r1 = effectiveMethod method
               /\ Http.URL r1 = Http.normalizeHost url).
  { destruct (Auth args) as [a|]; simpl; [|by eexists].
    destruct a as [|x [|y a]]; simpl in *; try lia. by eexists. }
  destruct Ha as (r1 & -> & Hm1 & Hu1). simpl.
  rewrite applyHeaders_Some. simpl.
  unfold prepareCookies. rewrite Hjar, Hck. simpl.
  eexists. eexists. split; [reflexivity|]. simpl. auto.
Qed.

End OneOrder.

Lemma clashFree_spec hm k1 k2 x v1 v2 :
  clashFree (Some hm) = true ->
  <["Content-Type" := x]> hm !! k1 = Some v1 ->
  <["Content-Type" := x]> hm !! k2 = Some v2 ->
  Http.CanonicalMIMEHeaderKey k1 = Http.CanonicalMIMEHeaderKey k2 ->
  k1 = k2.
Proof.
  unfold clashFree. intros Hfree H1 H2 Hc.
  assert (Hin : forall k v, <["Content-Type" := x]> hm !! k = Some v ->
            In k (map_to_list (<["Content-Type" := EmptyString]> hm)).*1).
  { intros k v Hk. apply list_elem_of_In, list_elem_of_fmap.
    destruct (decide (k = "Content-Type")) as [->|Hne].
    - exists ("Content-Type", EmptyString). split; [reflexivity|].
      apply elem_of_map_to_list, lookup_insert_eq.
    - exists (k, v). split; [reflexivity|].
      apply elem_of_map_to_list. rewrite lookup_insert_ne in * by done. exact Hk. }
  rewrite forallb_forall in Hfree.
  specialize (Hfree k1 (Hin _ _ H1)). rewrite forallb_forall in Hfree.
  specialize (Hfree k2 (Hin _ _ H2)).
  apply String.eqb_eq in Hc. rewrite Hc in Hfree. simpl in Hfree.
  by apply String.eqb_eq.
Qed.

(** With no two keys of one canonical form, the header loop gives the same
    header whatever the order of the visit. *)
Lemma setAll_any_order (hm : gmap string string) l1 l2 h :
  (forall k1 k2 v1 v2, hm !! k1 = Some v1 -> hm !! k2 = Some v2 ->
     Http.CanonicalMIMEHeaderKey k1 = Http.CanonicalMIMEHeaderKey k2 -> k1 = k2) ->
  l1 ≡ₚ map_to_list hm -> l2 ≡ₚ map_to_list hm ->
  setAll h l1 = setAll h l2.
Proof.
  intros Hfree Hp1 Hp2. apply map_eq. intros K.
  destruct (hasCanonicalKey (Some hm) K) eqn:Hhas.
  - unfold hasCanonicalKey in Hhas. apply existsb_exists in Hhas as ([k v] & Hin & Hc).
    apply list_elem_of_In, elem_of_map_to_list in Hin. simpl in Hc.
    apply String.eqb_eq in Hc.
    assert (Hno : hasCanonicalKey (Some (delete k hm)) K = false).
    { apply not_true_iff_false. intros Hex. unfold hasCanonicalKey in Hex.
      apply existsb_exists in Hex as ([k' v'] & Hin' & Hc').
      apply list_elem_of_In, elem_of_map_to_list in Hin'. simpl in Hc'.
      apply String.eqb_eq in Hc'.
      destruct (decide (k' = k)) as [->|Hne]; [by rewrite lookup_delete_eq in Hin'|].
      rewrite lookup_delete_ne in Hin' by done.
      apply Hne. eapply Hfree; eauto. congruence. }
    by rewrite (setAll_perm_single K hm l1 h k v Hp1 Hin Hc Hno),
               (setAll_perm_single K hm l2 h k v Hp2 Hin Hc Hno).
  - by rewrite (setAll_perm_untouched K hm l1 h Hp1 Hhas),
               (setAll_perm_untouched K hm l2 h Hp2 Hhas).
Qed.

Lemma wf_lookup_default (m1 m2 : gmap string (list string)) k :
  wfValues m1 -> wfValues m2 ->
  default [] (m1 !! k) = default [] (m2 !! k) -> m1 !! k = m2 !! k.
Proof.
  intros H1 H2. destruct (m1 !! k) as [l1|] eqn:E1, (m2 !! k) as [l2|] eqn:E2; simpl.
  - by intros ->.
  - intros ->. by apply H1 in E1.
  - intros <-. by apply H2 in E2.
  - done.
Qed.

Section TwoOrders.

Variables order1 order2 : forall V : Type, gmap string V -> list (string * V).
Hypothesis perm1 : forall (V : Type) (m : gmap string V), order1 V m ≡ₚ map_to_list m.
Hypothesis perm2 : forall (V : Type) (m : gmap string V), order2 V m ≡ₚ map_to_list m.

Lemma prepareURL_any_order originUrl params :
  prepareURL order1 originUrl params = prepareURL order2 originUrl params.
Proof.
  unfold prepareURL. destruct (lenMap params =? 0); [reflexivity|].
  destruct (Url.Parse originUrl) as [[u|] [e|]]; try reflexivity.
  destruct (Url.ParseQuery (Url.RawQuery u)) as [q [e|]]; [reflexivity|].
  destruct params as [P|]; [|reflexivity]. simpl rangeOf.
  fold (setEach q (order1 string P)). fold (setEach q (order2 string P)).
  by rewrite (setEach_union order1 perm1), (setEach_union order2 perm2).
Qed.

Lemma prepareURLWithStruct_any_order originUrl obj :
  prepareURLWithStruct order1 originUrl obj = prepareURLWithStruct order2 originUrl obj.
Proof.
  unfold prepareURLWithStruct.
  destruct (Url.Parse originUrl) as [[u|] [e|]]; try reflexivity.
  destruct (Url.ParseQuery (Url.RawQuery u)) as [q [e|]] eqn:Hq; [reflexivity|].
  destruct (Query.Values obj) as [params [e|]]; [reflexivity|].
  fold (addGroups q (order1 (list string) params)).
  fold (addGroups q (order2 (list string) params)).
  f_equal. f_equal. apply map_eq. intros k.
  assert (Hwf : wfValues q).
  { pose proof (wfValues_ParseQuery (Url.RawQuery u)) as Hw. by rewrite Hq in Hw. }
  apply wf_lookup_default; try by apply wfValues_addGroups.
  by rewrite (addGroups_params order1 perm1), (addGroups_params order2 perm2).
Qed.

Lemma encodeParams_any_order data : encodeParams order1 data = encodeParams order2 data.
Proof.
  destruct data as [d|]; [|reflexivity].
  by rewrite (encodeParams_formValues order1 perm1), (encodeParams_formValues order2 perm2).
Qed.

Lemma prepareBody_any_order args log :
  filesActive args = false ->
  prepareBody order1 boundary args log = prepareBody order2 boundary args log.
Proof.
  unfold prepareBody, filesActive.
  destruct (Body args); [reflexivity|].
  destruct (Json args); [reflexivity|].
  destruct (Files args); [discriminate|]. intros _.
  destruct (Data args) as [d|]; [|reflexivity].
  unfold prepareDataBody. by rewrite encodeParams_any_order.
Qed.

Lemma prepareBody_headers_nofiles args log b :
  filesActive args = false ->
  prepareBody order2 boundary args log = Ret b ->
  br_headers b = Headers args
  \/ exists hm v, Headers args = Some hm
                  /\ br_headers b = Some (<["Content-Type" := v]> hm).
Proof.
  unfold prepareBody, filesActive.
  destruct (Body args); [intros _ [= <-]; by left|].
  destruct (Json args) as [j|].
  { intros _. destruct (Headers args) as [hm|]; simpl; [|discriminate].
    destruct (prepareJsonBody j). intros [= <-]. right. by eexists _, _. }
  destruct (Files args); [discriminate|]. intros _.
  destruct (Data args); [|intros [= <-]; by left].
  destruct (Headers args) as [hm|]; simpl; [|discriminate].
  intros [= <-]. right. by eexists _, _.
Qed.

(** X15. The order in which Go visits the maps does not show in the result:
    when the files strategy is not the active one, no cookie map is merged
    into a jar, and no two keys of the header map ([Content-Type] counted
    among them) have the same canonical form, [prepareRequest] gives the
    same outcome for any two orders of visit. *)
Theorem prepareRequest_any_order method reqUrl args (w : World J) :
  filesActive args = false ->
  clashFree (Headers args) = true ->
  (is_Some (CookieJar args) \/ Cookies args = None) ->
  prepareRequest order1 boundary method reqUrl args w
  = prepareRequest order2 boundary method reqUrl args w.
Proof.
  intros Hfiles Hfree Hck. unfold prepareRequest.
  assert (Hurl : resolveURL order1 reqUrl args = resolveURL order2 reqUrl args).
  { unfold resolveURL. rewrite prepareURL_any_order.
    destruct (negb (lenMap (Params args) =? 0)); [reflexivity|].
    destruct (ObjectParam args); [apply prepareURLWithStruct_any_order|reflexivity]. }
  rewrite Hurl. destruct (resolveURL order2 reqUrl args) as [u [e|]]; [reflexivity|].
  rewrite (prepareBody_any_order args (closed w) Hfiles).
  destruct (prepareBody order2 boundary args (closed w)) as [b|pn] eqn:Hbody;
    [|reflexivity].
  simpl. destruct (br_err b); [reflexivity|].
  destruct (Http.NewRequest method u (br_body b)) as [req err].
  destruct (applyAuth (Auth args) req) as [req1|pn]; [|reflexivity]. simpl.
  assert (Hhdr : applyHeaders (rangeOf order1 (br_headers b)) req1
                 = applyHeaders (rangeOf order2 (br_headers b)) req1).
  { destruct (br_headers b) as [hm'|] eqn:Hb; [|reflexivity]. simpl.
    destruct req1 as [r1|].
    - rewrite !applyHeaders_Some. do 3 f_equal.
      apply (setAll_any_order hm'); [|apply perm1|apply perm2].
      intros k1 k2 v1 v2 H1 H2 Hc.
      apply (prepareBody_headers_nofiles _ _ _ Hfiles) in Hbody
        as [Hsame|(hm & x & Hh & Hnew)].
      + rewrite Hb in Hsame. rewrite <- Hsame in Hfree.
        assert (Hins : forall k v, hm' !! k = Some v ->
                  exists v', <["Content-Type" := EmptyString]> hm' !! k = Some v').
        { intros k v Hkv. destruct (decide (k = "Content-Type")) as [->|Hne].
          - rewrite lookup_insert_eq. by eexists.
          - rewrite lookup_insert_ne by done. by eexists. }
        destruct (Hins _ _ H1) as [v1' H1']. destruct (Hins _ _ H2) as [v2' H2'].
        by eapply (clashFree_spec hm' k1 k2 EmptyString).
      + rewrite Hh in Hfree. rewrite Hb in Hnew. injection Hnew as ->.
        by eapply (clashFree_spec hm k1 k2 x).
    - pose proof (Permutation_length (perm1 _ hm')) as Hl1.
      pose proof (Permutation_length (perm2 _ hm')) as Hl2.
      destruct (order1 string hm') as [|[k1 v1] l1], (order2 string hm') as [|[k2 v2] l2];
        simpl in *; try reflexivity; lia. }
  rewrite Hhdr.
  destruct (applyHeaders (rangeOf order2 (br_headers b)) req1) as [req2|pn];
    [|reflexivity].
  simpl. f_equal.
  unfold prepareCookies. destruct (CookieJar args); [reflexivity|].
  destruct Hck as [[? [=]]| ->]. reflexivity.
Qed.

End TwoOrders.

End WholeFacts.

(* ===================================================================== *)
(** * Parameters and structured object together *)
(* ===================================================================== *)

Section PrecedenceFacts.

Variable order : forall V : Type, gmap string V -> list (string * V).
Hypothesis order_perm : forall (V : Type) (m : gmap string V), order V m ≡ₚ map_to_list m.
Variable boundary : string.
Context {J : Type} `{CookieJarOps J}.

(** [prepareURL] on a URL that parses and whose query string parses: the
    parameters are set, each key to its one value, in the parsed query. *)
Lemma prepareURL_set originUrl (P : gmap string string) u q0 :
  P <> ∅ ->
  Url.Parse originUrl = (Some u, None) ->
  Url.ParseQuery (Url.RawQuery u) = (q0, None) ->
  prepareURL order originUrl (Some P)
  = (Strings.ReplaceAll (Url.String_ u) (String "?" (Url.RawQuery u)) EmptyString
       +:+ String "?" (Url.Encode (formValues P ∪ q0)), None).
Proof.
  intros Hne Hparse Hq0. unfold prepareURL. simpl lenMap.
  destruct (Nat.eqb_spec (size P) 0) as [Hz|_].
  { apply map_size_empty_iff in Hz. contradiction. }
  rewrite Hparse, Hq0. simpl rangeOf. fold (setEach q0 (order string P)).
  by rewrite (setEach_union order order_perm).
Qed.

Lemma formValues_union_lookup (P : gmap string string) (q0 : Url.Values) :
  (forall k x, P !! k = Some x -> (formValues P ∪ q0) !! k = Some [x])
  /\ (forall k, P !! k = None -> (formValues P ∪ q0) !! k = q0 !! k).
Proof.
  split.
  - intros k x Hk. apply lookup_union_Some_l. unfold formValues. by rewrite lookup_fmap, Hk.
  - intros k Hk. apply lookup_union_r. unfold formValues. by rewrite lookup_fmap, Hk.
Qed.

(** C7. When a non-empty [Params] map and an [ObjectParam] are both
    supplied, the URL is rewritten by [prepareURL] on [Params] alone, and
    the request that is prepared is the same whatever [ObjectParam] holds
    (also when it is nil): the structured object is not consulted, so only
    one of the two rewrites runs.  The rewrite has set semantics: for a URL
    that parses (with a plain host) and whose query string parses, the text
    the URL stage returns is what [mergeParams] makes of the URL and of a
    query that parses back to this: every key of [Params] bound to its one
    value, whatever values the URL gave it, and every other key bound to
    the values it had in the URL.  Without a fragment that query is what
    follows the first ["?"] of the text, after the head the URL prints. *)
Theorem params_win_over_objectParam method reqUrl args obj (w : World J) P :
  Params args = Some P ->
  P <> ∅ ->
  ObjectParam args = Some obj ->
  resolveURL order reqUrl args = prepareURL order reqUrl (Some P)
  /\ (forall o,
        prepareRequest order boundary method reqUrl (withObjectParam o args) w
        = prepareRequest order boundary method reqUrl args w)
  /\ (forall u q0,
        Url.Parse reqUrl = (Some u, None) ->
        Url.portable reqUrl = true ->
        Url.ParseQuery (Url.RawQuery u) = (q0, None) ->
        exists q',
          resolveURL order reqUrl args
          = (Strings.ReplaceAll (Url.String_ u) (String "?" (Url.RawQuery u)) EmptyString
               +:+ String "?" (Url.Encode q'), None)
          /\ Url.ParseQuery (Url.Encode q') = (q', None)
          /\ (forall k x, P !! k = Some x -> q' !! k = Some [x])
          /\ (forall k, P !! k = None -> q' !! k = q0 !! k)
          /\ (Url.Fragment u = EmptyString ->
              Strings.Cut "?" (resolveURL order reqUrl args).1
              = (Url.stringHead u, Url.Encode q', true))).
Proof.
  intros HP Hne _.
  assert (Hlen : lenMap (Params args) <> 0).
  { rewrite HP. simpl. intros Hz. apply map_size_empty_iff in Hz. contradiction. }
  assert (Hres : resolveURL order reqUrl args = prepareURL order reqUrl (Some P)).
  { rewrite <- HP. by apply resolveURL_params. }
  split; [exact Hres|]. split.
  - intros o. unfold prepareRequest.
    rewrite !resolveURL_params by (destruct args; assumption).
    destruct args; reflexivity.
  - intros u q0 Hparse _ Hq0. exists (formValues P ∪ q0).
    assert (Hwf0 : wfValues q0).
    { pose proof (wfValues_ParseQuery (Url.RawQuery u)) as Hw. by rewrite Hq0 in Hw. }
    destruct (merged_query_not_empty P q0 Hne Hwf0) as [Hwf Henc].
    destruct (formValues_union_lookup P q0) as [Hin Hout].
    rewrite Hres, (prepareURL_set reqUrl P u q0 Hne Hparse Hq0).
    split; [reflexivity|]. split; [by apply ParseQuery_Encode|].
    split; [exact Hin|]. split; [exact Hout|].
    intros Hfrag. simpl.
    pose proof (Parse_head_clean _ _ "?" Hparse eq_refl) as Hq.
    fold (mergeParams u (formValues P ∪ q0)).
    rewrite (mergeParams_no_fragment u _ Hq Hfrag).
    apply Cut_first. by apply ContainsByte_false.
Qed.

End PrecedenceFacts.

(* ===================================================================== *)
(** * Concrete runs *)
(* ===================================================================== *)

(** The runs of the repository's own tests of [Auth]. *)
Example basic_auth_tests :
  Http.BasicAuth (Http.SetBasicAuth bareRequest "Aladdin" "open sesame")
  = ("Aladdin", "open sesame", true)
  /\ Http.BasicAuth (Http.SetBasicAuth bareRequest "Aladdin" "open:sesame")
     = ("Aladdin", "open:sesame", true)
  /\ Http.BasicAuth (Http.SetBasicAuth bareRequest "" "") = ("", "", true)
  /\ Http.Header_Get (Http.Header_ (Http.SetBasicAuth bareRequest "Aladdin" "open sesame"))
       "Authorization"
     = "Basic QWxhZGRpbjpvcGVuIHNlc2FtZQ==".
Proof. repeat split; vm_compute; reflexivity. Qed.

(** The run of the repository's own test of [Params]. *)
Example prepareURL_test :
  prepareURL enumOrder "http://simple.org/path/?b=a" (Some paramsTest)
  = ("http://simple.org/path/?a=c&b=b", None).
Proof. vm_compute. reflexivity. Qed.

(** C1 at an input: an explicit body next to a json value and a data map.
    The request carries the explicit body and no Content-Type. *)
Lemma body_strategy_first_match_witness :
  exists p r,
    prepareRequest enumOrder "b" "POST" "http://example.com" argsBodyAndJson world0 = Ret p
    /\ p_req p = Some r
    /\ Http.Header_ r !! "Content-Type" = None
    /\ Http.Body_ r = Some (StringsReader "raw").
Proof.
  eexists. eexists. split; [vm_compute; reflexivity|]. split; [reflexivity|].
  pose proof (body_strategy_first_match enumOrder (fun V m => reflexivity _) "b"
                (J := MapJar) argsBodyAndJson [])
    as (_ & _ & _ & _ & _ & Hfinal).
  destruct (Hfinal "POST" "http://example.com" world0 _ _ eq_refl
              ltac:(vm_compute; reflexivity) eq_refl) as [Hct Hbody].
  split; [exact Hct|]. by apply Hbody.
Defined.

(** C2, the claim as first stated fails: the base URL binds [x] twice and the
    parameter map does not mention [x]; the merged URL still binds [x] twice,
    so the result has a duplicate key. *)
Lemma duplicate_key_survives_merge :
  exists u' q',
    prepareURL enumOrder "http://simple.org/path/?x=1&x=2" (Some paramsAC)
    = ("http://simple.org/path/?a=c&x=1&x=2", None)
    /\ Url.Parse "http://simple.org/path/?a=c&x=1&x=2" = (Some u', None)
    /\ Url.ParseQuery (Url.RawQuery u') = (q', None)
    /\ q' !! "x" = Some ["1"; "2"].
Proof.
  eexists. eexists. split; [vm_compute; reflexivity|].
  split; [vm_compute; reflexivity|]. split; [vm_compute; reflexivity|].
  vm_compute. reflexivity.
Qed.

(** The amended C2 at an input: the repository's test URL. *)
Lemma merged_params_parse_back_witness :
  exists newUrl q',
    prepareURL enumOrder "http://simple.org/path/?b=a" (Some paramsTest) = (newUrl, None)
    /\ Strings.Cut "?" newUrl = ("http://simple.org/path/", Url.Encode q', true)
    /\ Strings.Count "#" newUrl = 0
    /\ (forall u', Url.Parse newUrl = (Some u', None) ->
          Url.RawQuery u' = Url.Encode q' /\ Url.Fragment u' = EmptyString)
    /\ Url.ParseQuery (Url.Encode q') = (q', None)
    /\ (forall k x, paramsTest !! k = Some x -> q' !! k = Some [x])
    /\ (forall k, paramsTest !! k = None ->
          q' !! k = (<["b" := ["a"]]> ∅ : gmap string (list string)) !! k).
Proof.
  apply (merged_params_parse_back enumOrder (fun V m => reflexivity _)
           "http://simple.org/path/?b=a" paramsTest simplePathURL (<["b" := ["a"]]> ∅)).
  - intros Hempty. apply (f_equal (fun m => m !! "a")) in Hempty. vm_compute in Hempty.
    discriminate.
  - vm_compute. reflexivity.
  - vm_compute. reflexivity.
  - reflexivity.
  - vm_compute. reflexivity.
Defined.

(** The merge on a URL written with an upper-case scheme and a space in its
    path: the text returned starts with the head as [String] prints it. *)
Example prepareURL_normalises :
  prepareURL enumOrder "HTTP://example.com/a b?x=1" (Some paramsAC)
  = ("http://example.com/a%20b?a=c&x=1", None).
Proof. vm_compute. reflexivity. Qed.

(** The text a merge returns need not parse again: the path of this URL
    decodes to ["// x"], which [String] prints as ["//%20x"], and a text
    that starts so has [%20x] for its host. *)
Example merged_url_may_not_parse :
  prepareURL enumOrder "/%2F x?x=1" (Some paramsAC) = ("//%20x?a=c&x=1", None)
  /\ Url.Parse "//%20x?a=c&x=1"
     = (None, Some (ErrURL "parse" "//%20x?a=c&x=1" (ErrEscape "%20"))).
Proof. split; vm_compute; reflexivity. Qed.

(** A URL with a space in its host does not parse, and the merge returns
    the error. *)
Example prepareURL_invalid_host :
  prepareURL enumOrder "http://exa mple.com/path?x=1" (Some paramsAC)
  = ("", Some (Errorf "prepareURL error"
                 (ErrURL "parse" "http://exa mple.com/path?x=1" (ErrInvalidHost " ")))).
Proof. vm_compute. reflexivity. Qed.

(** A base URL with a fragment, which the amended C2 leaves out:
    [mergeParams] appends the merged query after the fragment. *)
Example params_land_in_fragment :
  prepareURL enumOrder "http://simple.org/path?b=a#top" (Some paramsAC)
  = ("http://simple.org/path#top?a=c&b=a", None).
Proof. vm_compute. reflexivity. Qed.

(** C3, the claim as first stated fails: the header map supplies
    [Content-Type: text/plain] and a json body is set; the assembled request
    carries [application/json]. *)
Lemma explicit_content_type_lost :
  Headers argsJsonExplicit = Some explicitPlain
  /\ explicitPlain !! "Content-Type" = Some "text/plain"
  /\ exists p r,
       prepareRequest enumOrder "b" "POST" "http://example.com" argsJsonExplicit world0
       = Ret p
       /\ p_req p = Some r
       /\ Http.Header_Get (Http.Header_ r) "Content-Type" = "application/json".
Proof.
  split; [reflexivity|]. split; [vm_compute; reflexivity|].
  eexists. eexists. split; [vm_compute; reflexivity|].
  split; [reflexivity|]. vm_compute. reflexivity.
Qed.

(** The amended C3 at an input: an explicit [text/plain] next to a json
    value. *)
Lemma inferred_content_type_replaces_explicit_witness :
  exists p r,
    prepareRequest enumOrder "b" "POST" "http://example.com" argsJsonExplicit world0 = Ret p
    /\ p_req p = Some r
    /\ exists inferred,
         inferredContentType "b" argsJsonExplicit = Some [inferred]
         /\ p_headers p = Some (<["Content-Type" := inferred]> explicitPlain)
         /\ Http.Header_ r !! "Content-Type" = Some [inferred]
         /\ Http.Header_Get (Http.Header_ r) "Content-Type" = inferred
         /\ contentTypeWrites (rangeOf enumOrder (p_headers p)) = 1.
Proof.
  eexists. eexists. split; [vm_compute; reflexivity|]. split; [reflexivity|].
  eapply (inferred_content_type_replaces_explicit enumOrder (fun V m => reflexivity _)
            "b" argsJsonExplicit "POST" "http://example.com" world0 _ _
            explicitPlain "text/plain").
  - reflexivity.
  - vm_compute. reflexivity.
  - vm_compute. reflexivity.
  - reflexivity.
  - vm_compute. reflexivity.
  - reflexivity.
Defined.

(** C4, the defect.  With a method that is not a token, [http.NewRequest]
    returns a nil request and an error; [prepareRequest] does not test that
    error before the header loop, which dereferences the nil request. *)
Theorem invalid_method_panics :
  Http.NewRequest "bad method" "http://example.com" None
  = (None, Some (ErrInvalidMethod "bad method"))
  /\ prepareRequest enumOrder "b" "bad method" "http://example.com" argsBadMethod world0
     = Panic NilDereference.
Proof. split; vm_compute; reflexivity. Qed.

(** C5, the defect.  When copying a stream fails, [prepareFilesBody] returns
    from inside the loop: neither that stream nor the streams after it are
    closed (the close log stays empty). *)
Theorem copy_error_skips_close :
  prepareFilesBody enumOrder "b" twoFiles None []
  = Ret ([], (None, EmptyString, Some (ErrIO "read failed"))).
Proof. vm_compute. reflexivity. Qed.

(** C6, the claim as first stated fails: client [7] holds jar [1]; a call
    with the explicit jar [2] stores [2] in the client's jar field, and the
    client keeps it: a later call through the same client, with a cookie map
    and no explicit jar, writes its cookies into jar [2] and leaves jar [1]
    as it was. *)
Lemma explicit_jar_mutates_client :
  clients world0 !! 7 = Some (mkHttpClient (Some 1) 0)
  /\ exists w1 w2,
       prepareCookies enumOrder argsExplicitJar None world0 = Ret w1
       /\ clients w1 !! 7 = Some (mkHttpClient (Some 2) 0)
       /\ prepareCookies enumOrder argsCookieMap (Some bareRequest) w1 = Ret w2
       /\ jars w2 !! 1 = jars world0 !! 1
       /\ jars w2 !! 2
          = Some (<["http://example.com/" := [Http.mkCookie "sessioncookie" "123456789"]]> ∅).
Proof.
  split; [vm_compute; reflexivity|].
  eexists. eexists. split; [vm_compute; reflexivity|].
  split; [vm_compute; reflexivity|]. split; [vm_compute; reflexivity|].
  split; vm_compute; reflexivity.
Qed.

(** C7 at an input: params and a struct together, on the repository's test
    URL. *)
Lemma params_win_over_objectParam_witness :
  resolveURL enumOrder "http://simple.org/path/?b=a" argsParamsAndStruct
  = prepareURL enumOrder "http://simple.org/path/?b=a" (Some paramsTest)
  /\ (forall o,
        prepareRequest enumOrder "b" "GET" "http://simple.org/path/?b=a"
          (withObjectParam o argsParamsAndStruct) world0
        = prepareRequest enumOrder "b" "GET" "http://simple.org/path/?b=a"
            argsParamsAndStruct world0)
  /\ exists q',
       resolveURL enumOrder "http://simple.org/path/?b=a" argsParamsAndStruct
       = ("http://simple.org/path/" +:+ String "?" (Url.Encode q'), None)
       /\ Url.ParseQuery (Url.Encode q') = (q', None)
       /\ (forall k x, paramsTest !! k = Some x -> q' !! k = Some [x])
       /\ (forall k, paramsTest !! k = None ->
             q' !! k = (<["b" := ["a"]]> ∅ : gmap string (list string)) !! k).
Proof.
  destruct (params_win_over_objectParam enumOrder (fun V m => reflexivity _) "b" "GET"
              "http://simple.org/path/?b=a" argsParamsAndStruct structA2 world0 paramsTest
              eq_refl) as (Hres & Hsame & Hset).
  - intros Hempty. apply (f_equal (fun m => m !! "a")) in Hempty. vm_compute in Hempty.
    discriminate.
  - reflexivity.
  - split; [exact Hres|]. split; [exact Hsame|].
    destruct (Hset simplePathURL (<["b" := ["a"]]> ∅))
      as (q' & Htext & Hback & Hin & Hout & _); try (vm_compute; reflexivity).
    exists q'. auto.
Defined.

(** C8, the defect.  The base URL carries a fragment: [mergeParams] removes
    the old query and appends the new one at the end of the text, after the
    fragment.  The rebuilt URL has an empty query string; the added values,
    and the value the URL had, are now part of its fragment. *)
Theorem struct_query_lands_in_fragment :
  prepareURLWithStruct enumOrder "http://simple.org/path?a=1#top" structA2
  = ("http://simple.org/path#top?a=1&a=2&a=3", None)
  /\ Url.Parse "http://simple.org/path#top?a=1&a=2&a=3"
     = (Some (Url.mkURL "http" "" None "simple.org" "/path" "" false false ""
                "top?a=1&a=2&a=3" ""), None).
Proof. split; vm_compute; reflexivity. Qed.

(** C9, the claim as first stated fails: the username ["a:b"] with the
    password ["c"] is decoded as the username ["a"] with the password
    ["b:c"]. *)
Lemma colon_in_username_not_recovered :
  Auth argsColonUser = Some ["a:b"; "c"]
  /\ exists p r,
       prepareRequest enumOrder "b" "GET" "http://example.com/" argsColonUser world0
       = Ret p
       /\ p_req p = Some r
       /\ Http.BasicAuth r = ("a", "b:c", true).
Proof.
  split; [reflexivity|].
  eexists. eexists. split; [vm_compute; reflexivity|].
  split; [reflexivity|]. vm_compute. reflexivity.
Qed.

(** The amended C9 at an input: a password that holds a colon. *)
Lemma basic_auth_round_trip_witness :
  exists p r,
    prepareRequest enumOrder "b" "GET" "http://example.com/" argsAladdin world0 = Ret p
    /\ p_req p = Some r
    /\ Http.BasicAuth r = ("Aladdin", "open:sesame", true).
Proof.
  eexists. eexists. split; [vm_compute; reflexivity|]. split; [reflexivity|].
  eapply (basic_auth_round_trip enumOrder (fun V m => reflexivity _) "b" argsAladdin
            "GET" "http://example.com/" world0 _ _ "Aladdin" "open:sesame" []).
  - reflexivity.
  - vm_compute. reflexivity.
  - vm_compute. reflexivity.
  - vm_compute. reflexivity.
  - reflexivity.
Defined.

(** C10, the claim as first stated fails: with [Auth] an empty non-nil slice,
    [Params] set and a URL that does not parse (it ends in a line feed), the
    URL stage returns its error before [Auth] is read, and [prepareRequest]
    returns that error without panic. *)
Lemma short_auth_early_error :
  Auth argsShortAuth = Some []
  /\ prepareRequest enumOrder "b" "GET" urlWithLineFeed argsShortAuth world0
     = Ret (mkPrepared world0 (Some acceptAny) None
              (Some (Errorf "prepareURL error"
                       (ErrURL "parse" urlWithLineFeed ErrInvalidControl)))).
Proof. split; [reflexivity|]. vm_compute. reflexivity. Qed.

(** The amended C10 at two inputs: a one-element [Auth] on a URL that
    parses, and an empty [Auth] next to parameters on a URL that does not. *)
Lemma auth_index_panic_witness :
  prepareRequest enumOrder "b" "GET" "http://example.com" argsOneAuth world0
  = Panic (IndexOutOfRange 1 1)
  /\ prepareRequest enumOrder "b" "GET" "http://exa mple.com/path?x=1" argsShortAuth world0
     = Ret (mkPrepared world0 (Some acceptAny) None
              (Some (Errorf "prepareURL error"
                       (ErrURL "parse" "http://exa mple.com/path?x=1" (ErrInvalidHost " "))))).
Proof.
  split.
  - apply (proj1 (auth_index_panic enumOrder "b" "GET" "http://example.com" argsOneAuth
                    world0)
             "http://example.com" (mkBodyResult (Some acceptAny) [] None None) ["user"]);
      try reflexivity.
    simpl. lia.
  - apply (proj1 (proj2 (proj2 (proj2
             (auth_index_panic enumOrder "b" "GET" "http://exa mple.com/path?x=1"
                argsShortAuth world0))))).
    + vm_compute. discriminate.
    + vm_compute. reflexivity.
Defined.
(* ===================================================================== *)
(** * Concrete runs of the further properties *)
(* ===================================================================== *)

Lemma enumOrder_perm (V : Type) (m : gmap string V) : enumOrder V m ≡ₚ map_to_list m.
Proof. reflexivity. Defined.

Lemma reverseOrder_perm (V : Type) (m : gmap string V) : reverseOrder V m ≡ₚ map_to_list m.
Proof. apply reverse_Permutation. Defined.

(** X1 at an input: the form of the repository's test of [Data]. *)
Lemma encodeParams_text_witness :
  encodeParams reverseOrder (Some dataTest) = formText dataTest
  /\ encodeParams reverseOrder None = EmptyString.
Proof. exact (encodeParams_text reverseOrder reverseOrder_perm dataTest). Defined.

Example form_test : formText dataTest = "a=2&b=2".
Proof. vm_compute. reflexivity. Qed.

(** X2 at an input. *)
Lemma data_body_round_trip_witness :
  exists s,
    prepareDataBody enumOrder (Some dataTest) = (Some (StringsReader s), None)
    /\ Url.ParseQuery s = (formValues dataTest, None).
Proof. exact (data_body_round_trip enumOrder enumOrder_perm dataTest). Defined.

(** X3 at an input: [b] is set twice, the later value stays. *)
Lemma prepareURL_twice_witness :
  (exists query,
     prepareURL enumOrder
       (prepareURL enumOrder "http://simple.org/path/?b=a" (Some paramsTest)).1 (Some paramsB)
     = ("http://simple.org/path/" +:+ String "?" query, None)
     /\ prepareURL enumOrder "http://simple.org/path/?b=a" (Some (paramsB ∪ paramsTest))
        = ("http://simple.org/path/" +:+ String "?" query, None)
     /\ Url.ParseQuery query
        = (formValues (paramsB ∪ paramsTest) ∪ <["b" := ["a"]]> ∅, None))
  /\ (exists query,
        prepareURL enumOrder "http://simple.org/path/?b=a" (Some paramsTest)
        = ("http://simple.org/path/" +:+ String "?" query, None)
        /\ prepareURL enumOrder
             (prepareURL enumOrder "http://simple.org/path/?b=a" (Some paramsTest)).1
             (Some paramsTest)
           = ("http://simple.org/path/" +:+ String "?" query, None)).
Proof.
  apply (prepareURL_twice enumOrder enumOrder_perm "http://simple.org/path/?b=a"
           paramsTest paramsB simplePathURL (<["b" := ["a"]]> ∅)
           (Url.mkURL "http" "" None "simple.org" "/path/" "" false false "a=c&b=b" "" ""));
    try (vm_compute; reflexivity).
  - intros Hempty. apply (f_equal (fun m => m !! "a")) in Hempty. vm_compute in Hempty.
    discriminate.
  - intros Hempty. apply (f_equal (fun m => m !! "b")) in Hempty. vm_compute in Hempty.
    discriminate.
Defined.

Example prepareURL_twice_test :
  prepareURL enumOrder
    (prepareURL enumOrder "http://simple.org/path/?b=a" (Some paramsTest)).1 (Some paramsB)
  = ("http://simple.org/path/?a=c&b=z", None).
Proof. vm_compute. reflexivity. Qed.

(** X4 at an input: one file and a form of two fields. *)
Lemma multipart_body_text_witness :
  exists log' body ct,
    prepareFilesBody enumOrder "xyz" oneGoodFile (Some dataTest) [] = Ret (log', (body, ct, None))
    /\ body = Some (BufferReader
                      (partsText "xyz" false
                         (fileParts oneGoodFile ++ fieldParts (rangeOf enumOrder (Some dataTest)))
                       +:+ closingText "xyz"))
    /\ ct = Multipart.FormDataContentType (Multipart.NewWriter "xyz").
Proof.
  eexists. eexists. eexists. split; [vm_compute; reflexivity|].
  eapply (multipart_body_text enumOrder "xyz" oneGoodFile (Some dataTest) []).
  vm_compute. reflexivity.
Defined.

(** A file name with a line break in it: the break is written as escapes. *)
Example file_name_with_line_break :
  Multipart.escapeQuotes ("a" +:+ Multipart.CRLF +:+ "b.txt") = "a%0D%0Ab.txt".
Proof. vm_compute. reflexivity. Qed.

(** X5 at an input. *)
Lemma files_closed_on_success_witness :
  exists log' body ct,
    prepareFilesBody enumOrder "xyz" oneGoodFile None [5] = Ret (log', (body, ct, None))
    /\ log' = [5] ++ streamIds oneGoodFile
    /\ length (streamIds oneGoodFile) = length oneGoodFile.
Proof.
  eexists. eexists. eexists. split; [vm_compute; reflexivity|].
  eapply (files_closed_on_success enumOrder "xyz" oneGoodFile None [5]).
  vm_compute. reflexivity.
Defined.

(** X6 at an input: the first of two streams fails. *)
Lemma files_closed_in_order_witness :
  exists log' body ct err,
    prepareFilesBody enumOrder "xyz" twoFiles None [] = Ret (log', (body, ct, err))
    /\ (exists n, n <= length twoFiles /\ log' = [] ++ streamIds (take n twoFiles))
    /\ (is_Some err -> body = None /\ ct = EmptyString).
Proof.
  eexists. eexists. eexists. eexists. split; [vm_compute; reflexivity|].
  eapply (files_closed_in_order enumOrder "xyz" twoFiles None []).
  vm_compute. reflexivity.
Defined.

(** X7 at an input: [Accept] read back as [accept]. *)
Lemma header_read_back_witness :
  exists p r,
    prepareRequest enumOrder "b" "GET" "http://example.com/" argsAladdin world0 = Ret p
    /\ p_req p = Some r
    /\ Http.Header_Get (Http.Header_ r) "accept" = "*/*".
Proof.
  eexists. eexists. split; [vm_compute; reflexivity|]. split; [reflexivity|].
  eapply (header_read_back enumOrder enumOrder_perm "b" "GET" "http://example.com/"
            argsAladdin world0 _ _ acceptAny "Accept" "*/*" "accept").
  - vm_compute. reflexivity.
  - reflexivity.
  - vm_compute. reflexivity.
  - vm_compute. reflexivity.
  - vm_compute. reflexivity.
  - vm_compute. reflexivity.
Defined.

(** X8 at an input: a bearer token next to [Auth]. *)
Lemma authorization_header_wins_witness :
  exists p r,
    prepareRequest enumOrder "b" "GET" "http://example.com/" argsBearer world0 = Ret p
    /\ p_req p = Some r
    /\ Http.Header_Get (Http.Header_ r) "Authorization" = "Bearer token".
Proof.
  eexists. eexists. split; [vm_compute; reflexivity|]. split; [reflexivity|].
  eapply (authorization_header_wins enumOrder enumOrder_perm "b" "GET"
            "http://example.com/" argsBearer world0 _ _ bearer "Bearer token").
  - reflexivity.
  - vm_compute. reflexivity.
  - vm_compute. reflexivity.
  - vm_compute. reflexivity.
  - reflexivity.
Defined.

(** X9 at an input: a URL that does not parse, no header, no auth. *)
Lemma request_or_error_witness :
  exists p,
    prepareRequest enumOrder "b" "GET" urlWithLineFeed
      (mkRequestArguments (Some 7) None None None None None None None None None None 0 0)
      world0 = Ret p
    /\ ((is_Some (p_req p) /\ p_err p = None) \/ (p_req p = None /\ is_Some (p_err p))).
Proof.
  eexists. split; [vm_compute; reflexivity|].
  eapply (request_or_error enumOrder "b" "GET" urlWithLineFeed
            (mkRequestArguments (Some 7) None None None None None None None None None None 0 0)
            world0).
  vm_compute. reflexivity.
Defined.

(** X10 at an input. *)
Lemma prepareRequest_frame_witness :
  exists p,
    prepareRequest enumOrder "b" "POST" "http://example.com/" argsData world0 = Ret p
    /\ (filesActive argsData = false -> closed (p_world p) = closed world0)
    /\ (CookieJar argsData = None -> Cookies argsData = None ->
        clients (p_world p) = clients world0 /\ jars (p_world p) = jars world0)
    /\ (is_Some (CookieJar argsData) -> jars (p_world p) = jars world0)
    /\ (inferringStrategyActive argsData = false -> p_headers p = Headers argsData)
    /\ (forall hm hm' k, Headers argsData = Some hm -> p_headers p = Some hm' ->
          k <> "Content-Type" -> k <> "Content-type" -> hm' !! k = hm !! k).
Proof.
  eexists. split; [vm_compute; reflexivity|].
  eapply (prepareRequest_frame enumOrder "b" "POST" "http://example.com/" argsData world0).
  vm_compute. reflexivity.
Defined.

(** X11 at an input: a json value and no header map. *)
Lemma nil_headers_panic_witness :
  exists pn,
    prepareRequest enumOrder "b" "POST" "http://example.com/" argsNilHeaders world0 = Panic pn
    /\ (pn = NilMapAssignment \/ (filesActive argsNilHeaders = true /\ pn = NilDereference)).
Proof.
  apply (nil_headers_panic enumOrder "b" "POST" "http://example.com/" argsNilHeaders world0
           "http://example.com/"); reflexivity.
Defined.

(** X12 at an input: a data map alone. *)
Lemma assembled_body_witness :
  exists p r,
    prepareRequest enumOrder "b" "POST" "http://example.com/" argsData world0 = Ret p
    /\ p_req p = Some r
    /\ Http.Body_ r = Some (StringsReader (formText dataTest)).
Proof.
  eexists. eexists. split; [vm_compute; reflexivity|]. split; [reflexivity|].
  eapply (assembled_body enumOrder enumOrder_perm "b" "POST" "http://example.com/"
            argsData world0 _ _); reflexivity.
Defined.

(** X13 at an input: a URL written with an upper-case scheme and a space in
    its path, on the request. *)
Lemma request_url_merged_witness :
  exists p r,
    prepareRequest enumOrder "b" "GET" "HTTP://example.com/a b?x=1" argsParamsAC world0 = Ret p
    /\ p_req p = Some r
    /\ Url.RawQuery (Http.URL r) = Url.Encode (formValues paramsAC ∪ <["x" := ["1"]]> ∅)
    /\ Url.ParseQuery (Url.RawQuery (Http.URL r))
       = (formValues paramsAC ∪ <["x" := ["1"]]> ∅, None)
    /\ Url.Fragment (Http.URL r) = EmptyString
    /\ Url.String_ (Http.URL r)
       = Url.stringHead (Http.URL r)
         +:+ String "?" (Url.Encode (formValues paramsAC ∪ <["x" := ["1"]]> ∅)).
Proof.
  eexists. eexists. split; [vm_compute; reflexivity|]. split; [reflexivity|].
  eapply (request_url_merged "b" enumOrder enumOrder_perm "GET"
            "HTTP://example.com/a b?x=1" argsParamsAC world0 _ _ paramsAC
            shoutedURL (<["x" := ["1"]]> ∅)).
  - reflexivity.
  - intros Hempty. apply (f_equal (fun m => m !! "a")) in Hempty. vm_compute in Hempty.
    discriminate.
  - vm_compute. reflexivity.
  - vm_compute. reflexivity.
  - reflexivity.
  - vm_compute. reflexivity.
  - vm_compute. reflexivity.
  - reflexivity.
Defined.

Example request_url_test :
  exists p r,
    prepareRequest enumOrder "b" "GET" "HTTP://example.com/a b?x=1" argsParamsAC world0 = Ret p
    /\ p_req p = Some r
    /\ Url.String_ (Http.URL r) = "http://example.com/a%20b?a=c&x=1".
Proof.
  eexists. eexists. split; [vm_compute; reflexivity|]. split; [reflexivity|].
  vm_compute. reflexivity.
Qed.

(** X14 at an input. *)
Lemma prepareRequest_succeeds_witness :
  exists p r,
    prepareRequest enumOrder "b" "" "http://example.com/" argsAladdin world0 = Ret p
    /\ p_req p = Some r /\ p_err p = None
    /\ Http.Method r = effectiveMethod "" /\ Http.URL r = Http.normalizeHost exampleRootURL.
Proof.
  apply (prepareRequest_succeeds "b" enumOrder "" "http://example.com/" argsAladdin world0
           "http://example.com/" exampleRootURL);
    try reflexivity.
  - intros j _ [=].
  - intros [=].
  - simpl. lia.
Defined.

(** A URL with a broken escape in its path: [http.NewRequest] returns no
    request, and the auth step of [prepareRequest] dereferences it. *)
Example broken_escape_panics :
  prepareRequest enumOrder "b" "GET" "http://example.com/%zz" argsAladdin world0
  = Panic NilDereference.
Proof. vm_compute. reflexivity. Qed.

(** X15 at an input: the map's enumeration and its reverse. *)
Lemma prepareRequest_any_order_witness :
  prepareRequest enumOrder "b" "GET" "http://simple.org/path/?b=a" argsParams world0
  = prepareRequest reverseOrder "b" "GET" "http://simple.org/path/?b=a" argsParams world0.
Proof.
  apply (prepareRequest_any_order "b" enumOrder reverseOrder enumOrder_perm reverseOrder_perm
           "GET" "http://simple.org/path/?b=a" argsParams world0).
  - reflexivity.
  - vm_compute. reflexivity.
  - by right.
Defined.

(** X16 at an input: two values added under a key the URL already binds. *)
Lemma struct_values_added_witness :
  exists newUrl q',
    prepareURLWithStruct enumOrder "http://simple.org/path?a=1"
      (Query.Struct [("a", "2"); ("a", "3")]) = (newUrl, None)
    /\ newUrl = "http://simple.org/path" +:+ String "?" (Url.Encode q')
    /\ Strings.Count "?" "http://simple.org/path" = 0
    /\ Strings.Count "#" newUrl = 0
    /\ (forall u', Url.Parse newUrl = (Some u', None) ->
          Url.Encode q' <> EmptyString -> Url.RawQuery u' = Url.Encode q')
    /\ Url.ParseQuery (Url.Encode q') = (q', None)
    /\ forall k, default [] (q' !! k)
                 = default [] ((<["a" := ["1"]]> ∅ : gmap string (list string)) !! k)
                   ++ valuesOf k [("a", "2"); ("a", "3")].
Proof.
  apply (struct_values_added enumOrder enumOrder_perm "http://simple.org/path?a=1"
           [("a", "2"); ("a", "3")] simpleA1URL (<["a" := ["1"]]> ∅)).
  - vm_compute. reflexivity.
  - vm_compute. reflexivity.
  - reflexivity.
  - vm_compute. reflexivity.
Defined.

Example struct_values_added_test :
  prepareURLWithStruct enumOrder "http://simple.org/path?a=1"
    (Query.Struct [("a", "2"); ("a", "3")])
  = ("http://simple.org/path?a=1&a=2&a=3", None).
Proof. vm_compute. reflexivity. Qed.

(** X17 at an input: a json value that cannot be marshalled. *)
Lemma body_failure_side_effects_witness :
  prepareRequest enumOrder "b" "POST" "http://example.com/" argsUnmarshallable world0
  = Ret (mkPrepared world0 (Some (<["Content-Type" := defaultJsonType]> acceptAny)) None
           (Some (Errorf "prepareRequest error"
                    (Errorf "prepareJsonBody error"
                       (ErrMarshal "json: unsupported type: chan int"))))).
Proof.
  apply (proj1 (body_failure_side_effects enumOrder "b" "POST" "http://example.com/"
                  argsUnmarshallable world0 "http://example.com/" acceptAny
                  eq_refl eq_refl eq_refl eq_refl)
           EmptyString (ErrMarshal "json: unsupported type: chan int")).
  reflexivity.
Defined.
